(** * Probability visualizer: the run simulator, the batch scheduler and the
      density aggregator, embedded from the JavaScript sources

    - [SimulationEngine]      src/js/modules/SimulationEngine.js
    - [VisualizationEngine]   src/js/modules/VisualizationEngine.js
    - [UIController]          src/js/modules/UIController.js
    - [ProbabilityVisualizer] the application class that runs the phases
    - [StatisticsCalculator]  the statistics of the results

    Conventions of the embedding.
    - Counters, iteration counts, grid cells and millisecond time stamps are
      JavaScript numbers holding integers; they are modelled by [Z].
    - The probabilities [initialProb], [decayFactor] and the values returned
      by [Math.random()] are modelled by exact rationals [Q].  The product
      [initialProb * Math.pow(decayFactor, counter)] is taken without the
      rounding of the doubles: the properties of the walk hold for every
      sequence of moves up and down, and those about given draws use the
      product where it is exact in doubles (at level 0, or with the decay
      factor 1).
    - The normalised grids hold non-integer numbers computed with [Math.sqrt],
      [Math.log] and [/]; they are modelled by reals extended with the two
      infinities and NaN ([jsnum]).
    - An exception (TypeError, RangeError) is the result [None]. *)

From Stdlib Require Import ZArith QArith Qminmax Qround Qpower Reals Lra Lia String.
From stdpp Require Import base tactics option list numbers gmap sorting.

(* ===================================================================== *)
(** * SimulationEngine.js *)
(* ===================================================================== *)

Module SimulationEngine.

Local Open Scope Z_scope.

(** The [reason] field of an attempt. *)
Inductive Reason := success | iteration_limit | unknown.

(** The object returned by [simulateRun]. *)
Record RunResult := mkRunResult {
  path : list Z;
  completed : bool;
  iterations : Z;
  timeMs : Z;
  hitIterationLimit : bool;
  reason : Reason
}.

(** The local variables of [simulateRun] that the loop updates. *)
Record RunState := mkRunState {
  st_path : list Z;
  st_counter : Z;
  st_iterations : Z
}.

(** [Math.random() < cappedPUp] *)
Definition Qltb (a b : Q) : bool := (Qnum a * QDen b <? Qnum b * QDen a)%Z.

(** [initialProb * Math.pow(decayFactor, counter)] *)
Definition pUp (initialProb decayFactor : Q) (counter : Z) : Q :=
  (initialProb * decayFactor ^ counter)%Q.

(** [Math.max(0, Math.min(1, pUp))] *)
Definition cappedPUp (p : Q) : Q := Qmax 0 (Qmin 1 p).

(** The loop condition [counter < maxValue && iterations < iterationSafetyLimit]. *)
Definition keepRunning (maxValue iterationSafetyLimit : Z) (st : RunState) : bool :=
  (st_counter st <? maxValue) && (st_iterations st <? iterationSafetyLimit).

(** One pass through the loop body, [r] being the value of [Math.random()]:
    push the counter, move it up or down (not below 0), count the iteration. *)
Definition loopBody (initialProb decayFactor : Q) (r : Q) (st : RunState) : RunState :=
  let counter := st_counter st in
  let path' := st_path st ++ [counter] in
  let counter' :=
    if Qltb r (cappedPUp (pUp initialProb decayFactor counter))
    then counter + 1
    else Z.max 0 (counter - 1) in
  mkRunState path' counter' (st_iterations st + 1).

(** The [while] loop.  [draws] lists the values that the successive calls of
    [Math.random()] return; every pass consumes one.  The result is [None]
    when the listed draws are used up while the loop condition still holds. *)
Fixpoint runLoop (initialProb decayFactor : Q) (maxValue iterationSafetyLimit : Z)
    (draws : list Q) (st : RunState) : option RunState :=
  if keepRunning maxValue iterationSafetyLimit st then
    match draws with
    | [] => None
    | r :: draws' =>
        runLoop initialProb decayFactor maxValue iterationSafetyLimit draws'
          (loopBody initialProb decayFactor r st)
    end
  else Some st.

(** The code after the loop. *)
Definition finishRun (maxValue iterationSafetyLimit : Z) (startTime endTime : Z)
    (st : RunState) : RunResult :=
  let path := if st_counter st =? maxValue then st_path st ++ [maxValue] else st_path st in
  let totalTime := endTime - startTime in
  let hitIterationLimit := st_iterations st >=? iterationSafetyLimit in
  let completed := st_counter st =? maxValue in
  mkRunResult path completed (st_iterations st) totalTime hitIterationLimit
    (if completed then success
     else if hitIterationLimit then iteration_limit else unknown).

(** [simulateRun(initialProb, decayFactor, maxValue, maxTimeMs,
    iterationSafetyLimit, allowYielding, progressCallback, progressData)].
    [startTime] and [endTime] are the two readings of [performance.now()].
    [maxTimeMs] is not read by the source; [allowYielding], [progressCallback]
    and [progressData] only drive the periodic yield and the progress
    notification, which write none of [path], [counter], [iterations]. *)
Definition simulateRun (initialProb decayFactor : Q) (maxValue iterationSafetyLimit : Z)
    (draws : list Q) (startTime endTime : Z) : option RunResult :=
  finishRun maxValue iterationSafetyLimit startTime endTime <$>
    runLoop initialProb decayFactor maxValue iterationSafetyLimit draws
      (mkRunState [] 0 0).

(** [this.defaultIterationSafetyLimit] and [Number.MAX_SAFE_INTEGER]. *)
Definition defaultIterationSafetyLimit : Z := 10000000.
Definition MAX_SAFE_INTEGER : Z := 9007199254740991.

(** ** The batch scheduler *)

(** The [timeoutPhase] field. *)
Inductive Phase := initial | extended | unlimited.

(** What the time checks at the top of the loop body write to the console:
    the [console.log] of the time limit, the [console.warn] and the
    [console.error] of the check for the unlimited mode. *)
Inductive ConsoleLine := log_hit_time_limit | warn_long_running | error_safety_stop.

(** The object returned by [runMultipleSimulations]. *)
Record BatchResult := mkBatchResult {
  completedRuns : list (list Z);
  allAttempts : list RunResult;
  failedRuns : list RunResult;
  desiredSuccesses : Z;
  actualSuccesses : Z;
  totalAttempts : Z;
  parameterEfficiency : Q;
  totalTimeMs : Z;
  totalSimulationTimeMs : Z;
  reachedDesiredCount : bool;
  hitTimeLimit : bool;
  wasStopped : bool;
  hasAnyData : bool;
  timeoutPhase : Phase;
  totalIncomplete : Z;
  averageIterations : Q;
  averageSuccessfulIterations : Q;
  averageRunTime : Q
}.

(** The fields [actualCompletionRate] and [completionRate] repeat
    [parameterEfficiency], [allPaths] repeats [completedRuns] and
    [totalCompleted] repeats [actualSuccesses]. *)
Definition actualCompletionRate (r : BatchResult) : Q := parameterEfficiency r.
Definition completionRate (r : BatchResult) : Q := parameterEfficiency r.
Definition allPaths (r : BatchResult) : list (list Z) := completedRuns r.
Definition totalCompleted (r : BatchResult) : Z := actualSuccesses r.

(** The argument object of [runMultipleSimulations], without
    [existingResults].  [totalTimeLimit] is [None] for [null].
    [singleRunTimeLimit] is only handed to [simulateRun], which does not read
    it; [progressCallback] is only notified. *)
Record BatchParams := mkBatchParams {
  numRuns : Z;
  initialProb : Q;
  decayFactor : Q;
  maxValue : Z;
  totalTimeLimit : option Z
}.

(** What one pass through the loop body takes from outside. *)
Record Turn := mkTurn {
  t_elapsed : Z;        (* performance.now() - startTime at the top of the body *)
  t_draws : list Q;     (* the values of Math.random() during the attempt *)
  t_runStart : Z;       (* performance.now() when the attempt starts *)
  t_runEnd : Z;         (* performance.now() when the attempt ends *)
  t_stopCalled : bool   (* stop() runs while this pass is suspended in an await *)
}.

(** The variables the loop updates. *)
Record BatchState := mkBatchState {
  b_allAttempts : list RunResult;
  b_completedRuns : list (list Z);
  b_failedRuns : list RunResult;
  b_totalAttempts : Z;
  b_successfulRuns : Z;
  b_shouldStop : bool;
  b_console : list ConsoleLine
}.

(** A limit used as a condition: [null] and [0] are false. *)
Definition truthy (totalTimeLimit : option Z) : bool :=
  match totalTimeLimit with
  | Some t => negb (t =? 0)
  | None => false
  end.

(** The two checks at the top of the loop body: the lines written to the
    console, and whether the loop is left with [break]. *)
Definition timeChecks (totalTimeLimit : option Z) (elapsed : Z) : list ConsoleLine * bool :=
  if truthy totalTimeLimit && (elapsed >? default 0 totalTimeLimit) then
    ([log_hit_time_limit], true)
  else if negb (truthy totalTimeLimit) && (elapsed >? 60000) then
    if elapsed >? 120000 then
      if elapsed >? 300000 then ([warn_long_running; error_safety_stop], true)
      else ([warn_long_running], false)
    else ([], false)
  else ([], false).

(** [totalTimeLimit === null ? Number.MAX_SAFE_INTEGER : this.defaultIterationSafetyLimit] *)
Definition iterationLimit (totalTimeLimit : option Z) : Z :=
  match totalTimeLimit with
  | None => MAX_SAFE_INTEGER
  | Some _ => defaultIterationSafetyLimit
  end.

(** The bookkeeping after an attempt: [allAttempts.push(result)], then
    [completedRuns.push(result.path); successfulRuns++] or
    [failedRuns.push(result)]. *)
Definition recordAttempt (result : RunResult) (st : BatchState) : BatchState :=
  if completed result then
    mkBatchState (b_allAttempts st ++ [result]) (b_completedRuns st ++ [path result])
      (b_failedRuns st) (b_totalAttempts st) (b_successfulRuns st + 1)
      (b_shouldStop st) (b_console st)
  else
    mkBatchState (b_allAttempts st ++ [result]) (b_completedRuns st)
      (b_failedRuns st ++ [result]) (b_totalAttempts st) (b_successfulRuns st)
      (b_shouldStop st) (b_console st).

(** The [while (successfulRuns < numRuns && !this.shouldStop)] loop.  Every
    pass consumes one [Turn]; the result is [None] when the turns (or the
    draws of a turn) are used up while the loop would go on.  The yields, the
    progress notifications and the [console.log] lines of the loop body do
    not write the accumulators and are left out. *)
Fixpoint batchLoop (p : BatchParams) (turns : list Turn) (st : BatchState) : option BatchState :=
  if (b_successfulRuns st <? numRuns p) && negb (b_shouldStop st) then
    match turns with
    | [] => None
    | t :: turns' =>
        let '(lines, leave) := timeChecks (totalTimeLimit p) (t_elapsed t) in
        let st1 := mkBatchState (b_allAttempts st) (b_completedRuns st) (b_failedRuns st)
                     (b_totalAttempts st) (b_successfulRuns st) (b_shouldStop st)
                     (b_console st ++ lines) in
        if leave then Some st1
        else
          let st2 := mkBatchState (b_allAttempts st1) (b_completedRuns st1) (b_failedRuns st1)
                       (b_totalAttempts st1 + 1) (b_successfulRuns st1) (b_shouldStop st1)
                       (b_console st1) in
          match simulateRun (initialProb p) (decayFactor p) (maxValue p)
                  (iterationLimit (totalTimeLimit p)) (t_draws t) (t_runStart t) (t_runEnd t) with
          | None => None
          | Some result =>
              let st3 := recordAttempt result st2 in
              batchLoop p turns'
                (mkBatchState (b_allAttempts st3) (b_completedRuns st3) (b_failedRuns st3)
                   (b_totalAttempts st3) (b_successfulRuns st3)
                   (b_shouldStop st3 || t_stopCalled t) (b_console st3))
          end
    end
  else Some st.

(** The accumulators before the loop: copies of the lists of
    [existingResults] when continuing, empty otherwise. *)
Definition initialState (existingResults : option BatchResult) : BatchState :=
  match existingResults with
  | Some e =>
      mkBatchState (allAttempts e) (completedRuns e) (failedRuns e)
        (totalAttempts e) (actualSuccesses e) false []
  | None => mkBatchState [] [] [] 0 0 false []
  end.

(** [existingResults.totalSimulationTimeMs || existingResults.totalTimeMs] *)
Definition previousTimeMs (existingResults : option BatchResult) : Z :=
  match existingResults with
  | Some e => if totalSimulationTimeMs e =? 0 then totalTimeMs e else totalSimulationTimeMs e
  | None => 0
  end.

Definition Zsum (l : list Z) : Z := foldr Z.add 0 l.

(** [xs.length > 0 ? xs.reduce(sum) / xs.length : 0] *)
Definition average (xs : list Z) : Q :=
  if (0 <? Z.of_nat (length xs)) then (inject_Z (Zsum xs) / inject_Z (Z.of_nat (length xs)))%Q
  else 0%Q.

(** The code after the loop; [endElapsed] is [performance.now() - startTime]. *)
Definition batchResult (p : BatchParams) (existingResults : option BatchResult)
    (endElapsed : Z) (st : BatchState) : BatchResult :=
  let totalTimeMs := previousTimeMs existingResults + endElapsed in
  let parameterEfficiency :=
    if b_totalAttempts st >? 0
    then (inject_Z (b_successfulRuns st) / inject_Z (b_totalAttempts st) * 100)%Q
    else 0%Q in
  mkBatchResult
    (b_completedRuns st) (b_allAttempts st) (b_failedRuns st)
    (numRuns p) (b_successfulRuns st) (b_totalAttempts st)
    parameterEfficiency totalTimeMs totalTimeMs
    (b_successfulRuns st =? numRuns p)
    (truthy (totalTimeLimit p) && (totalTimeMs >=? default 0 (totalTimeLimit p)))
    (b_shouldStop st)
    (b_successfulRuns st >? 0)
    (match totalTimeLimit p with
     | Some 2000 => initial
     | Some 10000 => extended
     | _ => unlimited
     end)
    (Z.of_nat (length (b_failedRuns st)))
    (average (iterations <$> b_allAttempts st))
    (average ((λ run, Z.of_nat (length run)) <$> b_completedRuns st))
    (average (timeMs <$> b_allAttempts st)).

(** [runMultipleSimulations({numRuns, initialProb, decayFactor, maxValue,
    totalTimeLimit, existingResults})]: the returned object together with the
    lines the time checks wrote to the console. *)
Definition runMultipleSimulations (p : BatchParams) (existingResults : option BatchResult)
    (turns : list Turn) (endElapsed : Z) : option (BatchResult * list ConsoleLine) :=
  (λ st, (batchResult p existingResults endElapsed st, b_console st)) <$>
    batchLoop p turns (initialState existingResults).

End SimulationEngine.

(* ===================================================================== *)
(** * VisualizationEngine.js *)
(* ===================================================================== *)

Module VisualizationEngine.

(** ** Loops that an exception can leave *)

(** A loop body run over [items] in order; the first exception ends it. *)
Fixpoint foldM {A St : Type} (body : A → St → option St) (items : list A) (s : St) : option St :=
  match items with
  | [] => Some s
  | a :: items' => body a s ≫= foldM body items'
  end.

(** [for (let i = 0; i < n; i++) body] *)
Definition forRange {St : Type} (n : nat) (body : nat → St → option St) : St → option St :=
  foldM body (seq 0 n).

(** [arr.forEach((value, index) => body)], from position [index] on. *)
Fixpoint forEachFrom {A St : Type} (index : nat) (arr : list A)
    (body : A → nat → St → option St) (s : St) : option St :=
  match arr with
  | [] => Some s
  | value :: arr' => body value index s ≫= forEachFrom (S index) arr' body
  end.

Definition forEach {A St : Type} (arr : list A) (body : A → nat → St → option St) :
    St → option St :=
  forEachFrom 0 arr body.

(** ** Grids of counts, indexed [y][x] *)

Abbreviation Grid := (list (list Z)) (only parsing).

(** [Array(h).fill(null).map(() => Array(w).fill(a))] *)
Definition newGrid {A : Type} (h w : nat) (a : A) : list (list A) :=
  replicate h (replicate w a).

(** The cell [g[y][x]], if there is one. *)
Definition cell {A : Type} (g : list (list A)) (y x : nat) : option A :=
  g !! y ≫= (.!! x).

(** [g[y][x] += d].  A missing row [g[y]] raises a TypeError.  A missing
    column would make JavaScript store NaN behind the end of the row; every
    use in the source has [x < gridWidth], the length of the row, and the
    model gives no result there either. *)
Definition addCell (g : Grid) (y x : nat) (d : Z) : option Grid :=
  row ← g !! y;
  v ← row !! x;
  Some (<[y := <[x := (v + d)%Z]> row]> g).

(** A counter value used as a row index: a negative value finds no row. *)
Definition rowIndex (value : Z) : option nat :=
  if (value <? 0)%Z then None else Some (Z.to_nat value).

(** [x = Math.floor((index * gridWidth) / maxLength)] together with the test
    [x < gridWidth].  For [maxLength = 0] the quotient is NaN or Infinity and
    the test fails.  Otherwise the operands are integers below 2^53, for
    which flooring the rounded quotient gives the integer quotient. *)
Definition timeBin (index gridWidth maxLength : nat) : option nat :=
  if (maxLength =? 0)%nat then None
  else
    let x := Z.to_nat ((Z.of_nat index * Z.of_nat gridWidth) / Z.of_nat maxLength) in
    if (x <? gridWidth)%nat then Some x else None.

(** ** [_calculateFullDensity] *)

(** The first loop over a run: [binCounts[value][x]++]. *)
Definition countBins (run : list Z) (gridWidth gridHeight maxLength : nat) : option Grid :=
  forEach run (λ value index binCounts,
    match timeBin index gridWidth maxLength with
    | Some x => y ← rowIndex value; addCell binCounts y x 1
    | None => Some binCounts
    end) (newGrid gridHeight gridWidth 0%Z).

(** The second loop: every cell the run visited gets one mark in
    [verticalDensity] and its number of visits in [horizontalDensity]. *)
Definition markBins (binCounts : Grid) (gridWidth gridHeight : nat) :
    Grid * Grid → option (Grid * Grid) :=
  forRange gridHeight (λ y,
    forRange gridWidth (λ x '(verticalDensity, horizontalDensity),
      let count := default 0%Z (cell binCounts y x) in
      if (0 <? count)%Z then
        verticalDensity' ← addCell verticalDensity y x 1;
        horizontalDensity' ← addCell horizontalDensity y x count;
        Some (verticalDensity', horizontalDensity')
      else Some (verticalDensity, horizontalDensity))).

Definition _calculateFullDensity (runs : list (list Z))
    (verticalDensity horizontalDensity : Grid) (maxLength gridWidth gridHeight : nat) :
    option (Grid * Grid) :=
  foldM (λ run densities,
      binCounts ← countBins run gridWidth gridHeight maxLength;
      markBins binCounts gridWidth gridHeight densities)
    runs (verticalDensity, horizontalDensity).

(** ** [_calculatePeakDensity] *)

(** The first loop over a run: the largest value and the number of values of
    every time bin.  [peakValues] and [peakCounts] have length [gridWidth],
    so the writes at [x < gridWidth] are in range. *)
Definition peakBins (run : list Z) (gridWidth maxLength : nat) : option (list Z * list Z) :=
  forEach run (λ value index '(peakValues, peakCounts),
    match timeBin index gridWidth maxLength with
    | Some x => Some (alter (λ peak, Z.max peak value) x peakValues,
                      alter (λ count, (count + 1)%Z) x peakCounts)
    | None => Some (peakValues, peakCounts)
    end) (replicate gridWidth (-1)%Z, replicate gridWidth 0%Z).

(** The second loop: [peakValues.forEach((peak, x) => ...)]. *)
Definition markPeaks (peakValues peakCounts : list Z) : Grid * Grid → option (Grid * Grid) :=
  forEach peakValues (λ peak x '(verticalDensity, horizontalDensity),
    if (0 <=? peak)%Z then
      verticalDensity' ← addCell verticalDensity (Z.to_nat peak) x 1;
      horizontalDensity' ←
        addCell horizontalDensity (Z.to_nat peak) x (default 0%Z (peakCounts !! x));
      Some (verticalDensity', horizontalDensity')
    else Some (verticalDensity, horizontalDensity)).

Definition _calculatePeakDensity (runs : list (list Z))
    (verticalDensity horizontalDensity : Grid) (maxLength gridWidth gridHeight : nat) :
    option (Grid * Grid) :=
  foldM (λ run densities,
      '(peakValues, peakCounts) ← peakBins run gridWidth maxLength;
      markPeaks peakValues peakCounts densities)
    runs (verticalDensity, horizontalDensity).

(** ** Numbers of the normalised grids *)

(** A JavaScript number that need not be an integer: a real, an infinity or
    NaN.  Rounding is not modelled, and the two zeros are one. *)
Inductive jsnum := Fin (r : R) | PosInf | NegInf | NaN.

Definition js_of_Z (z : Z) : jsnum := Fin (IZR z).

(** A cell read as a number; a missing cell is [undefined], that is NaN. *)
Definition js_of_cell (c : option Z) : jsnum := from_option js_of_Z NaN c.

Definition js_add (a b : jsnum) : jsnum :=
  match a, b with
  | NaN, _ | _, NaN => NaN
  | Fin x, Fin y => Fin (x + y)
  | PosInf, NegInf | NegInf, PosInf => NaN
  | PosInf, _ | _, PosInf => PosInf
  | NegInf, _ | _, NegInf => NegInf
  end.

(** [Math.sqrt] *)
Definition js_sqrt (a : jsnum) : jsnum :=
  match a with
  | Fin x => if Rlt_dec x 0 then NaN else Fin (sqrt x)
  | PosInf => PosInf
  | _ => NaN
  end.

(** [Math.log] *)
Definition js_log (a : jsnum) : jsnum :=
  match a with
  | Fin x => if Rlt_dec x 0 then NaN else if Req_dec_T x 0 then NegInf else Fin (ln x)
  | PosInf => PosInf
  | _ => NaN
  end.

(** [a / b]; a division by zero gives NaN or an infinity. *)
Definition js_div (a b : jsnum) : jsnum :=
  match a, b with
  | NaN, _ | _, NaN => NaN
  | Fin x, Fin y =>
      if Req_dec_T y 0 then
        (if Req_dec_T x 0 then NaN else if Rlt_dec x 0 then NegInf else PosInf)
      else Fin (x / y)
  | Fin _, _ => Fin 0
  | PosInf, Fin y => if Rlt_dec y 0 then NegInf else PosInf
  | NegInf, Fin y => if Rlt_dec y 0 then PosInf else NegInf
  | _, _ => NaN
  end.

(** [v || 0]: [undefined], NaN and 0 give 0. *)
Definition js_or0 (v : option jsnum) : jsnum :=
  match v with
  | None | Some NaN => Fin 0
  | Some a => a
  end.

(** [Math.max(...values)] of integers; [None] is the [-Infinity] of an empty
    list.  The spread passes every value as an argument of the call; the
    RangeError that an engine raises above its limit on the number of
    arguments (some ten thousands of cells and more) is not modelled. *)
Definition Math_max (values : list Z) : option Z :=
  match values with
  | [] => None
  | v :: values' => Some (foldr Z.max v values')
  end.

Definition js_of_max (m : option Z) : jsnum := from_option js_of_Z NegInf m.

(** ** [_applyColorScaling] and [_normalizeAlphaDensity] *)

(** The double loop shared by the branches:
    [for y, for x: scaled[y][x] = f(density[y][x])].  [scaled] is allocated
    with [gridHeight] rows of [gridWidth] cells; a missing row of [density]
    raises a TypeError, a missing cell is read as [undefined]. *)
Definition scaleCells (gridHeight gridWidth : nat) (density : Grid) (f : option Z → jsnum) :
    list (list jsnum) → option (list (list jsnum)) :=
  forRange gridHeight (λ y,
    forRange gridWidth (λ x scaled,
      row ← density !! y;
      Some (alter (λ out, <[x := f (row !! x)]> out) y scaled))).

(** The values of [new Set(values)], in the order of their first occurrence. *)
Definition setValues (values : list Z) : list Z :=
  foldl (λ seen d, if decide (d ∈ seen) then seen else seen ++ [d]) [] values.

(** [uniqueValues.forEach((val, idx) => percentileMap.set(val, idx / (n - 1)))],
    from position [idx] on. *)
Fixpoint setRanks (idx : nat) (values : list Z) (n : nat) (percentileMap : gmap Z jsnum) :
    gmap Z jsnum :=
  match values with
  | [] => percentileMap
  | val :: values' =>
      setRanks (S idx) values' n
        (<[val := js_div (js_of_Z (Z.of_nat idx)) (js_of_Z (Z.of_nat n - 1))]> percentileMap)
  end.

(** The percentile map: the sorted distinct positive values with their
    ranks, then [percentileMap.set(0, 0)].  [sort((a, b) => a - b)] gives the
    ascending arrangement. *)
Definition percentileMap (flatDensity : list Z) : gmap Z jsnum :=
  let uniqueValues := merge_sort Z.le (setValues flatDensity) in
  <[0%Z := Fin 0]> (setRanks 0 uniqueValues (length uniqueValues) ∅).

Definition _applyColorScaling (verticalDensity : Grid) (colorScaling : string)
    (gridWidth gridHeight : nat) : option (list (list jsnum)) :=
  let flatDensity := filter (λ d, (0 < d)%Z) (concat verticalDensity) in
  let scaledDensity := newGrid gridHeight gridWidth (Fin 0) in
  if (length flatDensity =? 0)%nat then Some scaledDensity
  else if String.eqb colorScaling "sqrt" then
    let maxSqrt := js_sqrt (js_of_max (Math_max flatDensity)) in
    scaleCells gridHeight gridWidth verticalDensity
      (λ c, js_div (js_sqrt (js_of_cell c)) maxSqrt) scaledDensity
  else if String.eqb colorScaling "log" then
    let maxLog := js_log (js_add (js_of_max (Math_max flatDensity)) (Fin 1)) in
    scaleCells gridHeight gridWidth verticalDensity
      (λ c, js_div (js_log (js_add (js_of_cell c) (Fin 1))) maxLog) scaledDensity
  else if String.eqb colorScaling "percentile" then
    let ranks := percentileMap flatDensity in
    scaleCells gridHeight gridWidth verticalDensity
      (λ c, js_or0 (c ≫= (ranks !!.))) scaledDensity
  else
    let maxLinear := js_of_max (Math_max flatDensity) in
    scaleCells gridHeight gridWidth verticalDensity
      (λ c, js_div (js_of_cell c) maxLinear) scaledDensity.

Definition _normalizeAlphaDensity (horizontalDensity : Grid) (gridWidth gridHeight : nat) :
    option (list (list jsnum)) :=
  let maxHorizontal := Math_max (concat horizontalDensity) in
  let normalizedAlpha := newGrid gridHeight gridWidth (Fin 0) in
  if from_option (λ m, (0 <? m)%Z) false maxHorizontal then
    scaleCells gridHeight gridWidth horizontalDensity
      (λ c, js_sqrt (js_div (js_of_cell c) (js_of_max maxHorizontal))) normalizedAlpha
  else Some normalizedAlpha.

(** ** [createHeatmap] *)

(** The returned object.  For an empty list of runs the source returns only
    [colorDensity], [alphaDensity], [gridWidth] and [gridHeight]; the other
    fields are then empty or 0 here. *)
Record Heatmap := mkHeatmap {
  colorDensity : list (list jsnum);
  alphaDensity : list (list jsnum);
  rawVerticalDensity : Grid;
  rawHorizontalDensity : Grid;
  gridWidth : nat;
  gridHeight : nat;
  maxLength : nat;
  totalRuns : nat
}.

(** The two raw grids of [createHeatmap] for a list of runs that is not
    empty.  [Array(gridHeight)] raises a RangeError for a negative length. *)
Definition rawDensities (runs : list (list Z)) (visualizationType : string) (maxValue : Z) :
    option (Grid * Grid) :=
  let maxLength := max_list (length <$> runs) in
  let gridWidth := Nat.min maxLength 1000 in
  if (maxValue + 1 <? 0)%Z then None
  else
    let gridHeight := Z.to_nat (maxValue + 1) in
    let verticalDensity := newGrid gridHeight gridWidth 0%Z in
    let horizontalDensity := newGrid gridHeight gridWidth 0%Z in
    if String.eqb visualizationType "peak" then
      _calculatePeakDensity runs verticalDensity horizontalDensity maxLength gridWidth gridHeight
    else
      _calculateFullDensity runs verticalDensity horizontalDensity maxLength gridWidth gridHeight.

Definition createHeatmap (runs : list (list Z)) (colorScaling visualizationType : string)
    (maxValue : Z) : option Heatmap :=
  if (length runs =? 0)%nat then Some (mkHeatmap [] [] [] [] 0 0 0 0)
  else
    let maxLength := max_list (length <$> runs) in
    let gridWidth := Nat.min maxLength 1000 in
    let gridHeight := Z.to_nat (maxValue + 1) in
    '(verticalDensity, horizontalDensity) ← rawDensities runs visualizationType maxValue;
    scaledDensity ← _applyColorScaling verticalDensity colorScaling gridWidth gridHeight;
    normalizedAlpha ← _normalizeAlphaDensity horizontalDensity gridWidth gridHeight;
    Some (mkHeatmap scaledDensity normalizedAlpha verticalDensity horizontalDensity
            gridWidth gridHeight maxLength (length runs)).

(** ** [getHeatmapColor] and the cells [_drawHeatmap] paints *)

(** [Math.round]: the integer next to [x], a half going up. *)
Definition Math_round (x : R) : Z := Int_part (x + / 2).

(** The colour that the template string [rgba(r, g, b, alpha)] names. *)
Record Color := mkColor { red : Z; green : Z; blue : Z; alpha : R }.

(** The five pieces of the colour ramp: [r], [g] and [b] before rounding. *)
Definition colorRamp (colorValue : R) : R * R * R :=
  if Rlt_dec colorValue 0.2 then
    let t := (colorValue * 5)%R in
    (30 + t * 20, 30 + t * 20, 60 + t * 90)%R
  else if Rlt_dec colorValue 0.4 then
    let t := ((colorValue - 0.2) * 5)%R in
    (50, 50 + t * 100, 150)%R
  else if Rlt_dec colorValue 0.6 then
    let t := ((colorValue - 0.4) * 5)%R in
    (50 + t * 205, 150 + t * 50, 150 - t * 150)%R
  else if Rlt_dec colorValue 0.8 then
    let t := ((colorValue - 0.6) * 5)%R in
    (255, 200 - t * 50, 0)%R
  else
    let t := ((colorValue - 0.8) * 5)%R in
    (255, 150 - t * 100, 50 - t * 50)%R.

(** [getHeatmapColor(colorValue, alphaValue)] on two finite numbers, with the
    arithmetic of the reals. *)
Definition getHeatmapColor (colorValue alphaValue : R) : Color :=
  if Req_dec_T colorValue 0 then
    if Req_dec_T alphaValue 0 then mkColor 255 255 255 0
    else
      let '(r, g, b) := colorRamp colorValue in
      mkColor (Math_round r) (Math_round g) (Math_round b) (Rmin (0.1 + alphaValue * 0.9) 1)
  else
    let '(r, g, b) := colorRamp colorValue in
    mkColor (Math_round r) (Math_round g) (Math_round b) (Rmin (0.1 + alphaValue * 0.9) 1).

(** [v > 0]; false for NaN. *)
Definition js_positive (v : jsnum) : bool :=
  match v with
  | Fin r => if Rlt_dec 0 r then true else false
  | PosInf => true
  | _ => false
  end.

(** The test [colorValue > 0 || alphaValue > 0] under which [_drawHeatmap]
    fills the rectangle of a cell. *)
Definition paints (colorValue alphaValue : jsnum) : bool :=
  js_positive colorValue || js_positive alphaValue.

End VisualizationEngine.

(* ===================================================================== *)
(** * UIController.js *)
(* ===================================================================== *)

Module UIController.

Local Open Scope Z_scope.

(** What [parseInt] returns: an integer, or NaN. *)
Inductive ParsedInt := int (z : Z) | int_NaN.

(** What [parseFloat] returns: a finite number, an infinity, or NaN. *)
Inductive ParsedFloat := float (q : Q) | float_Infinity | float_NegInfinity | float_NaN.

(** The object of [getSimulationParameters]. *)
Record SimulationParameters := mkSimulationParameters {
  numRuns : ParsedInt;
  maxValue : ParsedInt;
  initialProb : ParsedFloat;
  decayFactor : ParsedFloat
}.

(** [a < b] and [a > b] for a parsed integer; false for NaN. *)
Definition int_lt (a : ParsedInt) (b : Z) : bool :=
  match a with int z => z <? b | int_NaN => false end.
Definition int_gt (a : ParsedInt) (b : Z) : bool :=
  match a with int z => z >? b | int_NaN => false end.

(** [a <= b] and [a > b] for a parsed float; false for NaN. *)
Definition float_le (a : ParsedFloat) (b : Q) : bool :=
  match a with
  | float q => Qle_bool q b
  | float_NegInfinity => true
  | float_Infinity | float_NaN => false
  end.
Definition float_gt (a : ParsedFloat) (b : Q) : bool :=
  match a with
  | float q => negb (Qle_bool q b)
  | float_Infinity => true
  | float_NegInfinity | float_NaN => false
  end.

(** The object returned by [validateParameters]. *)
Record Validation := mkValidation {
  isValid : bool;
  errors : list string;
  params : SimulationParameters
}.

(** [if (test) errors.push(message)] *)
Definition pushIf (test : bool) (message : string) (errors : list string) : list string :=
  if test then errors ++ [message] else errors.

(** [validateParameters()], on the parameters read from the input fields. *)
Definition validateParameters (params : SimulationParameters) : Validation :=
  let errors := [] in
  let errors := pushIf (int_lt (numRuns params) 1 || int_gt (numRuns params) 5000)
                  "Number of runs must be between 1 and 5000" errors in
  let errors := pushIf (int_lt (maxValue params) 1 || int_gt (maxValue params) 100)
                  "Target value must be between 1 and 100" errors in
  let errors := pushIf (float_le (initialProb params) 0 || float_gt (initialProb params) 1)
                  "Initial probability must be between 0 and 1" errors in
  let errors := pushIf (float_le (decayFactor params) 0 || float_gt (decayFactor params) 2)
                  "Decay factor must be between 0 and 2" errors in
  mkValidation (length errors =? 0)%nat errors params.

(** [setTimeoutPhase(phase, results)], as far as [this.timeoutPhase] goes:
    with results the phases extended and unlimited are kept; in every other
    case [_resetButtonToCurrentPhase] sets the phase to initial. *)
Definition setTimeoutPhase (phase : SimulationEngine.Phase)
    (results : option SimulationEngine.BatchResult) : SimulationEngine.Phase :=
  match results, phase with
  | Some _, SimulationEngine.extended => SimulationEngine.extended
  | Some _, SimulationEngine.unlimited => SimulationEngine.unlimited
  | _, _ => SimulationEngine.initial
  end.

End UIController.

(* ===================================================================== *)
(** * The application class [ProbabilityVisualizer] *)
(* ===================================================================== *)

Module ProbabilityVisualizer.
Import SimulationEngine.

Local Open Scope Z_scope.

(** The two warnings of the progression. *)
Inductive Warning := hit_2_second_limit | hit_10_second_limit.

(** What [_handleTimeoutProgression] does, [currentPhase] being the phase it
    reads from the UI controller: the phase it leaves in the UI controller, whether it shows the completion state (which resets the phase
    to initial two seconds later), the warning it shows, and whether it calls
    [_provideFeedback]. *)
Record Progression := mkProgression {
  nextPhase : Phase;
  completionState : bool;
  warning : option Warning;
  feedback : bool
}.

(** The first and the last branch of [_handleTimeoutProgression]. *)
Definition finishPhase (currentPhase : Phase) : Progression :=
  match currentPhase with
  | extended | unlimited => mkProgression currentPhase true None true
  | initial => mkProgression (UIController.setTimeoutPhase initial None) false None true
  end.

Definition _handleTimeoutProgression (currentPhase : Phase) (results : BatchResult) :
    Progression :=
  if reachedDesiredCount results then finishPhase currentPhase
  else if hitTimeLimit results then
    match currentPhase with
    | initial =>
        mkProgression (UIController.setTimeoutPhase extended (Some results)) false
          (Some hit_2_second_limit) false
    | extended =>
        mkProgression (UIController.setTimeoutPhase unlimited (Some results)) false
          (Some hit_10_second_limit) false
    | unlimited => mkProgression currentPhase true None true
    end
  else finishPhase currentPhase.

(** The [switch (currentPhase)] of [runSimulation]. *)
Definition totalTimeLimitOf (currentPhase : Phase) : option Z :=
  match currentPhase with
  | initial => Some 2000
  | extended => Some 10000
  | unlimited => None
  end.

(** [runSimulation], from the validated parameters to the progression: the
    results, the lines of the console, and what the progression does.  The
    statistics and the drawing that follow read the results and write neither
    the phase nor [previousResults], which becomes the returned results.
    [currentPhase] is what [getTimeoutPhase()] returns at the start, before
    the call is suspended in the [await]; [phaseAtEnd] is what it returns
    when [_handleTimeoutProgression] reads it again after the [await].  The
    handlers that run in between can have written it: [clearExtendedUI] on a
    focus of an input field or on a preset, the timer of
    [showCompletionState], another call of [runSimulation]. *)
Definition runSimulation (currentPhase : Phase) (previousResults : option BatchResult)
    (numRuns : Z) (initialProb decayFactor : Q) (maxValue : Z)
    (turns : list Turn) (endElapsed : Z) (phaseAtEnd : Phase) :
    option (BatchResult * list ConsoleLine * Progression) :=
  let enhancedParams :=
    mkBatchParams numRuns initialProb decayFactor maxValue (totalTimeLimitOf currentPhase) in
  let existingResults :=
    match currentPhase with
    | initial => None
    | _ => previousResults
    end in
  '(results, console) ←
    runMultipleSimulations enhancedParams existingResults turns endElapsed;
  Some (results, console, _handleTimeoutProgression phaseAtEnd results).

End ProbabilityVisualizer.

(* ===================================================================== *)
(** * StatisticsCalculator.js *)
(* ===================================================================== *)

Module StatisticsCalculator.

Local Open Scope Z_scope.

(** [Math.round] of a quotient of integers: the integer next to it, a half
    going up. *)
Definition Math_round (x : Q) : Z := Qfloor (x + (1 # 2)).

(** [Math.min(...values)] of a list that is not empty. *)
Definition Math_min (values : list Z) : option Z :=
  match values with
  | [] => None
  | v :: values' => Some (foldr Z.min v values')
  end.

(** The object returned by [calculateStats], without [completionRate], the
    string that [toFixed(1)] makes of [actualCompletionRate].  The fields that
    the branch without data does not set are [None] there. *)
Record Stats := mkStats {
  avgLength : Z;
  medianLength : Z;
  maxLength : Z;
  minLength : Z;
  desiredRuns : Z;
  actualSuccesses : Z;
  totalAttempts : Z;
  reachedTarget : bool;
  hitLimit : bool;
  avgIterations : Z;
  avgSuccessfulIterations : option Z;
  totalTimeMs : option Z;
  timeoutPhase : option SimulationEngine.Phase;
  avgRunTime : option Z;
  hasData : bool
}.

(** [a || b] on numbers: [b] when [a] is 0. *)
Definition orElse (a b : Q) : Q := if Qeq_bool a 0 then b else a.

(** The path length analysis: average, median, maximum and minimum of the
    lengths of the completed runs, 0 when there is none. *)
Definition lengthAnalysis (completedRuns : list (list Z)) : Q * Z * Z * Z :=
  if (0 <? length completedRuns)%nat then
    let lengths := (λ run : list Z, Z.of_nat (length run)) <$> completedRuns in
    let avgLength :=
      (inject_Z (foldl Z.add 0%Z lengths) / inject_Z (Z.of_nat (length lengths)))%Q in
    let maxLength := default 0 (VisualizationEngine.Math_max lengths) in
    let minLength := default 0 (Math_min lengths) in
    let sortedLengths := merge_sort Z.le lengths in
    let medianLength := default 0 (sortedLengths !! (length sortedLengths / 2)%nat) in
    (avgLength, medianLength, maxLength, minLength)
  else (0%Q, 0, 0, 0).

(** [calculateStats(results, maxValue)]; [results] is [None] for [null]. *)
Definition calculateStats (results : option SimulationEngine.BatchResult) (maxValue : Z) :
    Stats :=
  match results with
  | Some r =>
      if SimulationEngine.hasAnyData r then
        let '(avgLength, medianLength, maxLength, minLength) :=
          lengthAnalysis (SimulationEngine.completedRuns r) in
        mkStats (Math_round avgLength) medianLength maxLength minLength
          (SimulationEngine.desiredSuccesses r) (SimulationEngine.actualSuccesses r)
          (SimulationEngine.totalAttempts r) (SimulationEngine.reachedDesiredCount r)
          (SimulationEngine.hitTimeLimit r)
          (Math_round (SimulationEngine.averageIterations r))
          (Some (Math_round (orElse (SimulationEngine.averageSuccessfulIterations r) avgLength)))
          (Some (SimulationEngine.totalTimeMs r))
          (Some (SimulationEngine.timeoutPhase r))
          (Some (if Qeq_bool (SimulationEngine.averageRunTime r) 0 then 0
                 else Math_round (SimulationEngine.averageRunTime r)))
          true
      else
        mkStats 0 0 0 0 (SimulationEngine.desiredSuccesses r) 0
          (SimulationEngine.totalAttempts r) false false 0 None None None None false
  | None => mkStats 0 0 0 0 0 0 0 false false 0 None None None None false
  end.

End StatisticsCalculator.

(* ===================================================================== *)
(** * The notions the properties are stated with *)
(* ===================================================================== *)

Module SimulationSpec.
Import SimulationEngine.

Local Open Scope Z_scope.

(** A step of a path: up by one, down by one, or staying at the floor 0. *)
Definition validDelta (a b : Z) : Prop :=
  b - a = 1 ∨ b - a = -1 ∨ (b - a = 0 ∧ a = 0).

(** Every consecutive pair of a path is a valid step. *)
Definition validSteps (l : list Z) : Prop :=
  ∀ (i : nat) a b, l !! i = Some a → l !! S i = Some b → validDelta a b.

(** The path followed by the current counter. *)
Definition walk (st : RunState) : list Z := st_path st ++ [st_counter st].

(** What holds of the loop variables whenever the loop condition is tested. *)
Record runInv (maxValue : Z) (st : RunState) : Prop := mkRunInv {
  inv_steps : validSteps (walk st);
  inv_head : walk st !! 0%nat = Some 0;
  inv_floor : 0 ≤ st_counter st;
  inv_below : Forall (λ v, v < maxValue) (st_path st);
  inv_target : 0 ≤ maxValue → st_counter st ≤ maxValue
}.

(** The accumulators of [st'] extend those of [st]. *)
Record extends (st st' : BatchState) : Prop := mkExtends {
  ext_attempts : b_totalAttempts st ≤ b_totalAttempts st';
  ext_successes : b_successfulRuns st ≤ b_successfulRuns st';
  ext_completed : b_completedRuns st `prefix_of` b_completedRuns st';
  ext_failed : b_failedRuns st `prefix_of` b_failedRuns st';
  ext_all : b_allAttempts st `prefix_of` b_allAttempts st'
}.

(** What the loop of [simulateRun] keeps of its counts: the pushed values
    are not negative, the counter is at most the iteration count, and the
    iteration count is at most the cap. *)
Record countInv (limit : Z) (st : RunState) : Prop := mkCountInv {
  cnt_values : Forall (λ v, 0 ≤ v) (st_path st);
  cnt_counter : 0 ≤ st_counter st ≤ st_iterations st;
  cnt_cap : st_iterations st ≤ Z.max 0 limit
}.

(** The path [0, 1, ..., n-1] that goes up at every step. *)
Definition climb (n : nat) : list Z := Z.of_nat <$> seq 0 n.

(** The loop condition [successfulRuns < numRuns && !this.shouldStop]. *)
Definition goesOn (p : BatchParams) (st : BatchState) : bool :=
  (b_successfulRuns st <? numRuns p) && negb (b_shouldStop st).

(** The counters agree with the lists. *)
Record counted (all : list RunResult) (finished : list (list Z)) (failed : list RunResult)
    (attempts successes : Z) : Prop := mkCounted {
  cnt_successes : successes = Z.of_nat (length finished);
  cnt_attempts : attempts = Z.of_nat (length all);
  cnt_split : attempts = successes + Z.of_nat (length failed)
}.

(** The counts of a returned object agree with its lists. *)
Definition countsAgree (r : BatchResult) : Prop :=
  counted (allAttempts r) (completedRuns r) (failedRuns r) (totalAttempts r) (actualSuccesses r).

(** The completed paths and the failed attempts are the two parts of the
    list of all attempts, in its order. *)
Definition parted (all : list RunResult) (finished : list (list Z))
    (failed : list RunResult) : Prop :=
  finished = path <$> filter (λ a, completed a = true) all ∧
  failed = filter (λ a, completed a = false) all.

(** A path from 0 to the target. *)
Record completePath (maxValue : Z) (run : list Z) : Prop := mkCompletePath {
  cp_head : run !! 0%nat = Some 0;
  cp_last : last run = Some maxValue;
  cp_steps : validSteps run;
  cp_range : Forall (λ v, 0 ≤ v ≤ maxValue) run;
  cp_length : maxValue < Z.of_nat (length run)
}.

(** An attempt that ended at the iteration cap. *)
Record exhausted (cap : Z) (a : RunResult) : Prop := mkExhausted {
  ex_completed : completed a = false;
  ex_reason : reason a = iteration_limit;
  ex_iterations : iterations a = cap;
  ex_length : Z.of_nat (length (path a)) = cap
}.

End SimulationSpec.

Module VisualizationSpec.
Import VisualizationEngine.

Local Open Scope Z_scope.

(** A path of 1001 values towards the target 2: up, down, 996 times staying
    at the floor, then up twice. *)
Definition longRun : list Z := [0; 1] ++ replicate 997 0 ++ [1; 2].

(** A grid of [h] rows of [w] cells. *)
Definition shaped {A} (h w : nat) (g : list (list A)) : Prop :=
  length g = h ∧ Forall (λ row, length row = w) g.

(** Both density grids have the shape of the grid. *)
Definition bothShaped (h w : nat) (densities : Grid * Grid) : Prop :=
  shaped h w densities.1 ∧ shaped h w densities.2.

(** The counter values of a run are within the rows of the grid. *)
Definition inRows (gridHeight : nat) (run : list Z) : Prop :=
  Forall (λ value, 0 ≤ value < Z.of_nat gridHeight) run.

(** Wherever both grids have a cell, the horizontal one is the larger. *)
Definition dominates (densities : Grid * Grid) : Prop :=
  ∀ y x v h, cell densities.1 y x = Some v → cell densities.2 y x = Some h → v ≤ h.

(** What the first loop of the peak mode keeps: counts are not negative, and
    a bin with a peak of at least 0 has a count of at least 1. *)
Definition peaksCounted (peaks : list Z * list Z) : Prop :=
  length peaks.1 = length peaks.2 ∧
  ∀ x p c, peaks.1 !! x = Some p → peaks.2 !! x = Some c → 0 ≤ c ∧ (0 ≤ p → 1 ≤ c).

(** The sum of the cells of column [x] over all rows. *)
Definition columnSum (g : Grid) (x : nat) : Z :=
  foldr (λ row acc, default 0 (row !! x) + acc) 0 g.

(** All cells of a grid are at least 0. *)
Definition nonneg (g : Grid) : Prop := ∀ y x c, cell g y x = Some c → 0 ≤ c.

(** The positive values of a grid, as [_applyColorScaling] collects them. *)
Definition flatDensity (g : Grid) : list Z := filter (λ d, 0 < d) (concat g).

(** The sorted distinct positive values. *)
Definition uniqueValues (flat : list Z) : list Z := merge_sort Z.le (setValues flat).

(** The rank that position [idx] of [n] values gets: [idx / (n - 1)]. *)
Definition rank (idx n : nat) : jsnum :=
  js_div (js_of_Z (Z.of_nat idx)) (js_of_Z (Z.of_nat n - 1)).

(** The order of two numbers that are not NaN. *)
Definition js_lt (a b : jsnum) : Prop :=
  match a, b with
  | Fin x, Fin y => (x < y)%R
  | NegInf, Fin _ | NegInf, PosInf | Fin _, PosInf => True
  | _, _ => False
  end.

(** What percentile scaling makes of the raw value [a] of a grid. *)
Definition percentileOf (g : Grid) (a : Z) : jsnum :=
  if (length (flatDensity g) =? 0)%nat then Fin 0
  else js_or0 (percentileMap (flatDensity g) !! a).

(** The grid holds a positive value below [b]. *)
Definition positiveBelow (g : Grid) (b : Z) : Prop :=
  ∃ y x c, cell g y x = Some c ∧ 0 < c < b.

(** The sum of a row and the sum of all cells of a grid. *)
Definition listSum (l : list Z) : Z := foldr Z.add 0 l.
Definition gridSum (g : Grid) : Z := foldr (λ row acc, listSum row + acc) 0 g.

(** The number of path values of a list of runs. *)
Definition totalValues (runs : list (list Z)) : Z :=
  foldr (λ run acc, Z.of_nat (length run) + acc) 0 runs.

(** A relation that holds between the vertical and the horizontal cell
    wherever both grids have one. *)
Definition cellwise (R : Z → Z → Prop) (densities : Grid * Grid) : Prop :=
  ∀ y x v h, cell densities.1 y x = Some v → cell densities.2 y x = Some h → R v h.

(** Neither count is negative, and one is 0 exactly when the other is. *)
Definition sameSupport (v h : Z) : Prop := 0 ≤ v ∧ 0 ≤ h ∧ (v = 0 ↔ h = 0).

(** A number between 0 and 1. *)
Definition inUnit (c : jsnum) : Prop :=
  match c with
  | Fin r => (0 <= r <= 1)%R
  | _ => False
  end.

(** No cell of the grid is above [b]. *)
Definition largest (g : Grid) (b : Z) : Prop :=
  ∀ y x c, cell g y x = Some c → c ≤ b.

(** The scaled value that the sqrt, log and linear scalings divide by the
    scaled maximum. *)
Definition scaleOf (colorScaling : string) (a : Z) : R :=
  if String.eqb colorScaling "sqrt" then sqrt (IZR a)
  else if String.eqb colorScaling "log" then ln (IZR a + 1)
  else IZR a.

End VisualizationSpec.

Module UISpec.
Import UIController.
Local Open Scope Z_scope.

(** A parsed integer that is NaN or lies between [lo] and [hi]. *)
Definition intAccepted (lo hi : Z) (a : ParsedInt) : Prop :=
  match a with int z => lo ≤ z ≤ hi | int_NaN => True end.

(** A parsed float that is NaN or lies above 0 and not above [hi]. *)
Definition floatAccepted (hi : Q) (a : ParsedFloat) : Prop :=
  match a with
  | float q => (0 < q)%Q ∧ (q <= hi)%Q
  | float_NaN => True
  | float_Infinity | float_NegInfinity => False
  end.

End UISpec.

(* ===================================================================== *)
(** * Properties of the run simulator *)
(* ===================================================================== *)

Module SimulationProps.
Import SimulationEngine SimulationSpec.

Local Open Scope Z_scope.

(** ** The simulator on concrete draws *)

(** Probability 1/2 at every level: up, down, up, up reaches the target 2. *)
Example simulateRun_reaches_target :
  simulateRun (1 # 2) 1 2 5 [1 # 4; 3 # 4; 1 # 4; 1 # 4]%Q 0 7 =
  Some (mkRunResult [0; 1; 0; 1; 2] true 4 7 false success).
Proof. reflexivity. Qed.

(** Decay 1/2 from 9/10: the draw 1/2 goes up only at level 0, the draw 0
    goes up everywhere. *)
Example simulateRun_with_decay :
  simulateRun (9 # 10) (1 # 2) 3 10 [1 # 2; 1 # 2; 1 # 2; 1 # 2; 0; 0; 0]%Q 0 7 =
  Some (mkRunResult [0; 1; 0; 1; 0; 1; 2; 3] true 7 7 false success).
Proof. reflexivity. Qed.

(** Probability 1/1000, target 50, cap 100, draws of 1/2: the run stays at
    the floor and ends at the cap. *)
Example simulateRun_hits_cap :
  simulateRun (1 # 1000) 1 50 100 (replicate 100 (1 # 2)%Q) 0 7 =
  Some (mkRunResult (replicate 100 0) false 100 7 true iteration_limit).
Proof. vm_compute. reflexivity. Qed.

(** With fewer draws than the loop asks for the model gives no result. *)
Example simulateRun_out_of_draws :
  simulateRun (1 # 2) 1 2 5 [1 # 4; 3 # 4]%Q 0 7 = None.
Proof. reflexivity. Qed.

Lemma validSteps_snoc l a b :
  validSteps (l ++ [a]) → validDelta a b → validSteps ((l ++ [a]) ++ [b]).
Proof.
  intros Hl Hab i x y Hx Hy.
  destruct (decide (S i < length (l ++ [a]))%nat) as [Hlt|Hge].
  - rewrite lookup_app_l in Hx by lia. rewrite lookup_app_l in Hy by lia. eauto.
  - assert (Hi : i = length l).
    { apply lookup_lt_Some in Hy. rewrite !length_app in *. simpl in *. lia. }
    subst i.
    rewrite lookup_app_l in Hx by (rewrite length_app; simpl; lia).
    rewrite lookup_app_r in Hx by lia.
    rewrite lookup_app_r in Hy by (rewrite length_app; simpl; lia).
    rewrite length_app in Hy. simpl in Hy.
    replace (length l - length l)%nat with 0%nat in Hx by lia.
    replace (S (length l) - (length l + 1))%nat with 0%nat in Hy by lia.
    simpl in *. congruence.
Qed.

Lemma validSteps_prefix l k : validSteps (l ++ k) → validSteps l.
Proof.
  intros H i a b Ha Hb. apply (H i).
  - rewrite lookup_app_l; [done|]. by eapply lookup_lt_Some.
  - rewrite lookup_app_l; [done|]. by eapply lookup_lt_Some.
Qed.

Section run.
Variables (initialProb decayFactor : Q) (maxValue limit : Z).

Lemma runLoop_invariant (P : RunState → Prop) :
  (∀ st r, P st → keepRunning maxValue limit st = true →
           P (loopBody initialProb decayFactor r st)) →
  ∀ draws st st',
    P st → runLoop initialProb decayFactor maxValue limit draws st = Some st' →
    P st' ∧ keepRunning maxValue limit st' = false.
Proof.
  intros Hstep draws. induction draws as [|r draws IH]; intros st st' HP Hrun; simpl in Hrun.
  - destruct (keepRunning maxValue limit st) eqn:Hk; [done|]. by simplify_eq.
  - destruct (keepRunning maxValue limit st) eqn:Hk.
    + eapply IH; [|done]. by apply Hstep.
    + by simplify_eq.
Qed.

Lemma counter_step r st :
  0 ≤ st_counter st →
  validDelta (st_counter st) (st_counter (loopBody initialProb decayFactor r st)) ∧
  0 ≤ st_counter (loopBody initialProb decayFactor r st) ≤ st_counter st + 1.
Proof.
  intros H0. unfold loopBody, validDelta. simpl.
  destruct (Qltb _ _); lia.
Qed.

Lemma runInv_init : runInv maxValue (mkRunState [] 0 0).
Proof.
  split; simpl; try done.
Qed.

Lemma runInv_step st r :
  runInv maxValue st → keepRunning maxValue limit st = true →
  runInv maxValue (loopBody initialProb decayFactor r st).
Proof.
  intros [Hs Hh Hf Hb Ht] Hk.
  apply andb_true_iff in Hk as [Hc _]. apply Z.ltb_lt in Hc.
  destruct (counter_step r st Hf) as [Hd [Hlo Hhi]].
  split.
  - unfold walk in *. simpl st_path. by apply validSteps_snoc.
  - unfold walk in *. simpl st_path.
    rewrite lookup_app_l; [done|]. rewrite length_app. simpl. lia.
  - done.
  - simpl. apply Forall_app. split; [done|]. by apply Forall_singleton.
  - lia.
Qed.

Lemma runLoop_runInv draws st' :
  runLoop initialProb decayFactor maxValue limit draws (mkRunState [] 0 0) = Some st' →
  runInv maxValue st' ∧ keepRunning maxValue limit st' = false.
Proof.
  apply (runLoop_invariant (runInv maxValue)); [|apply runInv_init].
  intros; by apply runInv_step.
Qed.

(** The path only grows. *)
Lemma runLoop_path_grows draws st st' :
  runLoop initialProb decayFactor maxValue limit draws st = Some st' →
  st_path st `prefix_of` st_path st'.
Proof.
  intros H.
  apply (runLoop_invariant (λ s, st_path st `prefix_of` st_path s)) in H as [H _]; [done| |done].
  intros s r Hp _. simpl. by apply prefix_app_r.
Qed.

(** The iteration count starts at 0 and is the number of pushed values. *)
Lemma runLoop_iterations draws st' :
  runLoop initialProb decayFactor maxValue limit draws (mkRunState [] 0 0) = Some st' →
  st_iterations st' = Z.of_nat (length (st_path st')).
Proof.
  intros H.
  apply (runLoop_invariant (λ s, st_iterations s = Z.of_nat (length (st_path s)))) in H
    as [H _]; [done| |done].
  intros s r Hp _. simpl. rewrite length_app. simpl. lia.
Qed.

(** With a positive target and a positive cap the loop body runs, so the
    path is not empty and holds 0 first. *)
Lemma runLoop_first draws st' :
  0 < maxValue → 0 < limit →
  runLoop initialProb decayFactor maxValue limit draws (mkRunState [] 0 0) = Some st' →
  st_path st' !! 0%nat = Some 0.
Proof.
  intros Hm Hl Hrun. destruct draws as [|r draws]; simpl in Hrun.
  - unfold keepRunning in Hrun. simpl in Hrun.
    destruct (0 <? maxValue) eqn:E1; [|lia]. destruct (0 <? limit) eqn:E2; [|lia]. done.
  - unfold keepRunning in Hrun at 1. simpl in Hrun.
    destruct (0 <? maxValue) eqn:E1; [|lia]. destruct (0 <? limit) eqn:E2; [|lia].
    simpl in Hrun. apply runLoop_path_grows in Hrun as [k Hk]. simpl in Hk.
    by rewrite Hk.
Qed.

(** The loop ends whenever at least [limit] draws are supplied. *)
Lemma runLoop_returns draws st :
  (Z.to_nat (limit - st_iterations st) ≤ length draws)%nat →
  is_Some (runLoop initialProb decayFactor maxValue limit draws st).
Proof.
  revert st. induction draws as [|r draws IH]; intros st Hlen; simpl.
  - destruct (keepRunning maxValue limit st) eqn:Hk; [|by eexists].
    apply andb_true_iff in Hk as [_ Hk]. apply Z.ltb_lt in Hk. simpl in Hlen. lia.
  - destruct (keepRunning maxValue limit st) eqn:Hk; [|by eexists].
    apply andb_true_iff in Hk as [_ Hk]. apply Z.ltb_lt in Hk.
    apply IH. simpl in *. lia.
Qed.

End run.

(** [simulateRun] returns once it is given as many draws as the cap allows
    iterations. *)
Lemma simulateRun_returns initialProb decayFactor maxValue limit draws t0 t1 :
  (Z.to_nat limit ≤ length draws)%nat →
  is_Some (simulateRun initialProb decayFactor maxValue limit draws t0 t1).
Proof.
  intros H. unfold simulateRun. apply fmap_is_Some, runLoop_returns.
  simpl. by rewrite Z.sub_0_r.
Qed.

(** ** Results of [simulateRun] *)

(** The steps of a returned path are valid, whatever the parameters. *)
Lemma simulateRun_validSteps initialProb decayFactor maxValue limit draws t0 t1 r :
  simulateRun initialProb decayFactor maxValue limit draws t0 t1 = Some r →
  validSteps (path r).
Proof.
  unfold simulateRun. intros H. apply fmap_Some in H as (st & Hrun & ->).
  apply runLoop_runInv in Hrun as [[Hs _ _ _ _] _].
  unfold finishRun. simpl. destruct (st_counter st =? maxValue) eqn:E.
  - apply Z.eqb_eq in E. by rewrite <- E.
  - by apply validSteps_prefix in Hs.
Qed.

(** C1. For a positive target value and a positive iteration cap, every path
    returned by [simulateRun] starts with 0, and every consecutive pair of its
    elements differs by +1, -1 or 0, the difference 0 occurring only when the
    earlier element is 0. *)
Theorem C1_path_validity initialProb decayFactor maxValue limit draws t0 t1 r :
  0 < maxValue → 0 < limit →
  simulateRun initialProb decayFactor maxValue limit draws t0 t1 = Some r →
  path r !! 0%nat = Some 0 ∧
  ∀ (i : nat) a b, path r !! i = Some a → path r !! S i = Some b →
    b - a = 1 ∨ b - a = -1 ∨ (b - a = 0 ∧ a = 0).
Proof.
  intros Hm Hl H. split; [|by eapply simulateRun_validSteps].
  unfold simulateRun in H. apply fmap_Some in H as (st & Hrun & ->).
  pose proof (runLoop_first _ _ _ _ _ _ Hm Hl Hrun) as Hfirst.
  unfold finishRun. simpl. destruct (st_counter st =? maxValue); [|done].
  rewrite lookup_app_l; [done|]. by eapply lookup_lt_Some.
Qed.

Lemma C1_path_validity_witness :
  [0; 1; 0; 1; 2] !! 0%nat = Some 0 ∧
  ∀ (i : nat) a b, [0; 1; 0; 1; 2] !! i = Some a → [0; 1; 0; 1; 2] !! S i = Some b →
    b - a = 1 ∨ b - a = -1 ∨ (b - a = 0 ∧ a = 0).
Proof.
  apply (C1_path_validity (1 # 2) 1 2 5 [1 # 4; 3 # 4; 1 # 4; 1 # 4]%Q 0 7
           (mkRunResult [0; 1; 0; 1; 2] true 4 7 false success));
    [lia | lia | reflexivity].
Defined.

(** C2. In every result of [simulateRun], [completed] is true exactly when
    the last element of the path is the target value, and a result is never
    both [completed] and of reason [iteration_limit].  This holds for every
    target value and cap, in particular for positive ones. *)
Theorem C2_completion_determinism initialProb decayFactor maxValue limit draws t0 t1 r :
  simulateRun initialProb decayFactor maxValue limit draws t0 t1 = Some r →
  (completed r = true ↔ last (path r) = Some maxValue) ∧
  ¬ (completed r = true ∧ reason r = iteration_limit).
Proof.
  unfold simulateRun. intros H. apply fmap_Some in H as (st & Hrun & ->).
  apply runLoop_runInv in Hrun as [[_ _ _ Hb _] _].
  unfold finishRun. simpl. destruct (st_counter st =? maxValue) eqn:E.
  - split; [|by intros [_ ?]]. split; [|done]. intros _. by rewrite last_snoc.
  - split; [|by intros [? _]]. split; [done|]. intros Hlast.
    apply last_Some in Hlast as [l' Hl']. rewrite Hl' in Hb.
    rewrite Forall_app, Forall_singleton in Hb. lia.
Qed.

Lemma C2_completion_determinism_witness :
  (true = true ↔ last [0; 1; 0; 1; 2] = Some 2) ∧
  ¬ (true = true ∧ success = iteration_limit).
Proof.
  apply (C2_completion_determinism (1 # 2) 1 2 5 [1 # 4; 3 # 4; 1 # 4; 1 # 4]%Q 0 7
           (mkRunResult [0; 1; 0; 1; 2] true 4 7 false success)).
  reflexivity.
Defined.

(** Outside the validated parameters the loop body never runs: with a cap
    that is not positive the returned path is empty, and with a negative
    target the reason is [unknown]. *)
Lemma simulateRun_no_pass initialProb decayFactor maxValue limit draws t0 t1 :
  maxValue ≤ 0 ∨ limit ≤ 0 →
  simulateRun initialProb decayFactor maxValue limit draws t0 t1 =
  Some (finishRun maxValue limit t0 t1 (mkRunState [] 0 0)).
Proof.
  intros H. unfold simulateRun.
  assert (Hk : keepRunning maxValue limit (mkRunState [] 0 0) = false).
  { unfold keepRunning. simpl. apply andb_false_iff.
    destruct H; [left|right]; apply Z.ltb_ge; lia. }
  destruct draws; simpl; by rewrite Hk.
Qed.

Remark simulateRun_cap_zero initialProb decayFactor maxValue draws t0 t1 :
  0 < maxValue →
  path <$> simulateRun initialProb decayFactor maxValue 0 draws t0 t1 = Some [].
Proof.
  intros Hm. rewrite simulateRun_no_pass by lia.
  destruct maxValue; try lia. done.
Qed.

Remark simulateRun_negative_target initialProb decayFactor maxValue limit draws t0 t1 :
  maxValue < 0 → 0 < limit →
  reason <$> simulateRun initialProb decayFactor maxValue limit draws t0 t1 = Some unknown.
Proof.
  intros Hm Hl. rewrite simulateRun_no_pass by lia.
  destruct maxValue; try lia. destruct limit; try lia. done.
Qed.

(** C7, amended.  For a target value that is not negative, every result of
    [simulateRun] has reason [success] or [iteration_limit], never [unknown]:
    the loop is left with the counter at the target value or with the
    iteration count at the cap.  Over all integer targets and caps, the
    reason is [unknown] exactly when the target is negative and the cap is
    positive: the loop is then left at once, with the counter 0 above the
    target and the iteration count 0 below the cap. *)
Theorem C7_reason_never_unknown initialProb decayFactor maxValue limit draws t0 t1 r :
  simulateRun initialProb decayFactor maxValue limit draws t0 t1 = Some r →
  (0 ≤ maxValue →
   (reason r = success ∨ reason r = iteration_limit) ∧
   (completed r = true ∨ hitIterationLimit r = true)) ∧
  (reason r = unknown ↔ maxValue < 0 ∧ 0 < limit).
Proof.
  intros H.
  assert (Hpos : 0 ≤ maxValue →
            (reason r = success ∨ reason r = iteration_limit) ∧
            (completed r = true ∨ hitIterationLimit r = true)).
  { intros Hm. unfold simulateRun in H. apply fmap_Some in H as (st & Hrun & ->).
    apply runLoop_runInv in Hrun as [[_ _ _ _ Ht] Hk]. specialize (Ht Hm).
    unfold finishRun. simpl. unfold keepRunning in Hk.
    destruct (st_counter st =? maxValue) eqn:E; [by split; left|].
    apply Z.eqb_neq in E.
    apply andb_false_iff in Hk as [Hk|Hk]; apply Z.ltb_ge in Hk; [lia|].
    assert (Hge : (st_iterations st >=? limit) = true) by (apply Z.geb_le; lia).
    rewrite Hge. by split; right. }
  split; [done|]. split.
  - intros Hu.
    assert (Hm : maxValue < 0).
    { destruct (decide (maxValue < 0)) as [|Hge]; [done|].
      destruct (Hpos ltac:(lia)) as [[Hr|Hr] _]; congruence. }
    split; [done|].
    destruct (decide (0 < limit)) as [|Hl]; [done|].
    rewrite simulateRun_no_pass in H by lia. simplify_eq.
    unfold finishRun in Hu. simpl in Hu.
    destruct maxValue; try lia. by destruct limit.
  - intros [Hm Hl].
    pose proof (simulateRun_negative_target initialProb decayFactor maxValue limit
                  draws t0 t1 Hm Hl) as Hu.
    rewrite H in Hu. simpl in Hu. by injection Hu.
Qed.

Lemma C7_reason_never_unknown_witness :
  (0 ≤ 2 →
   (iteration_limit = success ∨ iteration_limit = iteration_limit) ∧
   (false = true ∨ true = true)) ∧
  (iteration_limit = unknown ↔ 2 < 0 ∧ 0 < 3).
Proof.
  apply (C7_reason_never_unknown (1 # 2) 1 2 3 [1 # 4; 3 # 4; 1 # 4]%Q 0 7
           (mkRunResult [0; 1; 0] false 3 7 true iteration_limit)).
  reflexivity.
Defined.

(** C7 fails for a negative target.  With the target -1 the loop condition
    [0 < -1] is false at once; the counter 0 is not the target and the
    iteration count 0 is below the cap, so the third branch is taken and the
    reason is [unknown]. *)
Lemma C7_reason_unknown_counterexample :
  ∃ r, simulateRun (1 # 2) 1 (-1) defaultIterationSafetyLimit [] 0 1 = Some r ∧
       reason r = unknown ∧ completed r = false ∧ hitIterationLimit r = false.
Proof. eexists. split; [reflexivity|]. done. Qed.

(** Unfolding the loop by one pass. *)
Lemma runLoop_cons initialProb decayFactor maxValue limit r draws st :
  keepRunning maxValue limit st = true →
  runLoop initialProb decayFactor maxValue limit (r :: draws) st =
  runLoop initialProb decayFactor maxValue limit draws (loopBody initialProb decayFactor r st).
Proof. intros H. simpl. by rewrite H. Qed.

Lemma runLoop_done initialProb decayFactor maxValue limit draws st :
  keepRunning maxValue limit st = false →
  runLoop initialProb decayFactor maxValue limit draws st = Some st.
Proof. intros H. destruct draws; simpl; by rewrite H. Qed.

(** A draw below 1 moves the counter up when the capped probability is 1. *)
Lemma draw_below_one_goes_up (r : Q) (c : Z) :
  (r < 1)%Q → cappedPUp (pUp 1 1 c) = 1%Q → Qltb r (cappedPUp (pUp 1 1 c)) = true.
Proof.
  intros Hr ->. unfold Qltb. apply Z.ltb_lt. exact Hr.
Qed.

(** C9. With [initialProb = 1], [decayFactor = 1] and [maxValue = 3], for
    every sequence of draws from [0,1) and every cap of at least 3 iterations
    (the default cap is 10000000), [simulateRun] completes in exactly 3
    iterations with the path [0,1,2,3]. *)
Theorem C9_certain_success limit draws t0 t1 :
  3 ≤ limit →
  Forall (λ r, (0 <= r)%Q ∧ (r < 1)%Q) draws →
  (3 ≤ length draws)%nat →
  ∃ r, simulateRun 1 1 3 limit draws t0 t1 = Some r ∧
       path r = [0; 1; 2; 3] ∧ completed r = true ∧ iterations r = 3 ∧
       reason r = success.
Proof.
  intros Hl Hd Hlen.
  destruct draws as [|r1 [|r2 [|r3 rest]]]; simpl in Hlen; try lia.
  apply Forall_cons in Hd as [[_ H1] Hd].
  apply Forall_cons in Hd as [[_ H2] Hd].
  apply Forall_cons in Hd as [[_ H3] _].
  assert (K0 : (0 <? limit) = true) by (apply Z.ltb_lt; lia).
  assert (K1 : (1 <? limit) = true) by (apply Z.ltb_lt; lia).
  assert (K2 : (2 <? limit) = true) by (apply Z.ltb_lt; lia).
  assert (S1 : loopBody 1 1 r1 (mkRunState [] 0 0) = mkRunState [0] 1 1).
  { unfold loopBody. simpl st_counter.
    by rewrite (draw_below_one_goes_up r1 0 H1 eq_refl). }
  assert (S2 : loopBody 1 1 r2 (mkRunState [0] 1 1) = mkRunState [0; 1] 2 2).
  { unfold loopBody. simpl st_counter.
    by rewrite (draw_below_one_goes_up r2 1 H2 eq_refl). }
  assert (S3 : loopBody 1 1 r3 (mkRunState [0; 1] 2 2) = mkRunState [0; 1; 2] 3 3).
  { unfold loopBody. simpl st_counter.
    by rewrite (draw_below_one_goes_up r3 2 H3 eq_refl). }
  exists (finishRun 3 limit t0 t1 (mkRunState [0; 1; 2] 3 3)). split; [|done].
  unfold simulateRun.
  rewrite (runLoop_cons 1 1 3 limit r1), S1 by (unfold keepRunning; simpl; by rewrite K0).
  rewrite (runLoop_cons 1 1 3 limit r2), S2 by (unfold keepRunning; simpl; by rewrite K1).
  rewrite (runLoop_cons 1 1 3 limit r3), S3 by (unfold keepRunning; simpl; by rewrite K2).
  by rewrite runLoop_done.
Qed.

Lemma C9_certain_success_witness :
  ∃ r, simulateRun 1 1 3 defaultIterationSafetyLimit [0; 1 # 2; 9 # 10; 1 # 3]%Q 0 5 = Some r ∧
       path r = [0; 1; 2; 3] ∧ completed r = true ∧ iterations r = 3 ∧
       reason r = success.
Proof.
  apply (C9_certain_success defaultIterationSafetyLimit [0; 1 # 2; 9 # 10; 1 # 3]%Q 0 5).
  - unfold defaultIterationSafetyLimit. lia.
  - repeat constructor; done.
  - simpl. lia.
Defined.

End SimulationProps.

(* ===================================================================== *)
(** * Properties of the batch scheduler *)
(* ===================================================================== *)

Module BatchProps.
Import SimulationEngine SimulationSpec.

Local Open Scope Z_scope.

(** ** The scheduler on concrete turns *)

(** The initial phase (2000 ms): one success, then the time limit. *)
Example batch_hits_time_limit :
  ∃ res,
    runMultipleSimulations (mkBatchParams 2 (1 # 2) 1 1 (Some 2000)) None
      [mkTurn 0 [3 # 4; 1 # 4]%Q 1 5 false; mkTurn 2500 [] 0 0 false] 2501 =
      Some (res, [log_hit_time_limit]) ∧
    completedRuns res = [[0; 0; 1]] ∧ totalAttempts res = 1 ∧ actualSuccesses res = 1 ∧
    reachedDesiredCount res = false ∧ hitTimeLimit res = true ∧ timeoutPhase res = initial.
Proof. eexists. split; [vm_compute; reflexivity|]. repeat split. Qed.

(** The unlimited mode: a pass starting after 150 s writes the warning and
    goes on. *)
Example batch_warns_after_120_seconds :
  ∃ res,
    runMultipleSimulations (mkBatchParams 2 (1 # 2) 1 1 None) None
      [mkTurn 0 [3 # 4; 1 # 4]%Q 1 5 false; mkTurn 150000 [1 # 4]%Q 150000 150001 false]
      150002 = Some (res, [warn_long_running]) ∧
    completedRuns res = [[0; 0; 1]; [0; 1]] ∧ reachedDesiredCount res = true.
Proof. eexists. split; [vm_compute; reflexivity|]. repeat split. Qed.

(** A stop request during the first pass ends the loop before the second. *)
Example batch_stopped :
  ∃ res,
    runMultipleSimulations (mkBatchParams 2 (1 # 2) 1 1 (Some 10000)) None
      [mkTurn 0 [3 # 4; 1 # 4]%Q 1 5 true] 6 = Some (res, []) ∧
    wasStopped res = true ∧ totalAttempts res = 1.
Proof. eexists. split; [vm_compute; reflexivity|]. repeat split. Qed.

Lemma extends_refl st : extends st st.
Proof. split; done. Qed.

Lemma extends_trans st1 st2 st3 : extends st1 st2 → extends st2 st3 → extends st1 st3.
Proof.
  intros [] []. split; try lia; by etrans.
Qed.

Lemma recordAttempt_extends result st : extends st (recordAttempt result st).
Proof.
  unfold recordAttempt. destruct (completed result); split; simpl;
    try lia; try done; by apply prefix_app_r.
Qed.

(** Every pass of the loop extends the accumulators. *)
Lemma batchLoop_extends p turns : ∀ st st',
  batchLoop p turns st = Some st' → extends st st'.
Proof.
  induction turns as [|t turns IH]; intros st st' H; simpl in H.
  - destruct (_ && _); [done|]. simplify_eq. apply extends_refl.
  - destruct (_ && _); [|simplify_eq; apply extends_refl].
    destruct (timeChecks _ _) as [lines leave]. destruct leave.
    + simplify_eq. split; done.
    + destruct (simulateRun _ _ _ _ _ _ _) as [result|]; [|done].
      apply IH in H. eapply extends_trans; [|exact H].
      eapply extends_trans; [|split; simpl; try reflexivity; done].
      eapply extends_trans; [|apply recordAttempt_extends].
      split; simpl; try done; lia.
Qed.

(** C6. When [runMultipleSimulations] continues from [existingResults], the
    returned [totalAttempts] and [actualSuccesses] are not below those of
    [existingResults], and the former [completedRuns], [failedRuns] and
    [allAttempts] are prefixes of the returned lists. *)
Theorem C6_continuation_conservation p existing turns endElapsed res console :
  runMultipleSimulations p (Some existing) turns endElapsed = Some (res, console) →
  totalAttempts existing ≤ totalAttempts res ∧
  actualSuccesses existing ≤ actualSuccesses res ∧
  completedRuns existing `prefix_of` completedRuns res ∧
  failedRuns existing `prefix_of` failedRuns res ∧
  allAttempts existing `prefix_of` allAttempts res.
Proof.
  unfold runMultipleSimulations. intros H.
  apply fmap_Some in H as (st & Hloop & Heq). simplify_eq.
  apply batchLoop_extends in Hloop as []. by simpl in *.
Qed.

Lemma C6_continuation_conservation_witness :
  let first := mkRunResult [0; 1] true 1 3 false success in
  let existing :=
    mkBatchResult [[0; 1]] [first] [] 2 1 1 100 2501 2501 false true false true
      initial 0 1 2 3 in
  let p := mkBatchParams 2 (1 # 2) 1 1 (Some 10000) in
  let turns := [mkTurn 0 [3 # 4; 1 # 4]%Q 1 5 false] in
  ∃ res console,
    runMultipleSimulations p (Some existing) turns 6 = Some (res, console) ∧
    totalAttempts existing ≤ totalAttempts res ∧
    actualSuccesses existing ≤ actualSuccesses res ∧
    completedRuns existing `prefix_of` completedRuns res ∧
    failedRuns existing `prefix_of` failedRuns res ∧
    allAttempts existing `prefix_of` allAttempts res.
Proof.
  intros first existing p turns. eexists _, _. split; [reflexivity|].
  eapply (C6_continuation_conservation p existing turns 6). reflexivity.
Defined.

(** ** The time checks of the unlimited mode *)

(** Without a total time limit the check writes the warning exactly when more
    than 120000 ms have elapsed, and leaves the loop exactly when more than
    300000 ms have elapsed. *)
Lemma timeChecks_unlimited elapsed :
  timeChecks None elapsed =
    (if elapsed >? 300000 then [warn_long_running; error_safety_stop]
     else if elapsed >? 120000 then [warn_long_running] else [],
     elapsed >? 300000).
Proof.
  unfold timeChecks. simpl.
  destruct (elapsed >? 60000) eqn:E1, (elapsed >? 120000) eqn:E2,
    (elapsed >? 300000) eqn:E3; try reflexivity; lia.
Qed.

(** When the unlimited mode is left by the hard threshold, the call returns,
    and it returns the attempts accumulated up to then. *)
Lemma hard_abort_returns_partial p existing t turns endElapsed :
  totalTimeLimit p = None →
  actualSuccesses existing < numRuns p →
  300000 < t_elapsed t →
  ∃ res,
    runMultipleSimulations p (Some existing) (t :: turns) endElapsed =
      Some (res, [warn_long_running; error_safety_stop]) ∧
    completedRuns res = completedRuns existing ∧
    failedRuns res = failedRuns existing ∧
    allAttempts res = allAttempts existing ∧
    totalAttempts res = totalAttempts existing ∧
    actualSuccesses res = actualSuccesses existing.
Proof.
  intros Hl Hs He. unfold runMultipleSimulations. simpl.
  assert (E : (actualSuccesses existing <? numRuns p) = true) by (apply Z.ltb_lt; lia).
  rewrite E, Hl, timeChecks_unlimited. simpl.
  assert (E3 : (t_elapsed t >? 300000) = true) by lia. rewrite E3. simpl.
  eexists. split; [reflexivity|]. done.
Qed.

(** C10, evaluated where the code departs from it.  In the unlimited mode, a
    pass that starts 90000 ms after the start (more than 60 s) writes no
    warning: the console stays empty and the attempt runs as usual. *)
Theorem C10_no_warning_at_90_seconds :
  ∃ res,
    runMultipleSimulations (mkBatchParams 1 (1 # 2) 1 1 None) None
      [mkTurn 90000 [1 # 4]%Q 90000 90001 false] 90002 = Some (res, []) ∧
    totalAttempts res = 1 ∧ completedRuns res = [[0; 1]].
Proof. eexists. split; [reflexivity|]. done. Qed.

End BatchProps.

(* ===================================================================== *)
(** * Properties of the density aggregator and of the scaling *)
(* ===================================================================== *)

Module VisualizationProps.
Import VisualizationEngine VisualizationSpec.

Local Open Scope Z_scope.

(** ** The aggregation on concrete runs *)

(** Two runs towards the target 1, no compression: one column per position. *)
Example rawDensities_full :
  rawDensities [[0; 1]; [0; 0; 1]] "heatmap" 1 =
  Some ([[2; 1; 0]; [0; 1; 1]], [[2; 1; 0]; [0; 1; 1]]).
Proof. vm_compute. reflexivity. Qed.

(** Time compression: with a run of 1502 values the positions 0 and 1 share
    column 0.  In the full mode the short run marks the values 0 and 1 there,
    the long run visits the value 0 twice. *)
Example rawDensities_full_compressed :
  (λ '(vd, hd), (cell vd 0 0, cell hd 0 0, cell vd 1 0, cell hd 1 0)) <$>
    rawDensities [[0; 1; 2]; replicate 1500 0 ++ [1; 2]] "heatmap" 2 =
  Some (Some 2, Some 3, Some 1, Some 1).
Proof. vm_compute. reflexivity. Qed.

(** In the peak mode every run marks the largest value of the bin, and adds
    the number of its positions in the bin to the horizontal density. *)
Example rawDensities_peak_compressed :
  (λ '(vd, hd), (cell vd 0 0, cell hd 0 0, cell vd 1 0, cell hd 1 0)) <$>
    rawDensities [[0; 1; 2]; replicate 1500 0 ++ [1; 2]] "peak" 2 =
  Some (Some 1, Some 2, Some 1, Some 2).
Proof. vm_compute. reflexivity. Qed.

(** A value above the target finds no row of the grid: TypeError. *)
Example rawDensities_value_out_of_range :
  rawDensities [[0; 1]; [0; 0; 5]] "heatmap" 1 = None.
Proof. vm_compute. reflexivity. Qed.

(** ** Loop rules *)

Lemma foldM_app {A St} (body : A → St → option St) l1 l2 s :
  foldM body (l1 ++ l2) s = foldM body l1 s ≫= foldM body l2.
Proof.
  revert s. induction l1 as [|a l1 IH]; intros s; simpl; [done|].
  destruct (body a s) as [s1|]; simpl; [apply IH|done].
Qed.

(** A property kept by every pass holds after the loop. *)
Lemma foldM_inv {A St} (body : A → St → option St) (P : St → Prop) items :
  (∀ a s s', a ∈ items → P s → body a s = Some s' → P s') →
  ∀ s s', P s → foldM body items s = Some s' → P s'.
Proof.
  induction items as [|a items IH]; intros Hstep s s' HP Hrun; simpl in Hrun.
  - by simplify_eq.
  - destruct (body a s) as [s1|] eqn:E; simpl in Hrun; [|done].
    eapply IH; [..|exact Hrun].
    + intros b t t' Hb. apply Hstep. by right.
    + eapply Hstep; [|exact HP|exact E]. by left.
Qed.

(** The rule of a counting loop, with the counter in the invariant. *)
Lemma forRange_inv {St} (P : nat → St → Prop) (n : nat) (body : nat → St → option St) :
  (∀ i s s', (i < n)%nat → P i s → body i s = Some s' → P (S i) s') →
  ∀ s s', P 0%nat s → forRange n body s = Some s' → P n s'.
Proof.
  intros Hstep. unfold forRange.
  assert (G : ∀ k a s s', (a + k = n)%nat → P a s →
              foldM body (seq a k) s = Some s' → P n s').
  { induction k as [|k IH]; intros a s s' Hak HP Hrun; simpl in Hrun.
    - simplify_eq. by replace (a + 0)%nat with a by lia.
    - destruct (body a s) as [s1|] eqn:E; simpl in Hrun; [|done].
      eapply (IH (S a)); [lia| |exact Hrun].
      eapply Hstep; [|exact HP|exact E]. lia. }
  intros s s'. by apply G.
Qed.

(** The rule of [forEach], with the position in the invariant. *)
Lemma forEachFrom_inv {A St} (P : nat → St → Prop) (arr : list A)
    (body : A → nat → St → option St) :
  ∀ i s s',
    (∀ k v t t', arr !! k = Some v → P (i + k)%nat t →
                 body v (i + k)%nat t = Some t' → P (S (i + k)) t') →
    P i s → forEachFrom i arr body s = Some s' → P (i + length arr)%nat s'.
Proof.
  induction arr as [|v arr IH]; intros i s s' Hstep HP Hrun; simpl in Hrun.
  - simplify_eq. simpl. by replace (i + 0)%nat with i by lia.
  - destruct (body v i s) as [s1|] eqn:E; simpl in Hrun; [|done].
    simpl length. replace (i + S (length arr))%nat with (S i + length arr)%nat by lia.
    eapply IH; [..|exact Hrun].
    + intros k w t t' Hk. replace (S i + k)%nat with (i + S k)%nat by lia.
      by apply (Hstep (S k)).
    + specialize (Hstep 0%nat v s s1). rewrite Nat.add_0_r in Hstep. by apply Hstep.
Qed.

Lemma forEach_inv {A St} (P : nat → St → Prop) (arr : list A)
    (body : A → nat → St → option St) s s' :
  (∀ k v t t', arr !! k = Some v → P k t → body v k t = Some t' → P (S k) t') →
  P 0%nat s → forEach arr body s = Some s' → P (length arr) s'.
Proof.
  intros Hstep HP Hrun. by apply (forEachFrom_inv P arr body 0 s s').
Qed.

(** ** Cells *)

(** [addCell] adds [d] to one cell that is there and leaves all others. *)
Lemma addCell_Some g y x d g' :
  addCell g y x d = Some g' →
  ∃ v, cell g y x = Some v ∧
       ∀ y' x', cell g' y' x' =
                if decide (y' = y ∧ x' = x) then Some (v + d) else cell g y' x'.
Proof.
  unfold addCell, cell. intros H.
  destruct (g !! y) as [row|] eqn:Hy; simpl in H; [|done].
  destruct (row !! x) as [v|] eqn:Hx; simpl in H; [|done]. simplify_eq.
  exists v. split; [done|]. intros y' x'.
  pose proof (lookup_lt_Some _ _ _ Hy) as Hly.
  pose proof (lookup_lt_Some _ _ _ Hx) as Hlx.
  destruct (decide (y' = y)) as [->|Hne].
  - rewrite list_lookup_insert_eq by done. simpl.
    destruct (decide (x' = x)) as [->|Hnx].
    + rewrite list_lookup_insert_eq by done. by rewrite decide_True.
    + rewrite list_lookup_insert_ne by done. rewrite decide_False by tauto.
      by rewrite Hy.
  - rewrite list_lookup_insert_ne by done. by rewrite decide_False by tauto.
Qed.

(** [addCell] succeeds on a cell that is there. *)
Lemma addCell_is_Some g y x d :
  is_Some (cell g y x) → is_Some (addCell g y x d).
Proof.
  unfold addCell, cell. intros [v H].
  destruct (g !! y) as [row|]; simpl in *; [|done]. rewrite H. simpl. by eexists.
Qed.

(** ** Horizontal density dominates vertical density *)

Lemma dominates_addCell vd hd y x c vd' hd' :
  1 ≤ c → dominates (vd, hd) →
  addCell vd y x 1 = Some vd' → addCell hd y x c = Some hd' →
  dominates (vd', hd').
Proof.
  intros Hc Hdom Hv Hh y' x' v h. simpl.
  apply addCell_Some in Hv as (v0 & Hv0 & ->).
  apply addCell_Some in Hh as (h0 & Hh0 & ->).
  pose proof (Hdom y x v0 h0 Hv0 Hh0) as H0.
  case_decide as Hd.
  - intros ??. simplify_eq. lia.
  - apply Hdom.
Qed.

Lemma markBins_dominates binCounts gridWidth gridHeight d d' :
  dominates d → markBins binCounts gridWidth gridHeight d = Some d' → dominates d'.
Proof.
  unfold markBins, forRange. apply foldM_inv. intros y s s' _.
  apply foldM_inv. intros x [vd hd] t' _ Hdom Hbody.
  destruct (0 <? default 0 (cell binCounts y x)) eqn:Hpos; [|by simplify_eq].
  apply Z.ltb_lt in Hpos.
  destruct (addCell vd y x 1) as [vd'|] eqn:Hv; simpl in Hbody; [|done].
  destruct (addCell hd y x _) as [hd'|] eqn:Hh; simpl in Hbody; [|done].
  simplify_eq. eapply dominates_addCell; [|done..]. lia.
Qed.

Lemma calculateFullDensity_dominates runs vd hd maxLength gridWidth gridHeight d' :
  dominates (vd, hd) →
  _calculateFullDensity runs vd hd maxLength gridWidth gridHeight = Some d' →
  dominates d'.
Proof.
  unfold _calculateFullDensity. apply foldM_inv. intros run s s' _ Hdom Hbody.
  destruct (countBins run gridWidth gridHeight maxLength) as [binCounts|];
    simpl in Hbody; [|done].
  by eapply markBins_dominates.
Qed.

Lemma peakBins_counted run gridWidth maxLength peaks :
  peakBins run gridWidth maxLength = Some peaks → peaksCounted peaks.
Proof.
  unfold peakBins. intros H.
  apply (forEach_inv (λ _, peaksCounted)) in H; [done| |].
  - intros k value [pv pc] t' _ [Hlen Hc] Hbody.
    destruct (timeBin k gridWidth maxLength) as [x|]; simplify_eq; [|done].
    split; simpl in *.
    + by rewrite !length_alter.
    + intros x' p c. rewrite !list_lookup_alter. case_decide as Hx.
      * subst x'. destruct (pv !! x) as [p0|] eqn:Hp; [|done].
        destruct (pc !! x) as [c0|] eqn:Hc0; [|done]. simpl. intros ??. simplify_eq.
        destruct (Hc x p0 c0 Hp Hc0). lia.
      * apply Hc.
  - split; simpl.
    + by rewrite !length_replicate.
    + intros x p c [-> _]%lookup_replicate [-> _]%lookup_replicate. lia.
Qed.

Lemma markPeaks_dominates peakValues peakCounts d d' :
  peaksCounted (peakValues, peakCounts) →
  dominates d → markPeaks peakValues peakCounts d = Some d' → dominates d'.
Proof.
  intros [Hlen Hc] Hdom H. unfold markPeaks in H.
  apply (forEach_inv (λ _, dominates)) in H; [done| |done].
  intros x peak [vd hd] t' Hx Hd Hbody. simpl in *.
  destruct (0 <=? peak) eqn:Hp; [|by simplify_eq]. apply Z.leb_le in Hp.
  destruct (addCell vd _ x 1) as [vd'|] eqn:Hv; simpl in Hbody; [|done].
  destruct (addCell hd _ x _) as [hd'|] eqn:Hh; simpl in Hbody; [|done].
  simplify_eq. eapply dominates_addCell; [|done..].
  destruct (lookup_lt_is_Some_2 peakCounts x) as [c Hcx].
  { rewrite <- Hlen. by eapply lookup_lt_Some. }
  rewrite Hcx. simpl. by apply (Hc x peak c).
Qed.

Lemma calculatePeakDensity_dominates runs vd hd maxLength gridWidth gridHeight d' :
  dominates (vd, hd) →
  _calculatePeakDensity runs vd hd maxLength gridWidth gridHeight = Some d' →
  dominates d'.
Proof.
  unfold _calculatePeakDensity. apply foldM_inv. intros run s s' _ Hdom Hbody.
  destruct (peakBins run gridWidth maxLength) as [[pv pc]|] eqn:Hpeaks;
    simpl in Hbody; [|done].
  eapply markPeaks_dominates; [|done..]. by eapply peakBins_counted.
Qed.

Lemma cell_newGrid {A} h w (a : A) y x b :
  cell (newGrid h w a) y x = Some b → b = a ∧ (y < h)%nat ∧ (x < w)%nat.
Proof.
  unfold cell, newGrid. intros H.
  destruct (replicate h (replicate w a) !! y) as [row|] eqn:Hy; simpl in H; [|done].
  apply lookup_replicate in Hy as [-> ?]. apply lookup_replicate in H as [-> ?]. done.
Qed.

Lemma rawDensities_dominates runs visualizationType maxValue d :
  rawDensities runs visualizationType maxValue = Some d → dominates d.
Proof.
  unfold rawDensities. destruct (maxValue + 1 <? 0); [done|].
  assert (Hz : ∀ h w, dominates (newGrid h w 0, newGrid h w 0)).
  { intros h w y x v c [-> _]%cell_newGrid [-> _]%cell_newGrid. done. }
  destruct (String.eqb visualizationType "peak").
  - apply calculatePeakDensity_dominates, Hz.
  - apply calculateFullDensity_dominates, Hz.
Qed.

(** ** Shapes, and the runs on which the aggregation raises no exception *)

Lemma shaped_newGrid {A} h w (a : A) : shaped h w (newGrid h w a).
Proof.
  split; [apply length_replicate|].
  apply Forall_forall. intros row [-> _]%elem_of_replicate. apply length_replicate.
Qed.

Lemma shaped_row {A} h w (g : list (list A)) y :
  shaped h w g → (y < h)%nat → ∃ row, g !! y = Some row ∧ length row = w.
Proof.
  intros [Hl Hr] Hy. destruct (lookup_lt_is_Some_2 g y) as [row Hrow]; [lia|].
  exists row. split; [done|]. by eapply (Forall_lookup_1 _ _ _ _ Hr).
Qed.

Lemma shaped_cell {A} h w (g : list (list A)) y x :
  shaped h w g → (y < h)%nat → (x < w)%nat → is_Some (cell g y x).
Proof.
  intros Hs Hy Hx. destruct (shaped_row h w g y Hs Hy) as (row & Hrow & Hlen).
  unfold cell. rewrite Hrow. simpl. apply lookup_lt_is_Some_2. lia.
Qed.

Lemma cell_shaped {A} h w (g : list (list A)) y x a :
  shaped h w g → cell g y x = Some a → (y < h)%nat ∧ (x < w)%nat.
Proof.
  intros [Hl Hr] H. unfold cell in H.
  destruct (g !! y) as [row|] eqn:Hy; simpl in H; [|done].
  pose proof (Forall_lookup_1 _ _ _ _ Hr Hy) as Hlen. simpl in Hlen.
  apply lookup_lt_Some in Hy. apply lookup_lt_Some in H. lia.
Qed.

Lemma addCell_shaped h w g y x d g' :
  shaped h w g → addCell g y x d = Some g' → shaped h w g'.
Proof.
  intros [Hl Hr] H. unfold addCell in H.
  destruct (g !! y) as [row|] eqn:Hy; simpl in H; [|done].
  destruct (row !! x) as [v|] eqn:Hx; simpl in H; [|done]. simplify_eq.
  split; [by rewrite length_insert|].
  apply Forall_insert; [done|]. rewrite length_insert.
  by eapply (Forall_lookup_1 _ _ _ _ Hr).
Qed.

Lemma addCell_in_range h w g y x d :
  shaped h w g → (y < h)%nat → (x < w)%nat → is_Some (addCell g y x d).
Proof. intros. apply addCell_is_Some. by eapply shaped_cell. Qed.

(** A loop whose passes all succeed while keeping [P] succeeds and keeps [P]. *)
Lemma foldM_total {A St} (body : A → St → option St) (P : St → Prop) items :
  (∀ a s, a ∈ items → P s → ∃ s', body a s = Some s' ∧ P s') →
  ∀ s, P s → ∃ s', foldM body items s = Some s' ∧ P s'.
Proof.
  induction items as [|a items IH]; intros Hstep s HP; simpl.
  - by exists s.
  - destruct (Hstep a s) as (s1 & -> & HP1); [by left|done|]. simpl.
    apply IH; [|done]. intros b t Hb. apply Hstep. by right.
Qed.

Lemma forRange_total {St} (body : nat → St → option St) (P : St → Prop) n :
  (∀ i s, (i < n)%nat → P s → ∃ s', body i s = Some s' ∧ P s') →
  ∀ s, P s → ∃ s', forRange n body s = Some s' ∧ P s'.
Proof.
  intros Hstep. apply foldM_total. intros i s Hi. apply Hstep.
  apply elem_of_seq in Hi. lia.
Qed.

Lemma forEachFrom_total {A St} (body : A → nat → St → option St) (P : St → Prop) arr :
  ∀ i,
    (∀ k v s, arr !! k = Some v → P s → ∃ s', body v (i + k)%nat s = Some s' ∧ P s') →
    ∀ s, P s → ∃ s', forEachFrom i arr body s = Some s' ∧ P s'.
Proof.
  induction arr as [|v arr IH]; intros i Hstep s HP; simpl.
  - by exists s.
  - destruct (Hstep 0%nat v s) as (s1 & E & HP1); [done..|].
    rewrite Nat.add_0_r in E. rewrite E. simpl.
    apply IH; [|done]. intros k w t Hk.
    replace (S i + k)%nat with (i + S k)%nat by lia. by apply (Hstep (S k)).
Qed.

Lemma timeBin_lt index gridWidth maxLength x :
  timeBin index gridWidth maxLength = Some x → (x < gridWidth)%nat.
Proof.
  unfold timeBin. destruct (maxLength =? 0)%nat; [done|].
  destruct (_ <? gridWidth)%nat eqn:E; [|done]. intros ?; simplify_eq.
  by apply Nat.ltb_lt in E.
Qed.

Lemma countBins_shaped run gridWidth gridHeight maxLength binCounts :
  countBins run gridWidth gridHeight maxLength = Some binCounts →
  shaped gridHeight gridWidth binCounts.
Proof.
  unfold countBins. intros H.
  apply (forEach_inv (λ _, shaped gridHeight gridWidth)) in H; [done| |apply shaped_newGrid].
  intros k value g g' _ Hs Hbody.
  destruct (timeBin k gridWidth maxLength) as [x|]; [|by simplify_eq].
  destruct (rowIndex value) as [y|]; simpl in Hbody; [|done].
  by eapply addCell_shaped.
Qed.

Lemma countBins_total run gridWidth gridHeight maxLength :
  inRows gridHeight run → is_Some (countBins run gridWidth gridHeight maxLength).
Proof.
  intros Hrun. unfold countBins, forEach.
  edestruct (forEachFrom_total
    (λ value index binCounts,
       match timeBin index gridWidth maxLength with
       | Some x => y ← rowIndex value; addCell binCounts y x 1
       | None => Some binCounts
       end) (shaped gridHeight gridWidth) run 0) as (g & Hg & _);
    [|apply shaped_newGrid|by rewrite Hg].
  intros k value g Hk Hs. simpl.
  destruct (timeBin k gridWidth maxLength) as [x|] eqn:Hx; [|by exists g].
  apply timeBin_lt in Hx.
  pose proof (Forall_lookup_1 _ _ _ _ Hrun Hk) as Hv. simpl in Hv.
  unfold rowIndex. destruct (value <? 0) eqn:E; [lia|]. simpl.
  destruct (addCell_in_range gridHeight gridWidth g (Z.to_nat value) x 1) as [g' Hg'];
    [done|lia|done|].
  exists g'. split; [done|]. by eapply addCell_shaped.
Qed.

Lemma bothShaped_addCell h w vd hd y x c1 c2 vd' hd' :
  bothShaped h w (vd, hd) → addCell vd y x c1 = Some vd' →
  addCell hd y x c2 = Some hd' → bothShaped h w (vd', hd').
Proof.
  intros [Hv Hh] Hvd Hhd. split; simpl in *.
  - eapply addCell_shaped; [exact Hv|exact Hvd].
  - eapply addCell_shaped; [exact Hh|exact Hhd].
Qed.

Lemma markBins_total binCounts gridWidth gridHeight d :
  bothShaped gridHeight gridWidth d →
  ∃ d', markBins binCounts gridWidth gridHeight d = Some d' ∧
        bothShaped gridHeight gridWidth d'.
Proof.
  unfold markBins. apply forRange_total. intros y s Hy.
  apply forRange_total. intros x [vd hd] Hx [Hv Hh]. simpl in *.
  destruct (0 <? default 0 (cell binCounts y x)); [|by exists (vd, hd)].
  destruct (addCell_in_range gridHeight gridWidth vd y x 1) as [vd' Hvd]; [done..|].
  destruct (addCell_in_range gridHeight gridWidth hd y x
              (default 0 (cell binCounts y x))) as [hd' Hhd]; [done..|].
  rewrite Hvd, Hhd. simpl. exists (vd', hd'). split; [done|].
  eapply bothShaped_addCell; [|exact Hvd|exact Hhd]. by split.
Qed.

Lemma calculateFullDensity_total runs vd hd maxLength gridWidth gridHeight :
  Forall (inRows gridHeight) runs → bothShaped gridHeight gridWidth (vd, hd) →
  ∃ d', _calculateFullDensity runs vd hd maxLength gridWidth gridHeight = Some d' ∧
        bothShaped gridHeight gridWidth d'.
Proof.
  intros Hruns. unfold _calculateFullDensity. apply foldM_total. intros run d Hrun Hd.
  destruct (countBins_total run gridWidth gridHeight maxLength) as [b Hb].
  { by eapply (proj1 (Forall_forall _ _) Hruns). }
  rewrite Hb. simpl. by apply markBins_total.
Qed.

(** The peaks of a run: one per bin, none above the values of the run. *)
Lemma peakBins_total run gridWidth gridHeight maxLength :
  inRows gridHeight run →
  ∃ peaks, peakBins run gridWidth maxLength = Some peaks ∧
           length peaks.1 = gridWidth ∧
           Forall (λ peak, peak < Z.of_nat gridHeight) peaks.1.
Proof.
  intros Hrun. unfold peakBins, forEach.
  apply (forEachFrom_total _
    (λ peaks, length peaks.1 = gridWidth ∧
              Forall (λ peak, peak < Z.of_nat gridHeight) peaks.1)).
  - intros k value [pv pc] Hk [Hlen Hall]. simpl in *.
    destruct (timeBin k gridWidth maxLength) as [x|]; [|by eexists].
    eexists. split; [done|]. simpl. split; [by rewrite length_alter|].
    pose proof (Forall_lookup_1 _ _ _ _ Hrun Hk) as Hv. simpl in Hv.
    apply Forall_lookup. intros i p. rewrite list_lookup_alter. case_decide.
    + subst i. destruct (pv !! x) as [p0|] eqn:Hp; [|done]. simpl. intros ?. simplify_eq.
      pose proof (Forall_lookup_1 _ _ _ _ Hall Hp) as Hp0. simpl in Hp0. lia.
    + intros Hp. by apply (Forall_lookup_1 _ _ _ _ Hall Hp).
  - simpl. split; [apply length_replicate|].
    apply Forall_forall. intros p [-> _]%elem_of_replicate. lia.
Qed.

Lemma markPeaks_total peakValues peakCounts gridWidth gridHeight d :
  length peakValues = gridWidth →
  Forall (λ peak, peak < Z.of_nat gridHeight) peakValues →
  bothShaped gridHeight gridWidth d →
  ∃ d', markPeaks peakValues peakCounts d = Some d' ∧ bothShaped gridHeight gridWidth d'.
Proof.
  intros Hlen Hall. unfold markPeaks, forEach. apply forEachFrom_total.
  intros x peak [vd hd] Hx [Hv Hh]. simpl in *.
  destruct (0 <=? peak) eqn:Hp; [|by eexists]. apply Z.leb_le in Hp.
  pose proof (Forall_lookup_1 _ _ _ _ Hall Hx) as Hpk. simpl in Hpk.
  apply lookup_lt_Some in Hx.
  destruct (addCell_in_range gridHeight gridWidth vd (Z.to_nat peak) x 1)
    as [vd' Hvd]; [done|lia|lia|].
  destruct (addCell_in_range gridHeight gridWidth hd (Z.to_nat peak) x
              (default 0 (peakCounts !! x))) as [hd' Hhd]; [done|lia|lia|].
  rewrite Hvd, Hhd. simpl. exists (vd', hd'). split; [done|].
  eapply bothShaped_addCell; [|exact Hvd|exact Hhd]. by split.
Qed.

Lemma calculatePeakDensity_total runs vd hd maxLength gridWidth gridHeight :
  Forall (inRows gridHeight) runs → bothShaped gridHeight gridWidth (vd, hd) →
  ∃ d', _calculatePeakDensity runs vd hd maxLength gridWidth gridHeight = Some d' ∧
        bothShaped gridHeight gridWidth d'.
Proof.
  intros Hruns. unfold _calculatePeakDensity. apply foldM_total. intros run d Hrun Hd.
  destruct (peakBins_total run gridWidth gridHeight maxLength)
    as ([pv pc] & Hpk & Hlen & Hall).
  { by eapply (proj1 (Forall_forall _ _) Hruns). }
  rewrite Hpk. simpl. by eapply markPeaks_total.
Qed.

(** On runs whose values lie between 0 and [maxValue], both modes produce
    their two grids, of [maxValue + 1] rows and [min(maxLength, 1000)]
    columns. *)
Lemma rawDensities_total runs visualizationType maxValue :
  0 ≤ maxValue →
  Forall (Forall (λ value, 0 ≤ value ≤ maxValue)) runs →
  ∃ d, rawDensities runs visualizationType maxValue = Some d ∧
       bothShaped (Z.to_nat (maxValue + 1)) (Nat.min (max_list (length <$> runs)) 1000) d.
Proof.
  intros Hm Hruns. unfold rawDensities.
  destruct (maxValue + 1 <? 0) eqn:E; [lia|].
  assert (Hin : Forall (inRows (Z.to_nat (maxValue + 1))) runs).
  { eapply Forall_impl; [exact Hruns|]. intros run Hrun.
    eapply Forall_impl; [exact Hrun|]. simpl. intros v Hv. lia. }
  destruct (String.eqb visualizationType "peak").
  - apply calculatePeakDensity_total; [done|]. split; apply shaped_newGrid.
  - apply calculateFullDensity_total; [done|]. split; apply shaped_newGrid.
Qed.

(** Whenever the grids are produced they have that shape. *)
Lemma rawDensities_shaped runs visualizationType maxValue d :
  rawDensities runs visualizationType maxValue = Some d →
  bothShaped (Z.to_nat (maxValue + 1)) (Nat.min (max_list (length <$> runs)) 1000) d.
Proof.
  unfold rawDensities. destruct (maxValue + 1 <? 0); [done|].
  set (h := Z.to_nat (maxValue + 1)). set (w := Nat.min _ 1000).
  assert (H0 : bothShaped h w (newGrid h w 0, newGrid h w 0)) by (split; apply shaped_newGrid).
  destruct (String.eqb visualizationType "peak").
  - unfold _calculatePeakDensity. apply foldM_inv; [|done]. intros run s s' _ Hs Hbody.
    destruct (peakBins run w _) as [[pv pc]|]; simpl in Hbody; [|done].
    unfold markPeaks in Hbody.
    apply (forEach_inv (λ _, bothShaped h w)) in Hbody; [done| |done].
    intros x peak [vd hd] t' _ Hd Hb. destruct (0 <=? peak); [|by simplify_eq].
    destruct (addCell vd _ x 1) as [vd'|] eqn:Hv; simpl in Hb; [|done].
    destruct (addCell hd _ x _) as [hd'|] eqn:Hh; simpl in Hb; [|done].
    simplify_eq. eapply bothShaped_addCell; [exact Hd|exact Hv|exact Hh].
  - unfold _calculateFullDensity. apply foldM_inv; [|done]. intros run s s' _ Hs Hbody.
    destruct (countBins run w h _) as [b|]; simpl in Hbody; [|done].
    revert Hs Hbody. unfold markBins, forRange. apply foldM_inv. intros y t t' _.
    apply foldM_inv. intros x [vd hd] u' _ Hd Hb.
    destruct (0 <? _); [|by simplify_eq].
    destruct (addCell vd _ x 1) as [vd'|] eqn:Hv; simpl in Hb; [|done].
    destruct (addCell hd _ x _) as [hd'|] eqn:Hh; simpl in Hb; [|done].
    simplify_eq. eapply bothShaped_addCell; [exact Hd|exact Hv|exact Hh].
Qed.

(** ** Column sums *)

Lemma columnSum_app g1 g2 x : columnSum (g1 ++ g2) x = columnSum g1 x + columnSum g2 x.
Proof. induction g1 as [|row g1 IH]; simpl; [done|]. rewrite IH. lia. Qed.

Lemma columnSum_newGrid h w x : columnSum (newGrid h w 0) x = 0.
Proof.
  unfold newGrid. induction h as [|h IH]; simpl; [done|]. rewrite IH.
  destruct (replicate w 0 !! x) as [c|] eqn:E; [|done].
  by apply lookup_replicate in E as [-> _].
Qed.

(** [addCell] adds [d] to the sum of its column and leaves the other sums. *)
Lemma columnSum_addCell g y x d g' x' :
  addCell g y x d = Some g' →
  columnSum g' x' = columnSum g x' + (if decide (x' = x) then d else 0).
Proof.
  unfold addCell. intros H.
  destruct (g !! y) as [row|] eqn:Hy; simpl in H; [|done].
  destruct (row !! x) as [v|] eqn:Hx; simpl in H; [|done]. simplify_eq.
  pose proof (lookup_lt_Some _ _ _ Hy) as Hly.
  pose proof (lookup_lt_Some _ _ _ Hx) as Hlx.
  rewrite insert_take_drop by done.
  rewrite <- (take_drop_middle g y row Hy) at 3.
  rewrite !columnSum_app. simpl.
  case_decide as Hd.
  - subst x'. rewrite list_lookup_insert_eq by done. rewrite Hx. simpl. lia.
  - rewrite list_lookup_insert_ne by done. lia.
Qed.

Lemma nonneg_default g y x : nonneg g → 0 ≤ default 0 (cell g y x).
Proof. intros H. destruct (cell g y x) as [c|] eqn:E; simpl; [by eapply H|done]. Qed.

Lemma columnSum_take_S g y x :
  (y < length g)%nat →
  columnSum (take (S y) g) x = columnSum (take y g) x + default 0 (cell g y x).
Proof.
  intros Hy. destruct (lookup_lt_is_Some_2 g y Hy) as [row Hrow].
  rewrite (take_S_r g y row Hrow), columnSum_app. unfold cell. rewrite Hrow. simpl. lia.
Qed.

(** A loop whose passes raise a measure by at most 1 raises it by at most
    the number of passes. *)
Lemma foldM_count {A St} (body : A → St → option St) (m : St → Z) items :
  (∀ a s s', body a s = Some s' → m s' ≤ m s + 1) →
  ∀ s s', foldM body items s = Some s' → m s' ≤ m s + Z.of_nat (length items).
Proof.
  intros Hstep. induction items as [|a items IH]; intros s s' Hrun; simpl in Hrun.
  - simplify_eq. simpl. lia.
  - destruct (body a s) as [s1|] eqn:E; simpl in Hrun; [|done].
    apply IH in Hrun. apply Hstep in E. simpl length. lia.
Qed.

(** One row of the second loop of the full mode: a column gains at most the
    count of the run in that row. *)
Lemma markRow_columnSum binCounts gridWidth y d d' :
  nonneg binCounts →
  forRange gridWidth (λ x '(verticalDensity, horizontalDensity),
      let count := default 0 (cell binCounts y x) in
      if 0 <? count then
        verticalDensity' ← addCell verticalDensity y x 1;
        horizontalDensity' ← addCell horizontalDensity y x count;
        Some (verticalDensity', horizontalDensity')
      else Some (verticalDensity, horizontalDensity)) d = Some d' →
  ∀ x, columnSum d'.1 x ≤ columnSum d.1 x + default 0 (cell binCounts y x).
Proof.
  intros Hnn Hrun.
  set (P := λ (j : nat) (s : Grid * Grid), ∀ x,
         ((x < j)%nat → columnSum s.1 x ≤ columnSum d.1 x + default 0 (cell binCounts y x)) ∧
         ((j ≤ x)%nat → columnSum s.1 x = columnSum d.1 x)).
  assert (HP : P gridWidth d'); [eapply (forRange_inv P); [| |exact Hrun]|]; unfold P in *.
  3: { intros x. destruct (decide (x < gridWidth)%nat) as [Hx|Hx].
       - by apply HP.
       - destruct (HP x) as [_ Hge]. rewrite Hge by lia.
         pose proof (nonneg_default binCounts y x Hnn). lia. }
  - intros j [vd hd] t' Hj Hinv Hbody x. simpl in *.
    destruct (Hinv x) as [Hlt Hge]. destruct (Hinv j) as [_ Hj0]. specialize (Hj0 ltac:(lia)).
    pose proof (nonneg_default binCounts y j Hnn) as Hc.
    destruct (0 <? default 0 (cell binCounts y j)) eqn:Hpos.
    + apply Z.ltb_lt in Hpos.
      destruct (addCell vd y j 1) as [vd'|] eqn:Hv; simpl in Hbody; [|done].
      destruct (addCell hd y j _) as [hd'|] eqn:Hh; simpl in Hbody; [|done].
      simplify_eq. simpl. rewrite (columnSum_addCell _ _ _ _ _ x Hv).
      case_decide as Hd.
      * subst x. split; intros ?; lia.
      * rewrite Z.add_0_r. split; intros ?; [apply Hlt; lia|apply Hge; lia].
    + simplify_eq. simpl. apply Z.ltb_ge in Hpos.
      destruct (decide (x = j)) as [->|Hd].
      * split; intros ?; lia.
      * split; intros ?; [apply Hlt; lia|apply Hge; lia].
  - intros x. split; intros ?; [lia|done].
Qed.

(** The second loop of the full mode: a column of [verticalDensity] gains at
    most the sum of the same column of [binCounts]. *)
Lemma markBins_columnSum binCounts gridWidth gridHeight d d' :
  length binCounts = gridHeight → nonneg binCounts →
  markBins binCounts gridWidth gridHeight d = Some d' →
  ∀ x, columnSum d'.1 x ≤ columnSum d.1 x + columnSum binCounts x.
Proof.
  intros Hlen Hnn Hrun. unfold markBins in Hrun.
  set (P := λ (k : nat) (s : Grid * Grid), ∀ x,
         columnSum s.1 x ≤ columnSum d.1 x + columnSum (take k binCounts) x).
  assert (HP : P gridHeight d'); [eapply (forRange_inv P); [| |exact Hrun]|]; unfold P in *.
  3: { intros x. specialize (HP x). by rewrite take_ge in HP by lia. }
  - intros y s s' Hy Hinv Hbody x.
    pose proof (markRow_columnSum binCounts gridWidth y s s' Hnn Hbody x) as Hrow.
    rewrite columnSum_take_S by lia. specialize (Hinv x). lia.
  - intros x. simpl. lia.
Qed.

(** Without time compression ([gridWidth = maxLength]) the bin of a position
    is the position. *)
Lemma timeBin_uncompressed index w x : timeBin index w w = Some x → x = index.
Proof.
  unfold timeBin. destruct (w =? 0)%nat eqn:E; [done|]. apply Nat.eqb_neq in E.
  rewrite Z.div_mul by lia. rewrite Nat2Z.id.
  destruct (index <? w)%nat; [|done]. by intros ?; simplify_eq.
Qed.

(** Without time compression the first loop of the full mode counts at most
    one visit per column. *)
Lemma countBins_uncompressed run w gridHeight binCounts :
  countBins run w gridHeight w = Some binCounts →
  nonneg binCounts ∧ ∀ x, columnSum binCounts x ≤ 1.
Proof.
  unfold countBins. intros H.
  apply (forEach_inv (λ k b, nonneg b ∧ ∀ x,
           columnSum b x ≤ 1 ∧ ((k ≤ x)%nat → columnSum b x = 0))) in H.
  - destruct H as [Hnn Hs]. split; [done|]. intros x. apply Hs.
  - intros k value b b' _ [Hnn Hs] Hbody.
    destruct (timeBin k w w) as [x0|] eqn:Hbin.
    + apply timeBin_uncompressed in Hbin. subst x0.
      destruct (rowIndex value) as [y|]; simpl in Hbody; [|done].
      split.
      * intros y' x' c. apply addCell_Some in Hbody as (v & Hv & ->).
        case_decide; [|apply Hnn]. intros ?; simplify_eq. specialize (Hnn _ _ _ Hv). lia.
      * intros x. rewrite (columnSum_addCell _ _ _ _ _ x Hbody).
        destruct (Hs x) as [Hle Hz]. destruct (Hs k) as [_ Hk]. specialize (Hk ltac:(lia)).
        case_decide as Hd.
        -- subst x. split; [lia|intros ?; lia].
        -- split; [lia|]. intros ?. rewrite Hz by lia. lia.
    + simplify_eq. split; [done|]. intros x. destruct (Hs x) as [Hle Hz].
      split; [done|]. intros ?. apply Hz. lia.
  - split.
    + intros y x c [-> _]%cell_newGrid. done.
    + intros x. rewrite columnSum_newGrid. split; [lia|done].
Qed.

(** Without time compression every run of the full mode adds at most one
    mark to a column. *)
Lemma calculateFullDensity_columnSum runs vd hd w gridHeight d' x :
  _calculateFullDensity runs vd hd w w gridHeight = Some d' →
  columnSum d'.1 x ≤ columnSum vd x + Z.of_nat (length runs).
Proof.
  unfold _calculateFullDensity. intros H.
  apply (foldM_count _ (λ d, columnSum d.1 x)) in H; [done|].
  intros run d d1 Hbody.
  destruct (countBins run w gridHeight w) as [b|] eqn:Hb; simpl in Hbody; [|done].
  pose proof (countBins_shaped _ _ _ _ _ Hb) as [Hlen _].
  apply countBins_uncompressed in Hb as [Hnn Hone].
  pose proof (markBins_columnSum b w gridHeight d d1 Hlen Hnn Hbody x).
  specialize (Hone x). lia.
Qed.

(** ** Numbers *)

#[local] Arguments js_div : simpl never.
#[local] Arguments js_sqrt : simpl never.
#[local] Arguments js_log : simpl never.
#[local] Arguments js_or0 : simpl never.

Lemma js_div_Fin (a b : R) : b ≠ 0%R → js_div (Fin a) (Fin b) = Fin (a / b).
Proof. intros Hb. unfold js_div. by destruct (Req_dec_T b 0). Qed.

Lemma js_div_zero (b : R) : b ≠ 0%R → js_div (Fin 0) (Fin b) = Fin 0.
Proof. intros Hb. rewrite js_div_Fin by done. by rewrite Rdiv_0_l. Qed.

(** [0 / m || 0] is 0, also when [m] is 0 and the quotient is NaN. *)
Lemma js_or0_div_zero (m : R) : js_or0 (Some (js_div (Fin 0) (Fin m))) = Fin 0.
Proof.
  destruct (Req_dec_T m 0) as [->|Hm].
  - unfold js_div. destruct (Req_dec_T 0 0); [|done]. done.
  - by rewrite js_div_zero.
Qed.

Lemma js_sqrt_zero : js_sqrt (Fin 0) = Fin 0.
Proof.
  unfold js_sqrt. destruct (Rlt_dec 0 0) as [H|_]; [lra|]. by rewrite sqrt_0.
Qed.

Lemma js_sqrt_pos (a : R) : (0 < a)%R → ∃ r, js_sqrt (Fin a) = Fin r ∧ (0 < r)%R.
Proof.
  intros Ha. exists (sqrt a). split; [|by apply sqrt_lt_R0].
  unfold js_sqrt. destruct (Rlt_dec a 0); [lra|done].
Qed.

Lemma js_log_one : js_log (Fin 1) = Fin 0.
Proof.
  unfold js_log. destruct (Rlt_dec 1 0); [lra|].
  destruct (Req_dec_T 1 0); [lra|]. by rewrite ln_1.
Qed.

Lemma js_log_above_one (a : R) : (1 < a)%R → ∃ r, js_log (Fin a) = Fin r ∧ (0 < r)%R.
Proof.
  intros Ha. exists (ln a). split.
  - unfold js_log. destruct (Rlt_dec a 0); [lra|]. destruct (Req_dec_T a 0); [lra|done].
  - rewrite <- ln_1. apply ln_increasing; lra.
Qed.

Lemma Math_max_ge v l : v ≤ foldr Z.max v l.
Proof. induction l as [|a l IH]; simpl; lia. Qed.

(** The maximum of a list of positive values that is not empty. *)
Lemma Math_max_positive l :
  l ≠ [] → Forall (λ d, 0 < d) l → ∃ m, Math_max l = Some m ∧ 0 < m.
Proof.
  destruct l as [|v l]; [done|]. intros _ Hall. apply Forall_cons in Hall as [Hv _].
  eexists. split; [done|]. pose proof (Math_max_ge v l). lia.
Qed.

(** ** The double loop of the scalings *)

Lemma shaped_alter_insert {A} h w (g : list (list A)) y x (e : A) :
  shaped h w g → shaped h w (alter (λ out, <[x := e]> out) y g).
Proof.
  intros [Hl Hr]. split; [by rewrite length_alter|].
  apply Forall_lookup. intros i row. rewrite list_lookup_alter. case_decide.
  - subst i. destruct (g !! y) as [r|] eqn:Hy; [|done]. simpl. intros ?; simplify_eq.
    rewrite length_insert. by eapply (Forall_lookup_1 _ _ _ _ Hr).
  - intros Hi. by eapply (Forall_lookup_1 _ _ _ _ Hr).
Qed.

Lemma cell_alter_insert {A} (g : list (list A)) y x (e : A) y' x' :
  is_Some (cell g y x) →
  cell (alter (λ out, <[x := e]> out) y g) y' x' =
    if decide (y' = y ∧ x' = x) then Some e else cell g y' x'.
Proof.
  unfold cell. intros [a Ha]. rewrite list_lookup_alter.
  destruct (g !! y) as [row|] eqn:Hy; simpl in Ha; [|done].
  pose proof (lookup_lt_Some _ _ _ Ha) as Hx.
  destruct (decide (y = y')) as [<-|Hne].
  - rewrite Hy. simpl. destruct (decide (x' = x)) as [->|Hnx].
    + rewrite list_lookup_insert_eq by done. by rewrite decide_True.
    + rewrite list_lookup_insert_ne by done. by rewrite decide_False by tauto.
  - rewrite decide_False; [done|]. intros [? _]. by subst.
Qed.

(** The loop writes [f] of the cell of [density] into every cell of the
    allocated grid. *)
Lemma scaleCells_spec h w density f (init out : list (list jsnum)) :
  shaped h w init → scaleCells h w density f init = Some out →
  shaped h w out ∧
  ∀ y x, (y < h)%nat → (x < w)%nat → cell out y x = Some (f (cell density y x)).
Proof.
  intros Hinit Hrun. unfold scaleCells in Hrun.
  set (P := λ (k : nat) (s : list (list jsnum)), shaped h w s ∧
         ∀ y x, (y < k)%nat → (x < w)%nat → cell s y x = Some (f (cell density y x))).
  assert (HP : P h out); [eapply (forRange_inv P); [| |exact Hrun]|done]; unfold P.
  - intros y s s' Hy [Hs Hdone] Hrow.
    set (Q := λ (j : nat) (t : list (list jsnum)), shaped h w t ∧
           (∀ y' x, (y' < y)%nat → (x < w)%nat →
                    cell t y' x = Some (f (cell density y' x))) ∧
           (∀ x, (x < j)%nat → cell t y x = Some (f (cell density y x)))).
    assert (HQ : Q w s'); [eapply (forRange_inv Q); [| |exact Hrow]|]; unfold Q in *.
    + intros j t t' Hj (Ht & Hprev & Hcur) Hbody.
      destruct (density !! y) as [row|] eqn:Hd; simpl in Hbody; [|done]. simplify_eq.
      assert (Hc : is_Some (cell t y j)) by by eapply shaped_cell.
      split; [by apply shaped_alter_insert|]. split.
      * intros y' x Hy' Hx. rewrite cell_alter_insert by done.
        rewrite decide_False by lia. by apply Hprev.
      * intros x Hx. rewrite cell_alter_insert by done. case_decide as Hdec.
        -- destruct Hdec as [_ ->]. unfold cell. by rewrite Hd.
        -- apply Hcur. lia.
    + split; [done|]. split; [done|]. intros x Hx. lia.
    + destruct HQ as (Hs' & Hprev & Hcur). split; [done|]. intros y' x Hy' Hx.
      destruct (decide (y' = y)) as [->|Hne]; [by apply Hcur|]. apply Hprev; [lia|done].
  - split; [done|]. intros y x Hy. lia.
Qed.

(** The loop raises no exception when [density] has all its rows. *)
Lemma scaleCells_total h w density f (init : list (list jsnum)) :
  (h ≤ length density)%nat → shaped h w init →
  is_Some (scaleCells h w density f init).
Proof.
  intros Hlen Hinit. unfold scaleCells.
  edestruct (forRange_total
    (λ y, forRange w (λ x scaled,
       row ← density !! y; Some (alter (λ out, <[x := f (row !! x)]> out) y scaled)))
    (shaped h w) h) as (out & Hout & _); [|exact Hinit|by rewrite Hout].
  intros y s Hy Hs. apply forRange_total; [|done]. intros x t Hx Ht.
  destruct (lookup_lt_is_Some_2 density y) as [row Hrow]; [lia|].
  rewrite Hrow. simpl. eexists. split; [done|]. by apply shaped_alter_insert.
Qed.

Lemma flatDensity_positive g : Forall (λ d, 0 < d) (flatDensity g).
Proof. apply Forall_forall. intros d Hd. by apply list_elem_of_filter in Hd as [? _]. Qed.

Lemma cell_flatDensity g y x a : cell g y x = Some a → 0 < a → a ∈ flatDensity g.
Proof.
  unfold cell, flatDensity. intros H Ha.
  destruct (g !! y) as [row|] eqn:Hy; simpl in H; [|done].
  apply list_elem_of_filter. split; [done|]. apply list_elem_of_In, in_concat.
  exists row. split; apply list_elem_of_In; by eapply list_elem_of_lookup_2.
Qed.

Lemma flatDensity_zero g : Forall (Forall (λ d, d = 0)) g → flatDensity g = [].
Proof.
  intros H. unfold flatDensity. induction H as [|row g Hrow _ IH]; [done|].
  simpl. rewrite filter_app, IH, app_nil_r.
  induction Hrow as [|d row -> _ IHrow]; [done|].
  by rewrite filter_cons_False by lia.
Qed.

(** ** Zero is scaled to zero *)

Lemma cell_newGrid_Some {A} h w (a : A) y x :
  (y < h)%nat → (x < w)%nat → cell (newGrid h w a) y x = Some a.
Proof.
  intros Hy Hx. unfold cell, newGrid.
  rewrite lookup_replicate_2 by done. simpl. by rewrite lookup_replicate_2.
Qed.

Lemma flatDensity_max g :
  (length (flatDensity g) =? 0)%nat = false →
  ∃ m, Math_max (flatDensity g) = Some m ∧ 0 < m.
Proof.
  intros H. apply Nat.eqb_neq in H. apply Math_max_positive.
  - intros E. by rewrite E in H.
  - apply flatDensity_positive.
Qed.

Lemma applyColorScaling_zero verticalDensity colorScaling gridWidth gridHeight scaled y x :
  _applyColorScaling verticalDensity colorScaling gridWidth gridHeight = Some scaled →
  (y < gridHeight)%nat → (x < gridWidth)%nat →
  cell verticalDensity y x = Some 0 → cell scaled y x = Some (Fin 0).
Proof.
  unfold _applyColorScaling. fold (flatDensity verticalDensity).
  intros Hrun Hy Hx Hcell.
  destruct (length (flatDensity verticalDensity) =? 0)%nat eqn:Hflat.
  { simplify_eq. by apply cell_newGrid_Some. }
  destruct (flatDensity_max _ Hflat) as (m & Hmax & Hm). rewrite Hmax in Hrun.
  assert (HmR : (0 < IZR m)%R) by by apply (IZR_lt 0).
  pose proof (shaped_newGrid gridHeight gridWidth (Fin 0)) as Hinit.
  destruct (String.eqb colorScaling "sqrt");
    [|destruct (String.eqb colorScaling "log");
      [|destruct (String.eqb colorScaling "percentile")]];
    apply (scaleCells_spec _ _ _ _ _ _ Hinit) in Hrun as [_ Hspec];
    rewrite (Hspec y x Hy Hx), Hcell; f_equal; simpl.
  - unfold js_of_Z. rewrite js_sqrt_zero.
    destruct (js_sqrt_pos _ HmR) as (r & -> & Hr). apply js_div_zero. lra.
  - unfold js_of_Z. simpl. rewrite Rplus_0_l, js_log_one.
    destruct (js_log_above_one (IZR m + 1)) as (r & -> & Hr); [lra|].
    apply js_div_zero. lra.
  - unfold percentileMap. by rewrite lookup_insert_eq.
  - unfold js_of_Z. apply js_div_zero. lra.
Qed.

Lemma applyColorScaling_all_zero verticalDensity colorScaling gridWidth gridHeight :
  Forall (Forall (λ d, d = 0)) verticalDensity →
  _applyColorScaling verticalDensity colorScaling gridWidth gridHeight =
    Some (newGrid gridHeight gridWidth (Fin 0)).
Proof.
  intros H. unfold _applyColorScaling. fold (flatDensity verticalDensity).
  by rewrite (flatDensity_zero _ H).
Qed.

Lemma normalizeAlphaDensity_zero horizontalDensity gridWidth gridHeight alpha y x :
  _normalizeAlphaDensity horizontalDensity gridWidth gridHeight = Some alpha →
  (y < gridHeight)%nat → (x < gridWidth)%nat →
  cell horizontalDensity y x = Some 0 → cell alpha y x = Some (Fin 0).
Proof.
  unfold _normalizeAlphaDensity. intros Hrun Hy Hx Hcell.
  destruct (Math_max (concat horizontalDensity)) as [m|]; simpl in Hrun;
    [|simplify_eq; by apply cell_newGrid_Some].
  destruct (0 <? m) eqn:Hm; [|simplify_eq; by apply cell_newGrid_Some].
  apply Z.ltb_lt in Hm. assert (HmR : (0 < IZR m)%R) by by apply (IZR_lt 0).
  apply scaleCells_spec in Hrun as [_ Hspec]; [|apply shaped_newGrid].
  rewrite (Hspec y x Hy Hx), Hcell. f_equal. simpl. unfold js_of_Z.
  rewrite js_div_zero by lra. apply js_sqrt_zero.
Qed.

Lemma Math_max_zero l :
  Forall (λ d, d = 0) l → from_option (λ m, 0 <? m) false (Math_max l) = false.
Proof.
  destruct l as [|v l]; [done|]. intros H. apply Forall_cons in H as [-> H]. simpl.
  induction H as [|d l -> _ IH]; [done|]. simpl. apply Z.ltb_ge in IH. lia.
Qed.

Lemma normalizeAlphaDensity_all_zero horizontalDensity gridWidth gridHeight :
  Forall (Forall (λ d, d = 0)) horizontalDensity →
  _normalizeAlphaDensity horizontalDensity gridWidth gridHeight =
    Some (newGrid gridHeight gridWidth (Fin 0)).
Proof.
  intros H. unfold _normalizeAlphaDensity. rewrite Math_max_zero; [done|].
  induction H as [|row g Hrow _ IH]; simpl; [done|]. by apply Forall_app.
Qed.

(** C8. Under every colour scaling (the kinds sqrt, log and percentile, and
    linear, which every other name selects) a cell whose raw value is 0 is
    normalised to 0, and a raw grid whose cells are all 0 is normalised,
    without a division by zero, to the grid whose cells are all 0.  The same
    holds of the normalisation of the alpha channel. *)
Theorem C8_zero_maps_to_zero (density : Grid) colorScaling gridWidth gridHeight :
  (∀ scaled y x,
     _applyColorScaling density colorScaling gridWidth gridHeight = Some scaled →
     (y < gridHeight)%nat → (x < gridWidth)%nat →
     cell density y x = Some 0 → cell scaled y x = Some (Fin 0)) ∧
  (Forall (Forall (λ d, d = 0)) density →
     _applyColorScaling density colorScaling gridWidth gridHeight =
       Some (newGrid gridHeight gridWidth (Fin 0))) ∧
  (∀ alpha y x,
     _normalizeAlphaDensity density gridWidth gridHeight = Some alpha →
     (y < gridHeight)%nat → (x < gridWidth)%nat →
     cell density y x = Some 0 → cell alpha y x = Some (Fin 0)) ∧
  (Forall (Forall (λ d, d = 0)) density →
     _normalizeAlphaDensity density gridWidth gridHeight =
       Some (newGrid gridHeight gridWidth (Fin 0))).
Proof.
  split; [|split; [|split]].
  - intros scaled y x. apply applyColorScaling_zero.
  - apply applyColorScaling_all_zero.
  - intros alpha y x. apply normalizeAlphaDensity_zero.
  - apply normalizeAlphaDensity_all_zero.
Qed.

(** ** Percentile ranks *)

Lemma setValues_from seen l :
  NoDup seen →
  let step := λ (seen : list Z) d, if decide (d ∈ seen) then seen else seen ++ [d] in
  NoDup (foldl step seen l) ∧ ∀ d, d ∈ foldl step seen l ↔ d ∈ seen ∨ d ∈ l.
Proof.
  intros Hnd step. revert seen Hnd. induction l as [|a l IH]; intros seen Hnd; simpl.
  - split; [done|]. intros d. rewrite elem_of_nil. tauto.
  - unfold step at 2 4. destruct (decide (a ∈ seen)) as [Hin|Hnin].
    + destruct (IH seen Hnd) as [H1 H2]. split; [done|]. intros d.
      rewrite H2, elem_of_cons. split; [tauto|]. intros [?|[->|?]]; tauto.
    + assert (Hnd' : NoDup (seen ++ [a])).
      { apply NoDup_app. split; [done|]. split; [|apply NoDup_singleton].
        intros x Hx ->%list_elem_of_singleton. done. }
      destruct (IH _ Hnd') as [H1 H2]. split; [done|]. intros d.
      rewrite H2, elem_of_app, list_elem_of_singleton, elem_of_cons. tauto.
Qed.

(** [new Set(values)] holds every value once. *)
Lemma setValues_spec l : NoDup (setValues l) ∧ ∀ d, d ∈ setValues l ↔ d ∈ l.
Proof.
  destruct (setValues_from [] l (NoDup_nil_2)) as [H1 H2]. split; [done|].
  intros d. unfold setValues. rewrite H2, elem_of_nil. tauto.
Qed.

Lemma uniqueValues_spec flat :
  NoDup (uniqueValues flat) ∧ StronglySorted Z.le (uniqueValues flat) ∧
  ∀ d, d ∈ uniqueValues flat ↔ d ∈ flat.
Proof.
  unfold uniqueValues. destruct (setValues_spec flat) as [Hnd Hel].
  split; [|split].
  - by rewrite merge_sort_Permutation.
  - apply StronglySorted_merge_sort; apply _.
  - intros d. by rewrite merge_sort_Permutation.
Qed.

Lemma sorted_lookup_le l : ∀ (i j : nat) a b,
  StronglySorted Z.le l → (i < j)%nat → l !! i = Some a → l !! j = Some b → a ≤ b.
Proof.
  induction l as [|c l IH]; intros i j a b Hs Hij Ha Hb; [done|].
  apply StronglySorted_inv in Hs as [Hs Hall].
  destruct j as [|j]; [lia|]. simpl in Hb. destruct i as [|i]; simpl in Ha.
  - simplify_eq. by apply (Forall_lookup_1 _ _ _ _ Hall Hb).
  - apply (IH i j); [done|lia|done..].
Qed.

(** In a sorted list the smaller of two values stands first. *)
Lemma sorted_lookup_lt l (i j : nat) a b :
  StronglySorted Z.le l → l !! i = Some a → l !! j = Some b → a < b → (i < j)%nat.
Proof.
  intros Hs Ha Hb Hab. destruct (decide (i < j)%nat) as [|Hge]; [done|].
  destruct (decide (i = j)) as [->|Hne]; [simplify_eq; lia|].
  pose proof (sorted_lookup_le l j i b a Hs ltac:(lia) Hb Ha). lia.
Qed.

Lemma setRanks_notin values n : ∀ idx (m : gmap Z jsnum) v,
  v ∉ values → setRanks idx values n m !! v = m !! v.
Proof.
  induction values as [|a values IH]; intros idx m v Hv; simpl; [done|].
  apply not_elem_of_cons in Hv as [Hne Hv]. rewrite IH by done.
  by rewrite lookup_insert_ne.
Qed.

(** A value at position [k] of a list without repetition gets rank [k]. *)
Lemma setRanks_lookup values n : ∀ idx (m : gmap Z jsnum) (k : nat) v,
  NoDup values → values !! k = Some v →
  setRanks idx values n m !! v = Some (rank (idx + k) n).
Proof.
  induction values as [|a values IH]; intros idx m k v Hnd Hk; [done|].
  apply NoDup_cons in Hnd as [Ha Hnd]. simpl. destruct k as [|k]; simpl in Hk.
  - simplify_eq. rewrite setRanks_notin by done. rewrite lookup_insert_eq.
    by rewrite Nat.add_0_r.
  - rewrite (IH (S idx) _ k v Hnd Hk). f_equal. f_equal. lia.
Qed.

(** The rank of a positive value of the grid in the percentile map. *)
Lemma percentileMap_lookup flat (k : nat) a :
  uniqueValues flat !! k = Some a → a ≠ 0 →
  percentileMap flat !! a = Some (rank k (length (uniqueValues flat))).
Proof.
  intros Hk Ha. unfold percentileMap. fold (uniqueValues flat).
  rewrite lookup_insert_ne by done.
  destruct (uniqueValues_spec flat) as (Hnd & _ & _).
  by rewrite (setRanks_lookup _ _ 0 ∅ k a Hnd Hk).
Qed.

Lemma applyColorScaling_percentile g gridWidth gridHeight scaled y x a :
  _applyColorScaling g "percentile" gridWidth gridHeight = Some scaled →
  (y < gridHeight)%nat → (x < gridWidth)%nat → cell g y x = Some a →
  cell scaled y x = Some (percentileOf g a).
Proof.
  unfold _applyColorScaling, percentileOf. fold (flatDensity g).
  intros Hrun Hy Hx Hcell.
  destruct (length (flatDensity g) =? 0)%nat.
  { simplify_eq. by apply cell_newGrid_Some. }
  change (String.eqb "percentile" "sqrt") with false in Hrun.
  change (String.eqb "percentile" "log") with false in Hrun.
  change (String.eqb "percentile" "percentile") with true in Hrun.
  cbv iota in Hrun.
  apply scaleCells_spec in Hrun as [_ Hspec]; [|apply shaped_newGrid].
  by rewrite (Hspec y x Hy Hx), Hcell.
Qed.

Lemma percentileOf_zero g : percentileOf g 0 = Fin 0.
Proof.
  unfold percentileOf. destruct (_ =? _)%nat; [done|].
  unfold percentileMap. by rewrite lookup_insert_eq.
Qed.

(** The smallest positive value of a grid gets rank 0, like the value 0. *)
Lemma percentileOf_smallest g a :
  uniqueValues (flatDensity g) !! 0%nat = Some a → percentileOf g a = Fin 0.
Proof.
  intros Ha. unfold percentileOf. destruct (_ =? _)%nat; [done|].
  destruct (decide (a = 0)) as [->|Hne].
  - unfold percentileMap. by rewrite lookup_insert_eq.
  - rewrite (percentileMap_lookup _ 0 a Ha Hne). unfold rank, js_of_Z.
    apply js_or0_div_zero.
Qed.

Lemma percentileOf_strict g a b :
  0 < a → a < b → a ∈ flatDensity g → b ∈ flatDensity g →
  js_lt (percentileOf g a) (percentileOf g b).
Proof.
  intros Ha Hab Hina Hinb. unfold percentileOf.
  destruct (length (flatDensity g) =? 0)%nat eqn:Hflat.
  { apply Nat.eqb_eq in Hflat. destruct (flatDensity g); [|done]. by apply elem_of_nil in Hina. }
  destruct (uniqueValues_spec (flatDensity g)) as (Hnd & Hsorted & Hel).
  apply Hel, list_elem_of_lookup in Hina as [i Hi].
  apply Hel, list_elem_of_lookup in Hinb as [j Hj].
  pose proof (sorted_lookup_lt _ i j a b Hsorted Hi Hj Hab) as Hij.
  pose proof (lookup_lt_Some _ _ _ Hj) as Hlen.
  rewrite (percentileMap_lookup _ i a Hi) by lia.
  rewrite (percentileMap_lookup _ j b Hj) by lia.
  set (n := length (uniqueValues (flatDensity g))) in *.
  assert (Hn : (0 < IZR (Z.of_nat n - 1))%R) by (apply (IZR_lt 0); lia).
  unfold rank, js_of_Z. rewrite !js_div_Fin by lra. unfold js_or0, js_lt.
  apply Rmult_lt_compat_r; [by apply Rinv_0_lt_compat|]. apply IZR_lt. lia.
Qed.

(** A positive value collected from the grid is the value of a cell. *)
Lemma flatDensity_from_cell g a : a ∈ flatDensity g → ∃ y x, cell g y x = Some a ∧ 0 < a.
Proof.
  unfold flatDensity. intros [Ha Hin]%list_elem_of_filter.
  apply list_elem_of_In, in_concat in Hin as (row & Hrow & Hin).
  apply list_elem_of_In, list_elem_of_lookup in Hrow as [y Hy].
  apply list_elem_of_In, list_elem_of_lookup in Hin as [x Hx].
  exists y, x. split; [|done]. unfold cell. rewrite Hy. done.
Qed.

(** A value that is not positive is not ranked and is normalised to 0. *)
Lemma percentileOf_not_positive g a : a ≤ 0 → percentileOf g a = Fin 0.
Proof.
  intros Ha. destruct (decide (a = 0)) as [->|Hne]; [apply percentileOf_zero|].
  unfold percentileOf. destruct (_ =? _)%nat; [done|].
  unfold percentileMap. rewrite lookup_insert_ne by done.
  fold (uniqueValues (flatDensity g)).
  rewrite setRanks_notin; [done|].
  destruct (uniqueValues_spec (flatDensity g)) as (_ & _ & Hel).
  intros Hin%Hel. pose proof (flatDensity_positive g) as Hpos.
  pose proof (proj1 (Forall_forall _ _) Hpos a Hin). simpl in *. lia.
Qed.

(** A value with a positive value of the grid below it has a rank above 0. *)
Lemma percentileOf_above g a b :
  a ≤ 0 → b ∈ flatDensity g → positiveBelow g b →
  js_lt (percentileOf g a) (percentileOf g b).
Proof.
  intros Ha Hinb (y & x & c & Hc & Hc0 & Hcb).
  rewrite percentileOf_not_positive by done.
  assert (Hinc : c ∈ flatDensity g) by (by eapply cell_flatDensity).
  unfold percentileOf.
  destruct (length (flatDensity g) =? 0)%nat eqn:Hflat.
  { apply Nat.eqb_eq in Hflat. destruct (flatDensity g); [|done]. by apply elem_of_nil in Hinb. }
  destruct (uniqueValues_spec (flatDensity g)) as (Hnd & Hsorted & Hel).
  apply Hel, list_elem_of_lookup in Hinc as [i Hi].
  pose proof (proj1 (Forall_forall _ _) (flatDensity_positive g) b Hinb) as Hb0. simpl in Hb0.
  apply Hel, list_elem_of_lookup in Hinb as [j Hj].
  pose proof (sorted_lookup_lt _ i j c b Hsorted Hi Hj Hcb) as Hij.
  pose proof (lookup_lt_Some _ _ _ Hj) as Hlen.
  rewrite (percentileMap_lookup _ j b Hj) by lia.
  set (n := length (uniqueValues (flatDensity g))) in *.
  assert (Hn : (0 < IZR (Z.of_nat n - 1))%R) by (apply (IZR_lt 0); lia).
  unfold rank, js_of_Z. rewrite !js_div_Fin by lra. unfold js_or0, js_lt.
  apply Rdiv_lt_0_compat; [|done]. apply (IZR_lt 0). lia.
Qed.

(** The smallest positive value of the grid has rank 0. *)
Lemma percentileOf_bottom g b :
  b ∈ flatDensity g → ¬ positiveBelow g b → percentileOf g b = Fin 0.
Proof.
  intros Hinb Hno. apply percentileOf_smallest.
  destruct (uniqueValues_spec (flatDensity g)) as (Hnd & Hsorted & Hel).
  pose proof Hinb as Hj. apply Hel, list_elem_of_lookup in Hj as [j Hj].
  destruct j as [|j]; [done|]. exfalso. apply Hno.
  destruct (lookup_lt_is_Some_2 (uniqueValues (flatDensity g)) 0) as [c Hc].
  { apply lookup_lt_Some in Hj. lia. }
  pose proof (sorted_lookup_le _ 0 (S j) c b Hsorted ltac:(lia) Hc Hj) as Hle.
  assert (Hne : c ≠ b).
  { intros ->. pose proof (NoDup_lookup _ _ _ _ Hnd Hc Hj). done. }
  assert (Hinc : c ∈ flatDensity g) by (apply Hel; by eapply list_elem_of_lookup_2).
  apply flatDensity_from_cell in Hinc as (y & x & Hcell & Hpos).
  exists y, x, c. split; [done|]. lia.
Qed.

(** C4, amended.  Percentile scaling keeps the order of any two cells with
    raw values [a < b]: strictly, whenever the grid holds a positive value
    below [b], in particular whenever [a] is positive; otherwise, when [b] is
    the smallest positive value of the grid or is not positive, both cells
    are normalised to 0.  Cells with equal raw values get the same normalised
    value, and a raw 0 is normalised to 0. *)
Theorem C4_percentile_order (density : Grid) gridWidth gridHeight scaled y1 x1 y2 x2 a b :
  _applyColorScaling density "percentile" gridWidth gridHeight = Some scaled →
  (y1 < gridHeight)%nat → (x1 < gridWidth)%nat →
  (y2 < gridHeight)%nat → (x2 < gridWidth)%nat →
  cell density y1 x1 = Some a → cell density y2 x2 = Some b →
  ∃ na nb, cell scaled y1 x1 = Some na ∧ cell scaled y2 x2 = Some nb ∧
    (a < b → positiveBelow density b → js_lt na nb) ∧
    (a < b → ¬ positiveBelow density b → na = Fin 0 ∧ nb = Fin 0) ∧
    (0 < a → a < b → js_lt na nb) ∧
    (a = b → na = nb) ∧
    (a = 0 → na = Fin 0).
Proof.
  intros Hrun Hy1 Hx1 Hy2 Hx2 Ha Hb.
  exists (percentileOf density a), (percentileOf density b).
  split; [by eapply applyColorScaling_percentile|].
  split; [by eapply applyColorScaling_percentile|].
  assert (Hstrict : 0 < a → a < b →
            js_lt (percentileOf density a) (percentileOf density b)).
  { intros H0 Hab. apply percentileOf_strict; [done..| |].
    - by eapply cell_flatDensity.
    - eapply cell_flatDensity; [done|lia]. }
  split; [|split; [|split; [|split]]].
  - intros Hab Hbelow. destruct (decide (0 < a)) as [H0|H0]; [by apply Hstrict|].
    destruct Hbelow as (y & x & c & Hc & Hc0 & Hcb).
    apply percentileOf_above; [lia| |by exists y, x, c].
    eapply cell_flatDensity; [done|lia].
  - intros Hab Hno.
    assert (Ha0 : a ≤ 0).
    { destruct (decide (0 < a)) as [H0|H0]; [|lia].
      exfalso. apply Hno. by exists y1, x1, a. }
    split; [by apply percentileOf_not_positive|].
    destruct (decide (0 < b)) as [Hb0|Hb0].
    + apply percentileOf_bottom; [|done]. by eapply cell_flatDensity.
    + apply percentileOf_not_positive. lia.
  - done.
  - by intros ->.
  - intros ->. apply percentileOf_zero.
Qed.

(** ** [createHeatmap] *)

Lemma applyColorScaling_total (density : Grid) colorScaling gridWidth gridHeight :
  (gridHeight ≤ length density)%nat →
  is_Some (_applyColorScaling density colorScaling gridWidth gridHeight).
Proof.
  intros Hlen. unfold _applyColorScaling.
  pose proof (shaped_newGrid gridHeight gridWidth (Fin 0)) as Hinit.
  destruct (_ =? 0)%nat; [by eexists|].
  destruct (String.eqb colorScaling "sqrt");
    [|destruct (String.eqb colorScaling "log");
      [|destruct (String.eqb colorScaling "percentile")]];
    by apply scaleCells_total.
Qed.

Lemma normalizeAlphaDensity_total (density : Grid) gridWidth gridHeight :
  (gridHeight ≤ length density)%nat →
  is_Some (_normalizeAlphaDensity density gridWidth gridHeight).
Proof.
  intros Hlen. unfold _normalizeAlphaDensity.
  destruct (from_option _ _ _); [|by eexists].
  apply scaleCells_total; [done|apply shaped_newGrid].
Qed.

(** The ranks of the distinct values 1, 2, 3 are 0, 1/2 and 1. *)
Example percentile_ranks :
  ∃ scaled, _applyColorScaling [[3; 1; 0; 2]] "percentile" 4 1 = Some scaled ∧
    cell scaled 0 0 = Some (Fin 1) ∧ cell scaled 0 1 = Some (Fin 0) ∧
    cell scaled 0 2 = Some (Fin 0) ∧ cell scaled 0 3 = Some (Fin (1 / 2)).
Proof.
  destruct (applyColorScaling_total [[3; 1; 0; 2]] "percentile"%string 4 1) as [scaled Hs];
    [simpl; lia|].
  exists scaled. split; [done|].
  assert (Hflat : Nat.eqb (length (flatDensity [[3; 1; 0; 2]])) 0 = false)
    by (vm_compute; reflexivity).
  assert (Hrank : ∀ (k : nat) a, uniqueValues (flatDensity [[3; 1; 0; 2]]) !! k = Some a →
            a ≠ 0 → percentileOf [[3; 1; 0; 2]] a = Fin (IZR (Z.of_nat k) / 2)).
  { intros k a Hk Ha. unfold percentileOf. rewrite Hflat.
    rewrite (percentileMap_lookup _ k a Hk Ha).
    change (length (uniqueValues (flatDensity [[3; 1; 0; 2]]))) with 3%nat.
    unfold rank, js_of_Z. change (Z.of_nat 3 - 1) with 2.
    rewrite js_div_Fin; [done|]. clear. lra. }
  repeat split.
  - rewrite (applyColorScaling_percentile _ 4 1 _ 0 0 3 Hs ltac:(lia) ltac:(lia) eq_refl).
    rewrite (Hrank 2%nat 3) by (vm_compute; done). do 2 f_equal.
    change (Z.of_nat 2) with 2. lra.
  - rewrite (applyColorScaling_percentile _ 4 1 _ 0 1 1 Hs ltac:(lia) ltac:(lia) eq_refl).
    rewrite (Hrank 0%nat 1) by (vm_compute; done). do 2 f_equal.
    change (Z.of_nat 0) with 0. lra.
  - rewrite (applyColorScaling_percentile _ 4 1 _ 0 2 0 Hs ltac:(lia) ltac:(lia) eq_refl).
    apply f_equal, percentileOf_zero.
  - rewrite (applyColorScaling_percentile _ 4 1 _ 0 3 2 Hs ltac:(lia) ltac:(lia) eq_refl).
    rewrite (Hrank 1%nat 2) by (vm_compute; done). f_equal.
Qed.

(** What a returned heat map is made of. *)
Lemma createHeatmap_Some runs colorScaling visualizationType maxValue hm :
  createHeatmap runs colorScaling visualizationType maxValue = Some hm →
  (runs = [] ∧ rawVerticalDensity hm = [] ∧ rawHorizontalDensity hm = []) ∨
  (rawDensities runs visualizationType maxValue =
     Some (rawVerticalDensity hm, rawHorizontalDensity hm) ∧
   _applyColorScaling (rawVerticalDensity hm) colorScaling (gridWidth hm) (gridHeight hm) =
     Some (colorDensity hm) ∧
   _normalizeAlphaDensity (rawHorizontalDensity hm) (gridWidth hm) (gridHeight hm) =
     Some (alphaDensity hm)).
Proof.
  unfold createHeatmap. intros H.
  destruct (length runs =? 0)%nat eqn:E.
  { left. apply Nat.eqb_eq in E. simplify_eq. by destruct runs. }
  right.
  destruct (rawDensities runs visualizationType maxValue) as [[vd hd]|]; simpl in H; [|done].
  destruct (_applyColorScaling vd _ _ _) as [scaled|] eqn:Hs; simpl in H; [|done].
  destruct (_normalizeAlphaDensity hd _ _) as [alpha|] eqn:Ha; simpl in H; [|done].
  by simplify_eq.
Qed.

(** When the two raw grids are produced, the two scalings raise no
    exception of their own (the limit of an engine on the arguments of
    [Math.max(...values)] apart). *)
Lemma createHeatmap_total runs colorScaling visualizationType maxValue vd hd :
  runs ≠ [] →
  rawDensities runs visualizationType maxValue = Some (vd, hd) →
  ∃ hm, createHeatmap runs colorScaling visualizationType maxValue = Some hm ∧
        rawVerticalDensity hm = vd ∧ rawHorizontalDensity hm = hd ∧
        gridWidth hm = Nat.min (max_list (length <$> runs)) 1000 ∧
        gridHeight hm = Z.to_nat (maxValue + 1).
Proof.
  intros Hruns Hraw. unfold createHeatmap.
  destruct (length runs =? 0)%nat eqn:E.
  { apply Nat.eqb_eq in E. by destruct runs. }
  rewrite Hraw. simpl.
  apply rawDensities_shaped in Hraw as [[Hv _] [Hh _]]. simpl in *.
  destruct (applyColorScaling_total vd colorScaling
              (Nat.min (max_list (length <$> runs)) 1000) (Z.to_nat (maxValue + 1)))
    as [scaled ->]; [lia|].
  destruct (normalizeAlphaDensity_total hd
              (Nat.min (max_list (length <$> runs)) 1000) (Z.to_nat (maxValue + 1)))
    as [alpha ->]; [lia|].
  simpl. eexists. split; [done|]. done.
Qed.

(** ** The density grids of a heat map *)

(** C5. In both aggregation modes, every cell of the horizontal density of
    a produced heat map is at least the cell of the vertical density. *)
Theorem C5_horizontal_at_least_vertical runs colorScaling visualizationType maxValue
    hm y x v h :
  createHeatmap runs colorScaling visualizationType maxValue = Some hm →
  cell (rawVerticalDensity hm) y x = Some v →
  cell (rawHorizontalDensity hm) y x = Some h →
  v ≤ h.
Proof.
  intros Hhm Hv Hh. apply createHeatmap_Some in Hhm as [(_ & E & _)|(Hraw & _)].
  - by rewrite E in Hv.
  - apply rawDensities_dominates in Hraw. by apply (Hraw y x).
Qed.

(** C3, amended.  In the full-trace mode, when no run is longer than 1000
    values, so that every position of a path has a column of its own, the
    vertical densities of a column sum to at most the number of runs. *)
Theorem C3_column_sum_without_compression runs colorScaling visualizationType maxValue
    hm x :
  visualizationType ≠ "peak"%string →
  (max_list (length <$> runs) ≤ 1000)%nat →
  createHeatmap runs colorScaling visualizationType maxValue = Some hm →
  columnSum (rawVerticalDensity hm) x ≤ Z.of_nat (length runs).
Proof.
  intros Hvt Hlen Hhm. apply createHeatmap_Some in Hhm as [(-> & -> & _)|(Hraw & _)].
  - done.
  - unfold rawDensities in Hraw. destruct (maxValue + 1 <? 0); [done|].
    apply String.eqb_neq in Hvt. rewrite Hvt in Hraw.
    rewrite Nat.min_l in Hraw by done.
    apply (calculateFullDensity_columnSum _ _ _ _ _ _ x) in Hraw.
    rewrite columnSum_newGrid in Hraw. simpl in Hraw. lia.
Qed.

(** With time compression the cell (0,0) of [rawDensities_full_compressed]
    has vertical density 2 and horizontal density 3. *)
Lemma C5_horizontal_at_least_vertical_witness : 2 ≤ 3.
Proof.
  pose (runs := [[0; 1; 2]; replicate 1500 0 ++ [1; 2]]).
  assert (Hcells : (λ '(vd, hd), (cell vd 0 0, cell hd 0 0)) <$>
                     rawDensities runs "heatmap" 2 = Some (Some 2, Some 3))
    by (vm_compute; reflexivity).
  destruct (rawDensities runs "heatmap" 2) as [[vd hd]|] eqn:Hraw; [|done].
  simpl in Hcells. injection Hcells as Hv Hh.
  destruct (createHeatmap_total runs "linear" "heatmap" 2 vd hd ltac:(done) Hraw)
    as (hm & Hhm & Ev & Eh & _).
  apply (C5_horizontal_at_least_vertical runs "linear" "heatmap" 2 hm 0 0 2 3 Hhm);
    [by rewrite Ev|by rewrite Eh].
Defined.

Lemma C3_column_sum_without_compression_witness :
  ∃ hm, createHeatmap [[0; 1]; [0; 0; 1]] "linear" "heatmap" 1 = Some hm ∧
        columnSum (rawVerticalDensity hm) 0 ≤ Z.of_nat (length [[0; 1]; [0; 0; 1]]).
Proof.
  eexists. split; [reflexivity|].
  apply (C3_column_sum_without_compression [[0; 1]; [0; 0; 1]] "linear" "heatmap" 1 _ 0);
    [done | simpl; lia | reflexivity].
Defined.

(** [simulateRun] returns [longRun] for suitable draws (probability 1/2). *)
Lemma longRun_simulated :
  SimulationEngine.path <$>
    SimulationEngine.simulateRun (1 # 2) 1 2 SimulationEngine.defaultIterationSafetyLimit
      ([1 # 4; 3 # 4] ++ replicate 996 (3 # 4) ++ [1 # 4; 1 # 4])%Q 0 1
  = Some longRun.
Proof. vm_compute. reflexivity. Qed.

(** C3 fails with time compression.  One run of 1001 values is spread over
    1000 columns; its positions 0 and 1, with the values 0 and 1, share
    column 0, which gets two marks from a single run. *)
Lemma C3_column_sum_counterexample :
  ∃ hm, createHeatmap [longRun] "linear" "heatmap" 2 = Some hm ∧
        Z.of_nat (length [longRun]) < columnSum (rawVerticalDensity hm) 0.
Proof.
  assert (Hsum : match rawDensities [longRun] "heatmap" 2 with
                 | Some (vd, _) => columnSum vd 0
                 | None => 0
                 end = 2) by (vm_compute; reflexivity).
  destruct (rawDensities [longRun] "heatmap" 2) as [[vd hd]|] eqn:Hraw; [|done].
  destruct (createHeatmap_total [longRun] "linear" "heatmap" 2 vd hd)
    as (hm & Hhm & Hv & _); [done..|].
  exists hm. split; [done|]. rewrite Hv, Hsum. simpl. lia.
Qed.

Lemma C8_zero_maps_to_zero_witness :
  ∃ scaled, _applyColorScaling [[0; 1; 2]] "sqrt" 3 1 = Some scaled ∧
            cell scaled 0 0 = Some (Fin 0).
Proof.
  eexists. split; [reflexivity|].
  destruct (C8_zero_maps_to_zero [[0; 1; 2]] "sqrt" 3 1) as (Hzero & _).
  apply Hzero; [reflexivity | lia | lia | reflexivity].
Defined.

Lemma C4_percentile_order_witness :
  ∃ scaled, _applyColorScaling [[1; 2; 0]] "percentile" 3 1 = Some scaled ∧
    ∃ na nb, cell scaled 0 2 = Some na ∧ cell scaled 0 1 = Some nb ∧
      (0 < 2 → positiveBelow [[1; 2; 0]] 2 → js_lt na nb) ∧
      (0 < 2 → ¬ positiveBelow [[1; 2; 0]] 2 → na = Fin 0 ∧ nb = Fin 0) ∧
      (0 < 0 → 0 < 2 → js_lt na nb) ∧ (0 = 2 → na = nb) ∧ (0 = 0 → na = Fin 0).
Proof.
  eexists. split; [reflexivity|].
  apply (C4_percentile_order [[1; 2; 0]] 3 1 _ 0 2 0 1 0 2);
    [reflexivity | lia | lia | lia | lia | reflexivity | reflexivity].
Defined.

(** C4 fails between an empty cell and a cell with the smallest positive
    count.  Two runs towards the target 1 give the raw vertical densities
    [[2,1,0],[0,1,1]]; the distinct positive values 1 and 2 get the ranks 0
    and 1, so the raw values 0 and 1 of the cells (0,2) and (0,1) are both
    normalised to 0. *)
Lemma C4_percentile_counterexample :
  ∃ hm a b na nb,
    createHeatmap [[0; 1]; [0; 0; 1]] "percentile" "heatmap" 1 = Some hm ∧
    cell (rawVerticalDensity hm) 0 2 = Some a ∧
    cell (rawVerticalDensity hm) 0 1 = Some b ∧
    cell (colorDensity hm) 0 2 = Some na ∧
    cell (colorDensity hm) 0 1 = Some nb ∧
    a < b ∧ ¬ js_lt na nb.
Proof.
  assert (Hraw : rawDensities [[0; 1]; [0; 0; 1]] "heatmap" 1 =
                 Some ([[2; 1; 0]; [0; 1; 1]], [[2; 1; 0]; [0; 1; 1]]))
    by (vm_compute; reflexivity).
  destruct (createHeatmap_total [[0; 1]; [0; 0; 1]] "percentile" "heatmap" 1 _ _
              ltac:(done) Hraw) as (hm & Hhm & Hv & _ & Hw & Hh).
  pose proof Hhm as Hparts.
  apply createHeatmap_Some in Hparts as [(? & _)|(_ & Hscaled & _)]; [done|].
  rewrite Hv, Hw, Hh in Hscaled.
  change (Nat.min _ 1000) with 3%nat in Hscaled.
  change (Z.to_nat (1 + 1)) with 2%nat in Hscaled.
  exists hm, 0, 1, (Fin 0), (Fin 0). rewrite Hv.
  split; [done|]. split; [done|]. split; [done|]. split; [|split].
  - rewrite (applyColorScaling_percentile _ 3 2 _ 0 2 0 Hscaled
               ltac:(lia) ltac:(lia) eq_refl).
    by rewrite percentileOf_zero.
  - rewrite (applyColorScaling_percentile _ 3 2 _ 0 1 1 Hscaled
               ltac:(lia) ltac:(lia) eq_refl).
    rewrite percentileOf_smallest; [done|]. vm_compute. reflexivity.
  - split; [lia|]. simpl. lra.
Qed.

End VisualizationProps.

(* ===================================================================== *)
(** * More on the run simulator: counts, bounds, best and worst case *)
(* ===================================================================== *)

Module RunBounds.
Import SimulationEngine SimulationSpec SimulationProps.

Local Open Scope Z_scope.

Lemma runLoop_countInv initialProb decayFactor maxValue limit draws st' :
  runLoop initialProb decayFactor maxValue limit draws (mkRunState [] 0 0) = Some st' →
  countInv limit st'.
Proof.
  intros H.
  apply (runLoop_invariant initialProb decayFactor maxValue limit (countInv limit)) in H
    as [H _]; [done| |].
  - intros st r [Hv Hc Hcap] Hk.
    apply andb_true_iff in Hk as [_ Hk]. apply Z.ltb_lt in Hk.
    split; simpl.
    + apply Forall_app. split; [done|]. apply Forall_singleton. lia.
    + destruct (Qltb _ _); lia.
    + lia.
  - split; simpl; [done|lia|lia].
Qed.

(** The path holds one value per iteration, and the target at its end when
    the run completed. *)
Lemma simulateRun_length initialProb decayFactor maxValue limit draws t0 t1 r :
  simulateRun initialProb decayFactor maxValue limit draws t0 t1 = Some r →
  Z.of_nat (length (path r)) = iterations r + (if completed r then 1 else 0).
Proof.
  unfold simulateRun. intros H. apply fmap_Some in H as (st & Hrun & ->).
  apply runLoop_iterations in Hrun. unfold finishRun. simpl.
  destruct (st_counter st =? maxValue); [rewrite length_app; simpl|]; lia.
Qed.

Lemma simulateRun_values initialProb decayFactor maxValue limit draws t0 t1 r :
  simulateRun initialProb decayFactor maxValue limit draws t0 t1 = Some r →
  Forall (λ v, 0 ≤ v ≤ maxValue) (path r).
Proof.
  unfold simulateRun. intros H. apply fmap_Some in H as (st & Hrun & ->).
  pose proof (runLoop_countInv _ _ _ _ _ _ Hrun) as [Hv Hc _].
  apply runLoop_runInv in Hrun as [[_ _ _ Hb _] _].
  assert (Hboth : Forall (λ v, 0 ≤ v ≤ maxValue) (st_path st)).
  { apply Forall_forall. intros v Hin.
    pose proof (proj1 (Forall_forall _ _) Hv v Hin).
    pose proof (proj1 (Forall_forall _ _) Hb v Hin). simpl in *. lia. }
  unfold finishRun. simpl. destruct (st_counter st =? maxValue) eqn:E; [|done].
  apply Z.eqb_eq in E. apply Forall_app. split; [done|]. apply Forall_singleton. lia.
Qed.

Lemma simulateRun_iterations initialProb decayFactor maxValue limit draws t0 t1 r :
  simulateRun initialProb decayFactor maxValue limit draws t0 t1 = Some r →
  0 ≤ iterations r ≤ Z.max 0 limit ∧
  (completed r = true → maxValue ≤ iterations r) ∧
  (completed r = false → 0 ≤ maxValue → iterations r = Z.max 0 limit).
Proof.
  unfold simulateRun. intros H. apply fmap_Some in H as (st & Hrun & ->).
  pose proof (runLoop_countInv _ _ _ _ _ _ Hrun) as [_ Hc Hcap].
  apply runLoop_runInv in Hrun as [[_ _ _ _ Ht] Hk].
  unfold finishRun. simpl. split; [lia|]. split.
  - intros E. apply Z.eqb_eq in E. lia.
  - intros E Hm. apply Z.eqb_neq in E. specialize (Ht Hm).
    unfold keepRunning in Hk.
    apply andb_false_iff in Hk as [Hk|Hk]; apply Z.ltb_ge in Hk; lia.
Qed.

(** X1. In every result of [simulateRun] the length of the path is the
    number of iterations, plus one for the pushed target when the run
    completed. *)
Theorem X1_path_length initialProb decayFactor maxValue limit draws t0 t1 r :
  simulateRun initialProb decayFactor maxValue limit draws t0 t1 = Some r →
  Z.of_nat (length (path r)) = iterations r + (if completed r then 1 else 0).
Proof.
  unfold simulateRun. intros H. apply fmap_Some in H as (st & Hrun & ->).
  apply runLoop_iterations in Hrun. unfold finishRun. simpl.
  destruct (st_counter st =? maxValue); [rewrite length_app; simpl|]; lia.
Qed.

Lemma X1_path_length_witness :
  Z.of_nat (length [0; 1; 0; 1; 2]) = 4 + 1.
Proof.
  apply (X1_path_length (1 # 2) 1 2 5 [1 # 4; 3 # 4; 1 # 4; 1 # 4]%Q 0 7
           (mkRunResult [0; 1; 0; 1; 2] true 4 7 false success)).
  reflexivity.
Defined.

(** X2. Every value of a path returned by [simulateRun] lies between 0 and
    the target value, whatever the parameters and the cap. *)
Theorem X2_values_in_range initialProb decayFactor maxValue limit draws t0 t1 r :
  simulateRun initialProb decayFactor maxValue limit draws t0 t1 = Some r →
  Forall (λ v, 0 ≤ v ≤ maxValue) (path r).
Proof.
  unfold simulateRun. intros H. apply fmap_Some in H as (st & Hrun & ->).
  pose proof (runLoop_countInv _ _ _ _ _ _ Hrun) as [Hv Hc _].
  apply runLoop_runInv in Hrun as [[_ _ _ Hb _] _].
  assert (Hboth : Forall (λ v, 0 ≤ v ≤ maxValue) (st_path st)).
  { apply Forall_forall. intros v Hin.
    pose proof (proj1 (Forall_forall _ _) Hv v Hin).
    pose proof (proj1 (Forall_forall _ _) Hb v Hin). simpl in *. lia. }
  unfold finishRun. simpl. destruct (st_counter st =? maxValue) eqn:E; [|done].
  apply Z.eqb_eq in E. apply Forall_app. split; [done|]. apply Forall_singleton. lia.
Qed.

Lemma X2_values_in_range_witness :
  Forall (λ v, 0 ≤ v ≤ 2) [0; 1; 0; 1; 2].
Proof.
  apply (X2_values_in_range (1 # 2) 1 2 5 [1 # 4; 3 # 4; 1 # 4; 1 # 4]%Q 0 7
           (mkRunResult [0; 1; 0; 1; 2] true 4 7 false success)).
  reflexivity.
Defined.

(** X3. The iteration count of a result is between 0 and the cap (0 for a
    negative cap); a completed run took at least as many iterations as the
    target value; and, for a target that is not negative, a run that did not
    complete took exactly as many iterations as the cap allows. *)
Theorem X3_iteration_bounds initialProb decayFactor maxValue limit draws t0 t1 r :
  simulateRun initialProb decayFactor maxValue limit draws t0 t1 = Some r →
  0 ≤ iterations r ≤ Z.max 0 limit ∧
  (completed r = true → maxValue ≤ iterations r) ∧
  (completed r = false → 0 ≤ maxValue → iterations r = Z.max 0 limit).
Proof.
  unfold simulateRun. intros H. apply fmap_Some in H as (st & Hrun & ->).
  pose proof (runLoop_countInv _ _ _ _ _ _ Hrun) as [_ Hc Hcap].
  apply runLoop_runInv in Hrun as [[_ _ _ _ Ht] Hk].
  unfold finishRun. simpl. split; [lia|]. split.
  - intros E. apply Z.eqb_eq in E. lia.
  - intros E Hm. apply Z.eqb_neq in E. specialize (Ht Hm).
    unfold keepRunning in Hk.
    apply andb_false_iff in Hk as [Hk|Hk]; apply Z.ltb_ge in Hk; lia.
Qed.

Lemma X3_iteration_bounds_witness :
  0 ≤ 3 ≤ Z.max 0 3 ∧ (false = true → 2 ≤ 3) ∧ (false = false → 0 ≤ 2 → 3 = Z.max 0 3).
Proof.
  apply (X3_iteration_bounds (1 # 2) 1 2 3 [1 # 4; 3 # 4; 1 # 4]%Q 0 7
           (mkRunResult [0; 1; 0] false 3 7 true iteration_limit)).
  reflexivity.
Defined.

(** ** The capped probability *)

Lemma Qltb_lt (a b : Q) : Qltb a b = true ↔ (a < b)%Q.
Proof. unfold Qltb, Qlt. apply Z.ltb_lt. Qed.

Lemma Qltb_ge (a b : Q) : Qltb a b = false ↔ (b <= a)%Q.
Proof. unfold Qltb, Qle. rewrite Z.ltb_ge. done. Qed.



(** ** The fastest run and the run that never leaves the floor *)

Lemma climb_S n : climb (S n) = climb n ++ [Z.of_nat n].
Proof. unfold climb. by rewrite seq_S, fmap_app. Qed.

(** From the counter [c], reached by going up [c] times, [k] draws that all
    go up bring the counter to the target. *)
Lemma runLoop_climb initialProb decayFactor (target : nat) limit : ∀ (k c : nat) draws,
  (c + k = target)%nat → Z.of_nat target ≤ limit → (k ≤ length draws)%nat →
  (∀ (i : nat) r, (i < k)%nat → draws !! i = Some r →
     Qltb r (cappedPUp (pUp initialProb decayFactor (Z.of_nat (c + i)))) = true) →
  runLoop initialProb decayFactor (Z.of_nat target) limit draws
    (mkRunState (climb c) (Z.of_nat c) (Z.of_nat c)) =
  Some (mkRunState (climb target) (Z.of_nat target) (Z.of_nat target)).
Proof.
  induction k as [|k IH]; intros c draws Hck Hl Hlen Hup.
  - replace c with target by lia. apply runLoop_done.
    unfold keepRunning. simpl. apply andb_false_iff. left. apply Z.ltb_ge. lia.
  - destruct draws as [|r draws]; [simpl in Hlen; lia|].
    rewrite runLoop_cons.
    2: { unfold keepRunning. simpl. apply andb_true_iff. split; apply Z.ltb_lt; lia. }
    unfold loopBody. simpl st_counter. simpl st_path. simpl st_iterations.
    pose proof (Hup 0%nat r ltac:(lia) eq_refl) as E. rewrite Nat.add_0_r in E. rewrite E.
    rewrite <- climb_S. replace (Z.of_nat c + 1) with (Z.of_nat (S c)) by lia.
    apply IH; [lia|done|simpl in Hlen; lia|].
    intros i r' Hi Hr'. replace (S c + i)%nat with (c + S i)%nat by lia.
    apply (Hup (S i)); [lia|done].
Qed.

(** The test of a draw does not depend on how the probability is written. *)
Lemma Qltb_proper (r p q : Q) : (p == q)%Q → Qltb r p = Qltb r q.
Proof.
  intros E. destruct (Qltb r q) eqn:Hq.
  - apply Qltb_lt. apply Qltb_lt in Hq. by rewrite E.
  - apply Qltb_ge. apply Qltb_ge in Hq. by rewrite E.
Qed.

(** With the decay factor 1 the probability is [initialProb] at every
    level: [Math.pow(1, counter)] is 1 and [initialProb * 1] is
    [initialProb], in doubles as in the rationals. *)
Lemma pUp_constant initialProb (c : Z) : (pUp initialProb 1 c == initialProb)%Q.
Proof. unfold pUp. rewrite Qpower_1. apply Qmult_1_r. Qed.

Lemma cappedPUp_proper (p q : Q) : (p == q)%Q → (cappedPUp p == cappedPUp q)%Q.
Proof. intros E. unfold cappedPUp. by rewrite E. Qed.

(** X5. The fastest run with a constant probability.  With the decay
    factor 1 and a target of at most 100, the largest that
    [validateParameters] accepts, when each of the first [target] draws is
    below [initialProb] (and below 1, as the values of [Math.random()] are),
    and the cap allows [target] iterations, [simulateRun] completes in
    exactly [target] iterations with the path [0, 1, ..., target]. *)
Theorem X5_fastest_run initialProb (target : nat) limit draws t0 t1 :
  (target ≤ 100)%nat →
  Z.of_nat target ≤ limit →
  (target ≤ length draws)%nat →
  Forall (λ r, (r < initialProb)%Q ∧ (r < 1)%Q) (take target draws) →
  ∃ res, simulateRun initialProb 1 (Z.of_nat target) limit draws t0 t1 = Some res ∧
         path res = climb (S target) ∧ completed res = true ∧
         iterations res = Z.of_nat target ∧ reason res = success.
Proof.
  intros _ Hl Hlen Hup. unfold simulateRun.
  change (mkRunState [] 0 0) with (mkRunState (climb 0) (Z.of_nat 0) (Z.of_nat 0)).
  rewrite (runLoop_climb initialProb 1 target limit target 0 draws);
    [|lia|done|done|].
  - simpl. eexists. split; [done|]. unfold finishRun. simpl.
    rewrite Z.eqb_refl. by rewrite climb_S.
  - intros i r Hi Hr.
    assert (Hin : take target draws !! i = Some r) by (by rewrite lookup_take_lt).
    pose proof (Forall_lookup_1 _ _ _ _ Hup Hin) as [Hp H1]. simpl in Hp, H1.
    rewrite (Qltb_proper r _ (cappedPUp initialProb))
      by apply cappedPUp_proper, pUp_constant.
    apply Qltb_lt. unfold cappedPUp.
    eapply Qlt_le_trans; [|apply Q.le_max_r]. by apply Q.min_glb_lt.
Qed.

(** Probability 3/5 at every level, target 3: the draws 1/2, 2/5 and 1/5
    are below 3/5; the fourth draw is not used. *)
Lemma X5_fastest_run_witness :
  ∃ res, simulateRun (3 # 5) 1 (Z.of_nat 3) 10 [1 # 2; 2 # 5; 1 # 5; 9 # 10]%Q 0 7 = Some res ∧
         path res = climb 4 ∧ completed res = true ∧
         iterations res = Z.of_nat 3 ∧ reason res = success.
Proof.
  apply (X5_fastest_run (3 # 5) 3 10 [1 # 2; 2 # 5; 1 # 5; 9 # 10]%Q 0 7).
  - lia.
  - simpl. lia.
  - simpl. lia.
  - repeat constructor.
Defined.

(** At the floor, [k] draws that do not go up leave the counter at 0. *)
Lemma runLoop_floor initialProb decayFactor maxValue limit : ∀ (k j : nat) draws,
  0 < maxValue → Z.of_nat (j + k) = limit → (k ≤ length draws)%nat →
  (∀ (i : nat) r, (i < k)%nat → draws !! i = Some r →
     Qltb r (cappedPUp (pUp initialProb decayFactor 0)) = false) →
  runLoop initialProb decayFactor maxValue limit draws
    (mkRunState (replicate j 0) 0 (Z.of_nat j)) =
  Some (mkRunState (replicate (j + k) 0) 0 limit).
Proof.
  induction k as [|k IH]; intros j draws Hm Hl Hlen Hdown.
  - rewrite Nat.add_0_r in *. rewrite runLoop_done; [by rewrite Hl|].
    unfold keepRunning. simpl. apply andb_false_iff. right. apply Z.ltb_ge. lia.
  - destruct draws as [|r draws]; [simpl in Hlen; lia|].
    rewrite runLoop_cons.
    2: { unfold keepRunning. simpl. apply andb_true_iff. split; apply Z.ltb_lt; lia. }
    unfold loopBody. simpl st_counter. simpl st_path. simpl st_iterations.
    rewrite (Hdown 0%nat r ltac:(lia) eq_refl).
    change (Z.max 0 (0 - 1)) with 0.
    replace (replicate j 0 ++ [0]) with (replicate (S j) 0)
      by (by rewrite replicate_S_end).
    replace (Z.of_nat j + 1) with (Z.of_nat (S j)) by lia.
    replace (j + S k)%nat with (S j + k)%nat by lia.
    apply IH; [done|lia|simpl in Hlen; lia|].
    intros i r' Hi Hr'. apply (Hdown (S i)); [lia|done].
Qed.

(** The result of a run that never leaves the floor. *)
Lemma simulateRun_floor initialProb decayFactor maxValue (cap : nat) draws t0 t1 :
  0 < maxValue →
  (cap ≤ length draws)%nat →
  (∀ (i : nat) r, (i < cap)%nat → draws !! i = Some r →
     Qltb r (cappedPUp (pUp initialProb decayFactor 0)) = false) →
  simulateRun initialProb decayFactor maxValue (Z.of_nat cap) draws t0 t1 =
  Some (mkRunResult (replicate cap 0) false (Z.of_nat cap) (t1 - t0) true iteration_limit).
Proof.
  intros Hm Hlen Hdown. unfold simulateRun.
  change (mkRunState [] 0 0) with (mkRunState (replicate 0 0) 0 (Z.of_nat 0)).
  rewrite (runLoop_floor initialProb decayFactor maxValue (Z.of_nat cap) cap 0 draws);
    [|done|done|done|done].
  cbn [fmap option_fmap option_map].
  unfold finishRun. cbn [st_counter st_path st_iterations].
  assert (E : (0 =? maxValue) = false) by lia.
  assert (G : (Z.of_nat cap >=? Z.of_nat cap) = true) by lia.
  rewrite E, G. done.
Qed.

(** X6. The run that never leaves the floor.  For a positive target, when
    none of the first [cap] draws is below the capped probability of level 0,
    [simulateRun] ends at the cap: the path is [cap] times 0, the run is not
    completed and its reason is [iteration_limit]. *)
Theorem X6_stuck_at_floor initialProb decayFactor maxValue (cap : nat) draws t0 t1 :
  0 < maxValue →
  (cap ≤ length draws)%nat →
  (∀ (i : nat) r, (i < cap)%nat → draws !! i = Some r →
     Qltb r (cappedPUp (pUp initialProb decayFactor 0)) = false) →
  ∃ res, simulateRun initialProb decayFactor maxValue (Z.of_nat cap) draws t0 t1 = Some res ∧
         path res = replicate cap 0 ∧ completed res = false ∧
         iterations res = Z.of_nat cap ∧ reason res = iteration_limit.
Proof.
  intros Hm Hlen Hdown. unfold simulateRun.
  change (mkRunState [] 0 0) with (mkRunState (replicate 0 0) 0 (Z.of_nat 0)).
  rewrite (runLoop_floor initialProb decayFactor maxValue (Z.of_nat cap) cap 0 draws);
    [|done|done|done|done].
  cbn [fmap option_fmap option_map]. eexists. split; [done|].
  unfold finishRun. cbn [st_counter st_path st_iterations].
  assert (E : (0 =? maxValue) = false) by lia.
  assert (G : (Z.of_nat cap >=? Z.of_nat cap) = true) by lia.
  rewrite E, G. done.
Qed.

Lemma X6_stuck_at_floor_witness :
  ∃ res, simulateRun (1 # 1000) 1 50 (Z.of_nat 4) (replicate 4 (1 # 2)%Q) 0 7 = Some res ∧
         path res = replicate 4 0 ∧ completed res = false ∧
         iterations res = Z.of_nat 4 ∧ reason res = iteration_limit.
Proof.
  apply (X6_stuck_at_floor (1 # 1000) 1 50 4 (replicate 4 (1 # 2)%Q) 0 7).
  - lia.
  - simpl. lia.
  - intros i r Hi Hr. apply lookup_replicate in Hr as [-> _]. reflexivity.
Defined.

(** A completed run with a positive cap is a path from 0 to the target. *)
Lemma simulateRun_complete initialProb decayFactor maxValue limit draws t0 t1 r :
  0 < limit →
  simulateRun initialProb decayFactor maxValue limit draws t0 t1 = Some r →
  completed r = true → completePath maxValue (path r).
Proof.
  intros Hl H Hc.
  pose proof (simulateRun_length _ _ _ _ _ _ _ _ H) as Hlen.
  pose proof (simulateRun_iterations _ _ _ _ _ _ _ _ H) as (_ & Hit & _).
  pose proof (simulateRun_values _ _ _ _ _ _ _ _ H) as Hval.
  pose proof (simulateRun_validSteps _ _ _ _ _ _ _ _ H) as Hsteps.
  rewrite Hc in Hlen. specialize (Hit Hc).
  split; [| |done|done|lia].
  - destruct (decide (0 < maxValue)) as [Hm|Hm].
    + unfold simulateRun in H. apply fmap_Some in H as (st & Hrun & ->).
      pose proof (runLoop_first _ _ _ _ _ _ Hm Hl Hrun) as Hfirst.
      unfold finishRun. simpl. destruct (st_counter st =? maxValue); [|done].
      rewrite lookup_app_l; [done|]. by eapply lookup_lt_Some.
    + rewrite simulateRun_no_pass in H by lia. simplify_eq.
      unfold finishRun in *. simpl in *. by destruct maxValue.
  - unfold simulateRun in H. apply fmap_Some in H as (st & Hrun & ->).
    unfold finishRun in *. simpl in *.
    destruct (st_counter st =? maxValue); [|done]. by rewrite last_snoc.
Qed.

End RunBounds.

(* ===================================================================== *)
(** * More on the batch scheduler: counts, the end of the loop, statistics *)
(* ===================================================================== *)

Module BatchMore.
Import SimulationEngine SimulationSpec SimulationProps BatchProps RunBounds.
Local Open Scope Z_scope.

(** The rule of the scheduler loop: a property kept by the console lines of
    the time checks and by the bookkeeping of an attempt holds at the end. *)
Lemma batchLoop_invariant p (P : BatchState → Prop) :
  (∀ st lines, P st →
     P (mkBatchState (b_allAttempts st) (b_completedRuns st) (b_failedRuns st)
          (b_totalAttempts st) (b_successfulRuns st) (b_shouldStop st)
          (b_console st ++ lines))) →
  (∀ st result stop draws t0 t1, P st → goesOn p st = true →
     simulateRun (initialProb p) (decayFactor p) (maxValue p)
       (iterationLimit (totalTimeLimit p)) draws t0 t1 = Some result →
     let st3 := recordAttempt result
       (mkBatchState (b_allAttempts st) (b_completedRuns st) (b_failedRuns st)
          (b_totalAttempts st + 1) (b_successfulRuns st) (b_shouldStop st) (b_console st)) in
     P (mkBatchState (b_allAttempts st3) (b_completedRuns st3) (b_failedRuns st3)
          (b_totalAttempts st3) (b_successfulRuns st3) (b_shouldStop st3 || stop)
          (b_console st3))) →
  ∀ turns st st', P st → batchLoop p turns st = Some st' → P st'.
Proof.
  intros Hlines Hstep. induction turns as [|t turns IH]; intros st st' HP H; simpl in H.
  - destruct (_ && _); [done|]. by simplify_eq.
  - destruct (_ && _) eqn:Hg; [|by simplify_eq].
    destruct (timeChecks _ _) as [lines leave]. destruct leave.
    + simplify_eq. by apply Hlines.
    + destruct (simulateRun _ _ _ _ _ _ _) as [result|] eqn:Hrun; [|done].
      eapply IH; [|exact H].
      apply (Hstep _ result (t_stopCalled t) _ _ _ (Hlines st lines HP) Hg Hrun).
Qed.

Lemma batchLoop_counted p turns st st' :
  counted (b_allAttempts st) (b_completedRuns st) (b_failedRuns st)
    (b_totalAttempts st) (b_successfulRuns st) →
  batchLoop p turns st = Some st' →
  counted (b_allAttempts st') (b_completedRuns st') (b_failedRuns st')
    (b_totalAttempts st') (b_successfulRuns st').
Proof.
  apply (batchLoop_invariant p (λ s, counted (b_allAttempts s) (b_completedRuns s)
           (b_failedRuns s) (b_totalAttempts s) (b_successfulRuns s))).
  - intros s lines H. exact H.
  - intros s result stop draws t0 t1 [H1 H2 H3] _ _. unfold recordAttempt. simpl.
    destruct (completed result); simpl; split; rewrite ?length_app; simpl; lia.
Qed.

Lemma batchLoop_parted p turns st st' :
  parted (b_allAttempts st) (b_completedRuns st) (b_failedRuns st) →
  batchLoop p turns st = Some st' →
  parted (b_allAttempts st') (b_completedRuns st') (b_failedRuns st').
Proof.
  apply (batchLoop_invariant p (λ s, parted (b_allAttempts s) (b_completedRuns s)
           (b_failedRuns s))).
  - intros s lines H. exact H.
  - intros s result stop draws t0 t1 [H1 H2] _ _. unfold recordAttempt. simpl.
    destruct (completed result) eqn:E; simpl; split; rewrite !filter_app, ?fmap_app.
    + rewrite (filter_cons_True _ result []) by done. by rewrite <- H1.
    + rewrite (filter_cons_False _ result []) by (by rewrite E). by rewrite app_nil_r.
    + rewrite (filter_cons_False _ result []) by (by rewrite E).
      by rewrite app_nil_r.
    + rewrite (filter_cons_True _ result []) by done. by rewrite <- H2.
Qed.


(** The accumulators of a loop state, as the returned object holds them. *)
Lemma runMultipleSimulations_Some p existing turns endElapsed res console :
  runMultipleSimulations p existing turns endElapsed = Some (res, console) →
  ∃ st, batchLoop p turns (initialState existing) = Some st ∧
        res = batchResult p existing endElapsed st ∧ console = b_console st.
Proof.
  unfold runMultipleSimulations. intros H. apply fmap_Some in H as (st & Hloop & Heq).
  exists st. by simplify_eq.
Qed.

(** X7. The counts of the returned object agree with its lists: when the
    call starts afresh, or continues from results whose counts agree,
    [actualSuccesses] is the number of completed paths, [totalAttempts] the
    number of attempts, and [totalAttempts] is [actualSuccesses] plus
    [totalIncomplete]. *)
Theorem X7_counts_agree p existing turns endElapsed res console :
  (∀ e, existing = Some e → countsAgree e) →
  runMultipleSimulations p existing turns endElapsed = Some (res, console) →
  actualSuccesses res = Z.of_nat (length (completedRuns res)) ∧
  totalAttempts res = Z.of_nat (length (allAttempts res)) ∧
  totalAttempts res = actualSuccesses res + totalIncomplete res.
Proof.
  intros He H. apply runMultipleSimulations_Some in H as (st & Hloop & -> & _).
  apply batchLoop_counted in Hloop as [H1 H2 H3]; [by simpl|].
  destruct existing as [e|]; simpl; [by apply He|]. by split.
Qed.

Lemma X7_counts_agree_witness :
  let p := mkBatchParams 2 (1 # 2) 1 1 (Some 2000) in
  let turns := [mkTurn 0 [3 # 4; 1 # 4]%Q 1 5 false; mkTurn 2500 [] 0 0 false] in
  ∃ res console,
    runMultipleSimulations p None turns 2501 = Some (res, console) ∧
    actualSuccesses res = Z.of_nat (length (completedRuns res)) ∧
    totalAttempts res = Z.of_nat (length (allAttempts res)) ∧
    totalAttempts res = actualSuccesses res + totalIncomplete res.
Proof.
  intros p turns. eexists _, _. split; [reflexivity|].
  eapply (X7_counts_agree p None turns 2501); [intros e He; discriminate He|reflexivity].
Defined.

(** X8. [completedRuns] holds the paths of the completed attempts of
    [allAttempts] and [failedRuns] the attempts that did not complete, both
    in the order of [allAttempts] (when the call starts afresh, or continues
    from results of which this holds). *)
Theorem X8_attempts_partition p existing turns endElapsed res console :
  (∀ e, existing = Some e → parted (allAttempts e) (completedRuns e) (failedRuns e)) →
  runMultipleSimulations p existing turns endElapsed = Some (res, console) →
  completedRuns res = path <$> filter (λ a, completed a = true) (allAttempts res) ∧
  failedRuns res = filter (λ a, completed a = false) (allAttempts res).
Proof.
  intros He H. apply runMultipleSimulations_Some in H as (st & Hloop & -> & _).
  apply batchLoop_parted in Hloop; [by simpl|].
  destruct existing as [e|]; simpl; [by apply He|]. by split.
Qed.


Lemma X8_attempts_partition_witness :
  let p := mkBatchParams 2 (1 # 2) 1 1 (Some 2000) in
  let turns := [mkTurn 0 [3 # 4; 1 # 4]%Q 1 5 false; mkTurn 2500 [] 0 0 false] in
  ∃ res console,
    runMultipleSimulations p None turns 2501 = Some (res, console) ∧
    completedRuns res = path <$> filter (λ a, completed a = true) (allAttempts res) ∧
    failedRuns res = filter (λ a, completed a = false) (allAttempts res).
Proof.
  intros p turns. eexists _, _. split; [reflexivity|].
  eapply (X8_attempts_partition p None turns 2501); [intros e He; discriminate He|reflexivity].
Defined.

(** ** How the loop ends *)

Lemma timeChecks_leave totalTimeLimit elapsed lines :
  timeChecks totalTimeLimit elapsed = (lines, true) →
  (lines = [log_hit_time_limit] ∧
   ∃ limit, totalTimeLimit = Some limit ∧ limit ≠ 0 ∧ limit < elapsed) ∨
  (lines = [warn_long_running; error_safety_stop] ∧
   truthy totalTimeLimit = false ∧ 300000 < elapsed).
Proof.
  unfold timeChecks. destruct totalTimeLimit as [limit|]; simpl.
  - destruct (limit =? 0) eqn:E0; simpl.
    + destruct (elapsed >? 60000); [|done]. destruct (elapsed >? 120000); [|done].
      destruct (elapsed >? 300000) eqn:E3; [|done]. intros ?; simplify_eq. right.
      split; [done|]. split; [done|]. lia.
    + destruct (elapsed >? limit) eqn:E1; [|done]. intros ?; simplify_eq. left.
      split; [done|]. exists limit. split; [done|]. split; lia.
  - destruct (elapsed >? 60000); [|done]. destruct (elapsed >? 120000); [|done].
    destruct (elapsed >? 300000) eqn:E3; [|done]. intros ?; simplify_eq. right.
    split; [done|]. split; [done|]. lia.
Qed.

Lemma timeChecks_stay totalTimeLimit elapsed lines :
  timeChecks totalTimeLimit elapsed = (lines, false) → log_hit_time_limit ∉ lines.
Proof.
  unfold timeChecks. destruct (_ && _); [done|].
  destruct (_ && _); [|intros ?; simplify_eq; apply not_elem_of_nil].
  destruct (elapsed >? 120000); [|intros ?; simplify_eq; apply not_elem_of_nil].
  destruct (elapsed >? 300000); [done|]. intros ?; simplify_eq.
  by intros ?%list_elem_of_singleton.
Qed.

(** The loop is left because its condition fails, or by one of the two
    [break]s, right after the line of that [break] is written. *)
Lemma batchLoop_exit p turns : ∀ st st',
  batchLoop p turns st = Some st' →
  goesOn p st' = false ∨
  (goesOn p st' = true ∧
   ∃ t lines c, t ∈ turns ∧
     timeChecks (totalTimeLimit p) (t_elapsed t) = (lines, true) ∧
     b_console st' = c ++ lines).
Proof.
  induction turns as [|t turns IH]; intros st st' H; simpl in H.
  - fold (goesOn p st) in H. destruct (goesOn p st) eqn:Hg; [done|]. simplify_eq. by left.
  - fold (goesOn p st) in H. destruct (goesOn p st) eqn:Hg; [|simplify_eq; by left].
    destruct (timeChecks _ _) as [lines leave] eqn:Htc. destruct leave.
    + simplify_eq. right. split; [done|]. exists t, lines, (b_console st).
      split; [by left|]. done.
    + destruct (simulateRun _ _ _ _ _ _ _) as [result|]; [|done].
      apply IH in H as [H|(Hg' & t' & lines' & c & Ht' & H1 & H2)]; [by left|].
      right. split; [done|]. exists t', lines', c. split; [by right|]. done.
Qed.

(** The line of the time limit is written only by the [break] of the time
    limit. *)
Lemma batchLoop_time_break p turns : ∀ st st',
  batchLoop p turns st = Some st' →
  log_hit_time_limit ∈ b_console st' →
  log_hit_time_limit ∈ b_console st ∨
  (goesOn p st' = true ∧
   ∃ t limit, t ∈ turns ∧ totalTimeLimit p = Some limit ∧ limit ≠ 0 ∧ limit < t_elapsed t).
Proof.
  induction turns as [|t turns IH]; intros st st' H Hin; simpl in H.
  - fold (goesOn p st) in H. destruct (goesOn p st) eqn:Hg; [done|]. simplify_eq. by left.
  - fold (goesOn p st) in H. destruct (goesOn p st) eqn:Hg; [|simplify_eq; by left].
    destruct (timeChecks _ _) as [lines leave] eqn:Htc. destruct leave.
    + simplify_eq. simpl in Hin. apply elem_of_app in Hin as [Hin|Hin]; [by left|].
      apply timeChecks_leave in Htc as [(-> & limit & Hl & H0 & Hlt)|(-> & _)].
      * right. split; [done|]. exists t, limit. split; [by left|]. done.
      * apply elem_of_cons in Hin as [?|Hin]; [done|].
        by apply list_elem_of_singleton in Hin.
    + destruct (simulateRun _ _ _ _ _ _ _) as [result|]; [|done].
      apply (IH _ _ H) in Hin as [Hin|(Hg' & t' & limit & Ht' & Hrest)].
      * left. unfold recordAttempt in Hin. apply timeChecks_stay in Htc.
        destruct (completed result); simpl in Hin;
          apply elem_of_app in Hin as [Hin|Hin]; done.
      * right. split; [done|]. exists t', limit. split; [by right|]. done.
Qed.

Lemma batchLoop_bounded p turns st st' :
  b_successfulRuns st ≤ numRuns p →
  batchLoop p turns st = Some st' → b_successfulRuns st' ≤ numRuns p.
Proof.
  apply (batchLoop_invariant p (λ s, b_successfulRuns s ≤ numRuns p)).
  - intros s lines H. exact H.
  - intros s result stop draws t0 t1 H Hg _. unfold goesOn in Hg.
    apply andb_true_iff in Hg as [Hg _]. apply Z.ltb_lt in Hg.
    unfold recordAttempt. simpl. destruct (completed result); simpl; lia.
Qed.

(** X9. When the successes at the start do not exceed [numRuns], the
    returned [actualSuccesses] does not exceed [desiredSuccesses], and the
    call has ended for one of these reasons: the desired count is reached,
    [stop()] was called, or the loop was left by the [break] of the time limit
    or of the five-minute safety stop, whose line is then the last one
    written to the console. *)
Theorem X9_how_the_batch_ends p existing turns endElapsed res console :
  from_option actualSuccesses 0 existing ≤ numRuns p →
  runMultipleSimulations p existing turns endElapsed = Some (res, console) →
  actualSuccesses res ≤ desiredSuccesses res ∧
  (reachedDesiredCount res = true ∨ wasStopped res = true ∨
   last console = Some log_hit_time_limit ∨ last console = Some error_safety_stop).
Proof.
  intros He H. apply runMultipleSimulations_Some in H as (st & Hloop & -> & ->).
  assert (Hle : b_successfulRuns st ≤ numRuns p).
  { eapply batchLoop_bounded; [|exact Hloop]. by destruct existing. }
  simpl. split; [done|].
  apply batchLoop_exit in Hloop as [Hg|(_ & t & lines & c & _ & Htc & ->)].
  - unfold goesOn in Hg. apply andb_false_iff in Hg as [Hg|Hg].
    + left. apply Z.ltb_ge in Hg. apply Z.eqb_eq. lia.
    + right. left. by destruct (b_shouldStop st).
  - right. right. apply timeChecks_leave in Htc as [(-> & _)|(-> & _)].
    + left. by rewrite last_snoc.
    + right. change [warn_long_running; error_safety_stop]
        with ([warn_long_running] ++ [error_safety_stop]).
      by rewrite app_assoc, last_snoc.
Qed.

Lemma X9_how_the_batch_ends_witness :
  let p := mkBatchParams 2 (1 # 2) 1 1 (Some 2000) in
  let turns := [mkTurn 0 [3 # 4; 1 # 4]%Q 1 5 false; mkTurn 2500 [] 0 0 false] in
  ∃ res console,
    runMultipleSimulations p None turns 2501 = Some (res, console) ∧
    actualSuccesses res ≤ desiredSuccesses res ∧
    (reachedDesiredCount res = true ∨ wasStopped res = true ∨
     last console = Some log_hit_time_limit ∨ last console = Some error_safety_stop).
Proof.
  intros p turns. eexists _, _. split; [reflexivity|].
  eapply (X9_how_the_batch_ends p None turns 2501); [simpl; lia|reflexivity].
Defined.

(** After the [break] of the time limit the flags of the returned object
    tell so. *)
Lemma runMultipleSimulations_time_break p existing turns endElapsed res console :
  (∀ t, t ∈ turns → t_elapsed t ≤ endElapsed) →
  0 ≤ previousTimeMs existing →
  runMultipleSimulations p existing turns endElapsed = Some (res, console) →
  log_hit_time_limit ∈ console →
  hitTimeLimit res = true ∧ reachedDesiredCount res = false ∧ wasStopped res = false.
Proof.
  intros Hclock Hprev H Hin.
  apply runMultipleSimulations_Some in H as (st & Hloop & -> & ->).
  apply (batchLoop_time_break _ _ _ _ Hloop) in Hin
    as [Hin|(Hg & t & limit & Ht & Hl & H0 & Hlt)].
  { destruct existing; simpl in Hin; by apply elem_of_nil in Hin. }
  unfold goesOn in Hg. apply andb_true_iff in Hg as [Hs Hstop]. apply Z.ltb_lt in Hs.
  specialize (Hclock t Ht). simpl. rewrite Hl. simpl.
  split; [|split].
  - apply andb_true_iff. split; [apply negb_true_iff; by apply Z.eqb_neq|].
    apply Z.geb_le. lia.
  - apply Z.eqb_neq. lia.
  - by apply negb_true_iff in Hstop.
Qed.

(** X10. When the loop is left by the [break] of the time limit, and the
    clock does not run backwards, the returned object has [hitTimeLimit] true,
    [reachedDesiredCount] false and [wasStopped] false. *)
Theorem X10_time_limit_break p existing turns endElapsed res console :
  (∀ t, t ∈ turns → t_elapsed t ≤ endElapsed) →
  0 ≤ previousTimeMs existing →
  runMultipleSimulations p existing turns endElapsed = Some (res, console) →
  log_hit_time_limit ∈ console →
  hitTimeLimit res = true ∧ reachedDesiredCount res = false ∧ wasStopped res = false.
Proof.
  intros Hclock Hprev H Hin.
  apply runMultipleSimulations_Some in H as (st & Hloop & -> & ->).
  apply (batchLoop_time_break _ _ _ _ Hloop) in Hin
    as [Hin|(Hg & t & limit & Ht & Hl & H0 & Hlt)].
  { destruct existing; simpl in Hin; by apply elem_of_nil in Hin. }
  unfold goesOn in Hg. apply andb_true_iff in Hg as [Hs Hstop]. apply Z.ltb_lt in Hs.
  specialize (Hclock t Ht). simpl. rewrite Hl. simpl.
  split; [|split].
  - apply andb_true_iff. split; [apply negb_true_iff; by apply Z.eqb_neq|].
    apply Z.geb_le. lia.
  - apply Z.eqb_neq. lia.
  - by apply negb_true_iff in Hstop.
Qed.

Lemma X10_time_limit_break_witness :
  let p := mkBatchParams 2 (1 # 2) 1 1 (Some 2000) in
  let turns := [mkTurn 0 [3 # 4; 1 # 4]%Q 1 5 false; mkTurn 2500 [] 0 0 false] in
  ∃ res console,
    runMultipleSimulations p None turns 2501 = Some (res, console) ∧
    hitTimeLimit res = true ∧ reachedDesiredCount res = false ∧ wasStopped res = false.
Proof.
  intros p turns. eexists _, _. split; [reflexivity|].
  eapply (X10_time_limit_break p None turns 2501).
  - intros t Ht. repeat (apply elem_of_cons in Ht as [->|Ht]; [simpl; lia|]).
    by apply elem_of_nil in Ht.
  - simpl. lia.
  - reflexivity.
  - simpl. apply list_elem_of_singleton. reflexivity.
Defined.


(** ** The attempts a call adds *)

(** The completed paths a call adds are paths from 0 to the target. *)
Lemma batchLoop_completed p turns st st' :
  batchLoop p turns st = Some st' →
  ∃ new, b_completedRuns st' = b_completedRuns st ++ new ∧
         Forall (completePath (maxValue p)) new.
Proof.
  intros H.
  apply (batchLoop_invariant p (λ s, ∃ new, b_completedRuns s = b_completedRuns st ++ new ∧
           Forall (completePath (maxValue p)) new)) in H; [done| | |].
  - intros s lines Hs. exact Hs.
  - intros s result stop draws t0 t1 (new & Hnew & Hall) _ Hrun.
    unfold recordAttempt. simpl. destruct (completed result) eqn:E; simpl.
    + exists (new ++ [path result]). split; [by rewrite Hnew, app_assoc|].
      apply Forall_app. split; [done|]. apply Forall_singleton.
      eapply simulateRun_complete; [|exact Hrun|done].
      destruct (totalTimeLimit p); done.
    + by exists new.
  - exists []. by rewrite app_nil_r.
Qed.

(** The failed attempts a call adds ended at the iteration cap. *)
Lemma batchLoop_failed p turns st st' :
  0 ≤ maxValue p →
  batchLoop p turns st = Some st' →
  ∃ new, b_failedRuns st' = b_failedRuns st ++ new ∧
         Forall (exhausted (iterationLimit (totalTimeLimit p))) new.
Proof.
  intros Hm H.
  apply (batchLoop_invariant p (λ s, ∃ new, b_failedRuns s = b_failedRuns st ++ new ∧
           Forall (exhausted (iterationLimit (totalTimeLimit p))) new)) in H; [done| | |].
  - intros s lines Hs. exact Hs.
  - intros s result stop draws t0 t1 (new & Hnew & Hall) _ Hrun.
    unfold recordAttempt. simpl. destruct (completed result) eqn:E; simpl.
    + by exists new.
    + exists (new ++ [result]). split; [by rewrite Hnew, app_assoc|].
      apply Forall_app. split; [done|]. apply Forall_singleton.
      pose proof (simulateRun_length _ _ _ _ _ _ _ _ Hrun) as Hlen.
      pose proof (simulateRun_iterations _ _ _ _ _ _ _ _ Hrun) as (_ & _ & Hit).
      specialize (Hit E Hm). rewrite E in Hlen.
      assert (Hcap : Z.max 0 (iterationLimit (totalTimeLimit p)) =
                     iterationLimit (totalTimeLimit p)).
      { destruct (totalTimeLimit p); done. }
      rewrite Hcap in Hit.
      split; [done| |done|lia].
      unfold simulateRun in Hrun. apply fmap_Some in Hrun as (rs & _ & ->).
      unfold finishRun in *. simpl in *.
      destruct (st_counter rs =? maxValue p); [done|].
      assert (G : (st_iterations rs >=? iterationLimit (totalTimeLimit p)) = true) by lia.
      by rewrite G.
  - exists []. by rewrite app_nil_r.
Qed.

(** X11. Every path that a call adds to [completedRuns] starts with 0,
    ends with the target value, has only valid steps and values between 0 and
    the target, and is longer than the target value. *)
Theorem X11_completed_runs_are_paths p existing turns endElapsed res console :
  runMultipleSimulations p existing turns endElapsed = Some (res, console) →
  ∃ new, completedRuns res = from_option completedRuns [] existing ++ new ∧
         Forall (completePath (maxValue p)) new.
Proof.
  intros H. apply runMultipleSimulations_Some in H as (st & Hloop & -> & _).
  apply batchLoop_completed in Hloop as (new & Hnew & Hall).
  exists new. split; [|done]. simpl. rewrite Hnew. by destruct existing.
Qed.

Lemma X11_completed_runs_are_paths_witness :
  let p := mkBatchParams 2 (1 # 2) 1 1 (Some 2000) in
  let turns := [mkTurn 0 [3 # 4; 1 # 4]%Q 1 5 false; mkTurn 2500 [] 0 0 false] in
  ∃ res console,
    runMultipleSimulations p None turns 2501 = Some (res, console) ∧
    ∃ new, completedRuns res = from_option completedRuns [] None ++ new ∧
           Forall (completePath (maxValue p)) new.
Proof.
  intros p turns. eexists _, _. split; [reflexivity|].
  eapply (X11_completed_runs_are_paths p None turns 2501). reflexivity.
Defined.

(** Unfolding the scheduler loop by one pass. *)
Lemma batchLoop_attempt p t turns st result :
  goesOn p st = true →
  timeChecks (totalTimeLimit p) (t_elapsed t) = ([], false) →
  simulateRun (initialProb p) (decayFactor p) (maxValue p)
    (iterationLimit (totalTimeLimit p)) (t_draws t) (t_runStart t) (t_runEnd t) = Some result →
  batchLoop p (t :: turns) st =
  batchLoop p turns
    (let st3 := recordAttempt result
       (mkBatchState (b_allAttempts st) (b_completedRuns st) (b_failedRuns st)
          (b_totalAttempts st + 1) (b_successfulRuns st) (b_shouldStop st)
          (b_console st ++ [])) in
     mkBatchState (b_allAttempts st3) (b_completedRuns st3) (b_failedRuns st3)
       (b_totalAttempts st3) (b_successfulRuns st3) (b_shouldStop st3 || t_stopCalled t)
       (b_console st3)).
Proof.
  intros Hg Hc Hrun. unfold goesOn in Hg. cbn [batchLoop]. rewrite Hg, Hc.
  cbn [b_allAttempts b_completedRuns b_failedRuns b_totalAttempts b_successfulRuns
       b_shouldStop b_console]. by rewrite Hrun.
Qed.

Lemma batchLoop_break p t turns st lines :
  goesOn p st = true →
  timeChecks (totalTimeLimit p) (t_elapsed t) = (lines, true) →
  batchLoop p (t :: turns) st =
  Some (mkBatchState (b_allAttempts st) (b_completedRuns st) (b_failedRuns st)
          (b_totalAttempts st) (b_successfulRuns st) (b_shouldStop st)
          (b_console st ++ lines)).
Proof.
  intros Hg Hc. unfold goesOn in Hg. cbn [batchLoop]. by rewrite Hg, Hc.
Qed.

(** A call whose first attempt never leaves the floor and ends at the cap,
    and which is then left by the time limit: the attempt is the one element
    of [failedRuns]. *)
Lemma failed_attempt_batch (cap : nat) :
  Z.of_nat cap = defaultIterationSafetyLimit →
  let p := mkBatchParams 1 (1 # 2) 1 1 (Some 2000) in
  let turns := [mkTurn 0 (replicate cap (3 # 4)%Q) 1 5 false; mkTurn 2500 [] 0 0 false] in
  ∃ res console,
    runMultipleSimulations p None turns 2501 = Some (res, console) ∧
    failedRuns res =
      [mkRunResult (replicate cap 0) false defaultIterationSafetyLimit 4 true iteration_limit].
Proof.
  intros Hcap p turns. unfold runMultipleSimulations, turns.
  assert (Hrun : simulateRun (initialProb p) (decayFactor p) (maxValue p)
            (iterationLimit (totalTimeLimit p)) (replicate cap (3 # 4)%Q) 1 5 =
          Some (mkRunResult (replicate cap 0) false defaultIterationSafetyLimit 4 true
                  iteration_limit)).
  { change (iterationLimit (totalTimeLimit p)) with defaultIterationSafetyLimit.
    rewrite <- Hcap. apply (simulateRun_floor (1 # 2) 1 1 cap (replicate cap (3 # 4)%Q) 1 5).
    - lia.
    - by rewrite length_replicate.
    - intros i r Hi Hr. apply lookup_replicate in Hr as [-> _]. reflexivity. }
  rewrite (batchLoop_attempt p (mkTurn 0 (replicate cap (3 # 4)%Q) 1 5 false) _
             (initialState None) _ eq_refl eq_refl Hrun).
  cbn [recordAttempt completed initialState b_allAttempts b_completedRuns b_failedRuns
       b_totalAttempts b_successfulRuns b_shouldStop b_console t_stopCalled orb app].
  erewrite batchLoop_break; [|reflexivity|reflexivity].
  cbn [fmap option_fmap option_map]. eexists _, _. split; [reflexivity|]. reflexivity.
Qed.

(** X12. In a call with a time limit (the initial and the extended phase),
    for a target that is not negative, every attempt that the call adds to
    [failedRuns] ended at the iteration cap 10000000: it is not completed, its
    reason is [iteration_limit], and its iteration count and the length of its
    path are the cap.  (Without a time limit the cap is
    [Number.MAX_SAFE_INTEGER], more values than an array can hold, and an
    attempt that does not complete does not return.) *)
Theorem X12_failed_attempts_exhausted p existing turns endElapsed res console :
  0 ≤ maxValue p →
  is_Some (totalTimeLimit p) →
  runMultipleSimulations p existing turns endElapsed = Some (res, console) →
  ∃ new, failedRuns res = from_option failedRuns [] existing ++ new ∧
         Forall (exhausted defaultIterationSafetyLimit) new.
Proof.
  intros Hm [limit Hlimit] H. apply runMultipleSimulations_Some in H as (st & Hloop & -> & _).
  apply batchLoop_failed in Hloop as (new & Hnew & Hall); [|done].
  rewrite Hlimit in Hall.
  exists new. split; [|done]. simpl. rewrite Hnew. by destruct existing.
Qed.

(** The first attempt of the call stays at the floor for 10000000 draws
    and is added to [failedRuns]; the time limit then ends the call. *)
Lemma X12_failed_attempts_exhausted_witness :
  let p := mkBatchParams 1 (1 # 2) 1 1 (Some 2000) in
  let cap := Z.to_nat defaultIterationSafetyLimit in
  let turns := [mkTurn 0 (replicate cap (3 # 4)%Q) 1 5 false; mkTurn 2500 [] 0 0 false] in
  ∃ res console,
    runMultipleSimulations p None turns 2501 = Some (res, console) ∧
    ∃ new, failedRuns res = from_option failedRuns [] None ++ new ∧
           new ≠ [] ∧
           Forall (exhausted defaultIterationSafetyLimit) new.
Proof.
  intros p cap turns.
  destruct (failed_attempt_batch cap) as (res & console & Hrun & Hfailed).
  { apply Z2Nat.id. unfold defaultIterationSafetyLimit. lia. }
  exists res, console. split; [exact Hrun|].
  destruct (X12_failed_attempts_exhausted p None turns 2501 res console)
    as (new & Hnew & Hall).
  - cbn [maxValue p]. lia.
  - by eexists.
  - exact Hrun.
  - exists new. split; [exact Hnew|]. split; [|exact Hall].
    intros ->. rewrite Hfailed in Hnew. discriminate Hnew.
Defined.


(** ** The statistics of the returned object *)

Lemma batchLoop_lengths p turns st st' :
  Forall (λ a, Z.of_nat (length (path a)) = iterations a + (if completed a then 1 else 0))
    (b_allAttempts st) →
  batchLoop p turns st = Some st' →
  Forall (λ a, Z.of_nat (length (path a)) = iterations a + (if completed a then 1 else 0))
    (b_allAttempts st').
Proof.
  apply (batchLoop_invariant p (λ s,
    Forall (λ a, Z.of_nat (length (path a)) = iterations a + (if completed a then 1 else 0))
      (b_allAttempts s))).
  - intros s lines Hs. exact Hs.
  - intros s result stop draws t0 t1 Hall _ Hrun.
    apply simulateRun_length in Hrun.
    unfold recordAttempt. simpl. destruct (completed result) eqn:E; simpl;
      (apply Forall_app; split; [done|]; apply Forall_singleton; by rewrite E).
Qed.

Lemma Zsum_lengths (l : list RunResult) :
  Forall (λ a, Z.of_nat (length (path a)) = iterations a + 1) l →
  Zsum ((λ run : list Z, Z.of_nat (length run)) <$> (path <$> l)) =
  Zsum (iterations <$> l) + Z.of_nat (length l).
Proof.
  induction 1 as [|a l Ha _ IH]; [done|].
  rewrite !fmap_cons. unfold Zsum in *. cbn [foldr]. rewrite IH, Ha. simpl length. lia.
Qed.

(** X13. [averageSuccessfulIterations] averages the lengths of the
    completed paths, which hold the target besides one value per iteration:
    in a call that starts afresh and has a success, it is the average
    iteration count of the completed attempts plus 1. *)
Theorem X13_average_successful_iterations p turns endElapsed res console :
  runMultipleSimulations p None turns endElapsed = Some (res, console) →
  0 < actualSuccesses res →
  (averageSuccessfulIterations res ==
   average (iterations <$> filter (λ a, completed a = true) (allAttempts res)) + 1)%Q.
Proof.
  intros H Hpos. apply runMultipleSimulations_Some in H as (st & Hloop & -> & _).
  pose proof (batchLoop_lengths p turns (initialState None) st (Forall_nil_2 _) Hloop)
    as Hlen.
  pose proof (batchLoop_parted p turns (initialState None) st (conj eq_refl eq_refl) Hloop)
    as [Hc _].
  pose proof (batchLoop_counted p turns (initialState None) st
                (mkCounted [] [] [] 0 0 eq_refl eq_refl eq_refl) Hloop) as [Hs _ _].
  simpl in *. rewrite Hc in *.
  set (l := filter (λ a, completed a = true) (b_allAttempts st)) in *.
  assert (Hl : Forall (λ a, Z.of_nat (length (path a)) = iterations a + 1) l).
  { apply Forall_forall. intros a Ha. apply list_elem_of_filter in Ha as [Hca Ha].
    pose proof (proj1 (Forall_forall _ _) Hlen a Ha) as Hla. simpl in Hla.
    by rewrite Hca in Hla. }
  unfold average. rewrite !length_fmap in *. rewrite (Zsum_lengths l Hl).
  destruct (0 <? Z.of_nat (length l)) eqn:E; [|lia].
  rewrite inject_Z_plus. field.
  intros H0. apply (inject_Z_injective (Z.of_nat (length l)) 0) in H0. lia.
Qed.

Lemma X13_average_successful_iterations_witness :
  let p := mkBatchParams 2 (1 # 2) 1 1 (Some 2000) in
  let turns := [mkTurn 0 [3 # 4; 1 # 4]%Q 1 5 false; mkTurn 2500 [] 0 0 false] in
  ∃ res console,
    runMultipleSimulations p None turns 2501 = Some (res, console) ∧
    (averageSuccessfulIterations res ==
     average (iterations <$> filter (λ a, completed a = true) (allAttempts res)) + 1)%Q.
Proof.
  intros p turns. eexists _, _. split; [reflexivity|].
  eapply (X13_average_successful_iterations p turns 2501); [reflexivity|simpl; lia].
Defined.

(** X14. [parameterEfficiency] is a percentage between 0 and 100, and
    [hasAnyData] is true exactly when [completedRuns] is not empty (when the
    call starts afresh, or continues from results whose counts agree). *)
Theorem X14_efficiency_is_a_percentage p existing turns endElapsed res console :
  (∀ e, existing = Some e → countsAgree e) →
  runMultipleSimulations p existing turns endElapsed = Some (res, console) →
  (0 <= parameterEfficiency res)%Q ∧ (parameterEfficiency res <= 100)%Q ∧
  (hasAnyData res = true ↔ completedRuns res ≠ []).
Proof.
  intros He H. apply runMultipleSimulations_Some in H as (st & Hloop & -> & _).
  apply batchLoop_counted in Hloop as [H1 H2 H3].
  2: { destruct existing as [e|]; simpl; [by apply He|]. by split. }
  simpl. split; [|split].
  - destruct (b_totalAttempts st >? 0) eqn:E; [|done].
    apply Qmult_le_0_compat; [|done]. apply Qle_shift_div_l.
    + rewrite <- (Zlt_Qlt 0). lia.
    + rewrite Qmult_0_l. rewrite <- (Zle_Qle 0). lia.
  - destruct (b_totalAttempts st >? 0) eqn:E; [|done].
    apply (Qle_trans _ (1 * 100)); [|done].
    apply Qmult_le_compat_r; [|done]. apply Qle_shift_div_r.
    + rewrite <- (Zlt_Qlt 0). lia.
    + rewrite Qmult_1_l. rewrite <- Zle_Qle. lia.
  - rewrite H1. destruct (b_completedRuns st); simpl; split; try done; lia.
Qed.

Lemma X14_efficiency_is_a_percentage_witness :
  let p := mkBatchParams 2 (1 # 2) 1 1 (Some 2000) in
  let turns := [mkTurn 0 [3 # 4; 1 # 4]%Q 1 5 false; mkTurn 2500 [] 0 0 false] in
  ∃ res console,
    runMultipleSimulations p None turns 2501 = Some (res, console) ∧
    (0 <= parameterEfficiency res)%Q ∧ (parameterEfficiency res <= 100)%Q ∧
    (hasAnyData res = true ↔ completedRuns res ≠ []).
Proof.
  intros p turns. eexists _, _. split; [reflexivity|].
  eapply (X14_efficiency_is_a_percentage p None turns 2501);
    [intros e He; discriminate He|reflexivity].
Defined.

End BatchMore.

(* ===================================================================== *)
(** * More on the density grids: support, totals, bounds *)
(* ===================================================================== *)

Module DensityMore.
Import VisualizationEngine VisualizationSpec VisualizationProps.
Local Open Scope Z_scope.

Section cellwise.
Variable R : Z → Z → Prop.
Hypothesis R_mark : ∀ v h c, R v h → 1 ≤ c → R (v + 1) (h + c).

Lemma cellwise_addCell vd hd y x c vd' hd' :
  1 ≤ c → cellwise R (vd, hd) →
  addCell vd y x 1 = Some vd' → addCell hd y x c = Some hd' →
  cellwise R (vd', hd').
Proof.
  intros Hc Hdom Hv Hh y' x' v h. simpl.
  apply addCell_Some in Hv as (v0 & Hv0 & ->).
  apply addCell_Some in Hh as (h0 & Hh0 & ->).
  pose proof (Hdom y x v0 h0 Hv0 Hh0) as H0.
  case_decide as Hd.
  - intros ??. simplify_eq. by apply R_mark.
  - apply Hdom.
Qed.

Lemma markBins_cellwise binCounts gridWidth gridHeight d d' :
  cellwise R d → markBins binCounts gridWidth gridHeight d = Some d' → cellwise R d'.
Proof.
  unfold markBins, forRange. apply foldM_inv. intros y s s' _.
  apply foldM_inv. intros x [vd hd] t' _ Hdom Hbody.
  destruct (0 <? default 0 (cell binCounts y x)) eqn:Hpos; [|by simplify_eq].
  apply Z.ltb_lt in Hpos.
  destruct (addCell vd y x 1) as [vd'|] eqn:Hv; simpl in Hbody; [|done].
  destruct (addCell hd y x _) as [hd'|] eqn:Hh; simpl in Hbody; [|done].
  simplify_eq. eapply cellwise_addCell; [|done..]. lia.
Qed.

Lemma markPeaks_cellwise peakValues peakCounts d d' :
  peaksCounted (peakValues, peakCounts) →
  cellwise R d → markPeaks peakValues peakCounts d = Some d' → cellwise R d'.
Proof.
  intros [Hlen Hc] Hdom H. unfold markPeaks in H.
  apply (forEach_inv (λ _, cellwise R)) in H; [done| |done].
  intros x peak [vd hd] t' Hx Hd Hbody. simpl in *.
  destruct (0 <=? peak) eqn:Hp; [|by simplify_eq]. apply Z.leb_le in Hp.
  destruct (addCell vd _ x 1) as [vd'|] eqn:Hv; simpl in Hbody; [|done].
  destruct (addCell hd _ x _) as [hd'|] eqn:Hh; simpl in Hbody; [|done].
  simplify_eq. eapply cellwise_addCell; [|done..].
  destruct (lookup_lt_is_Some_2 peakCounts x) as [c Hcx].
  { rewrite <- Hlen. by eapply lookup_lt_Some. }
  rewrite Hcx. simpl. by apply (Hc x peak c).
Qed.

(** A relation between a vertical and a horizontal cell that holds of two
    zeros and is kept by every mark holds in the grids of both modes. *)
Lemma rawDensities_cellwise runs visualizationType maxValue d :
  R 0 0 → rawDensities runs visualizationType maxValue = Some d → cellwise R d.
Proof.
  intros R0. unfold rawDensities. destruct (maxValue + 1 <? 0); [done|].
  assert (Hz : ∀ h w, cellwise R (newGrid h w 0, newGrid h w 0)).
  { intros h w y x v c [-> _]%cell_newGrid [-> _]%cell_newGrid. done. }
  destruct (String.eqb visualizationType "peak").
  - unfold _calculatePeakDensity. apply foldM_inv; [|apply Hz].
    intros run s s' _ Hdom Hbody.
    destruct (peakBins run _ _) as [[pv pc]|] eqn:Hpeaks; simpl in Hbody; [|done].
    eapply markPeaks_cellwise; [|done..]. by eapply peakBins_counted.
  - unfold _calculateFullDensity. apply foldM_inv; [|apply Hz].
    intros run s s' _ Hdom Hbody.
    destruct (countBins run _ _ _) as [binCounts|]; simpl in Hbody; [|done].
    by eapply markBins_cellwise.
Qed.

End cellwise.

(** X15. In the two raw grids of a heat map no cell is negative, and a
    cell of the vertical density is 0 exactly when the cell of the horizontal
    density is 0: the two grids mark the same cells. *)
Theorem X15_same_support runs colorScaling visualizationType maxValue hm y x v h :
  createHeatmap runs colorScaling visualizationType maxValue = Some hm →
  cell (rawVerticalDensity hm) y x = Some v →
  cell (rawHorizontalDensity hm) y x = Some h →
  0 ≤ v ∧ 0 ≤ h ∧ (v = 0 ↔ h = 0).
Proof.
  intros Hhm Hv Hh. apply createHeatmap_Some in Hhm as [(_ & E & _)|(Hraw & _)].
  - by rewrite E in Hv.
  - apply (rawDensities_cellwise sameSupport) in Hraw.
    + by apply (Hraw y x).
    + unfold sameSupport. intros. lia.
    + unfold sameSupport. lia.
Qed.

Lemma X15_same_support_witness : 0 ≤ 2 ∧ 0 ≤ 3 ∧ (2 = 0 ↔ 3 = 0).
Proof.
  pose (runs := [[0; 1; 2]; replicate 1500 0 ++ [1; 2]]).
  assert (Hcells : (λ '(vd, hd), (cell vd 0 0, cell hd 0 0)) <$>
                     rawDensities runs "heatmap" 2 = Some (Some 2, Some 3))
    by (vm_compute; reflexivity).
  destruct (rawDensities runs "heatmap" 2) as [[vd hd]|] eqn:Hraw; [|done].
  simpl in Hcells. injection Hcells as Hv Hh.
  destruct (createHeatmap_total runs "linear" "heatmap" 2 vd hd ltac:(done) Hraw)
    as (hm & Hhm & Ev & Eh & _).
  apply (X15_same_support runs "linear" "heatmap" 2 hm 0 0 2 3 Hhm);
    [by rewrite Ev|by rewrite Eh].
Defined.


Lemma listSum_app l1 l2 : listSum (l1 ++ l2) = listSum l1 + listSum l2.
Proof. induction l1 as [|a l1 IH]; simpl; [done|]. rewrite IH. lia. Qed.

Lemma gridSum_app g1 g2 : gridSum (g1 ++ g2) = gridSum g1 + gridSum g2.
Proof. induction g1 as [|row g1 IH]; simpl; [done|]. rewrite IH. lia. Qed.

Lemma listSum_insert l (x : nat) v w :
  l !! x = Some v → listSum (<[x := w]> l) = listSum l + (w - v).
Proof.
  intros Hx. pose proof (lookup_lt_Some _ _ _ Hx) as Hlx.
  rewrite insert_take_drop by done.
  rewrite <- (take_drop_middle l x v Hx) at 3.
  rewrite !listSum_app. simpl. lia.
Qed.

Lemma listSum_replicate n : listSum (replicate n 0) = 0.
Proof. induction n as [|n IH]; simpl; [done|]. by rewrite IH. Qed.

Lemma gridSum_newGrid h w : gridSum (newGrid h w 0) = 0.
Proof.
  unfold newGrid. induction h as [|h IH]; simpl; [done|].
  by rewrite IH, listSum_replicate.
Qed.

(** [addCell] adds [d] to the sum of all cells. *)
Lemma gridSum_addCell g y x d g' :
  addCell g y x d = Some g' → gridSum g' = gridSum g + d.
Proof.
  unfold addCell. intros H.
  destruct (g !! y) as [row|] eqn:Hy; simpl in H; [|done].
  destruct (row !! x) as [v|] eqn:Hx; simpl in H; [|done]. simplify_eq.
  pose proof (lookup_lt_Some _ _ _ Hy) as Hly.
  rewrite insert_take_drop by done.
  rewrite <- (take_drop_middle g y row Hy) at 3.
  rewrite !gridSum_app. simpl. rewrite (listSum_insert row x v) by done. lia.
Qed.

Lemma listSum_take_S l (j : nat) :
  listSum (take (S j) l) = listSum (take j l) + default 0 (l !! j).
Proof.
  destruct (l !! j) as [v|] eqn:E.
  - rewrite (take_S_r l j v E), listSum_app. simpl. lia.
  - apply lookup_ge_None in E. rewrite !take_ge by lia. simpl. lia.
Qed.

Lemma gridSum_take_S g (y : nat) :
  gridSum (take (S y) g) = gridSum (take y g) + listSum (default [] (g !! y)).
Proof.
  destruct (g !! y) as [row|] eqn:E.
  - rewrite (take_S_r g y row E), gridSum_app. simpl. lia.
  - apply lookup_ge_None in E. rewrite !take_ge by lia. simpl. lia.
Qed.

(** ** The full mode *)

(** Every position of a run that is not longer than [maxLength] has a bin. *)
Lemma timeBin_is_Some index maxLength :
  (index < maxLength)%nat →
  is_Some (timeBin index (Nat.min maxLength 1000) maxLength).
Proof.
  intros Hi. unfold timeBin. destruct (maxLength =? 0)%nat eqn:E.
  { apply Nat.eqb_eq in E. lia. }
  set (w := Nat.min maxLength 1000).
  assert (Hw : (0 < w)%nat) by (unfold w; lia).
  destruct (_ <? w)%nat eqn:Hx; [by eexists|]. apply Nat.ltb_ge in Hx.
  assert (Z.of_nat index * Z.of_nat w / Z.of_nat maxLength < Z.of_nat w); [|lia].
  apply Z.div_lt_upper_bound; [lia|]. nia.
Qed.

(** The first loop of the full mode counts every position of the run once,
    in cells that are not negative. *)
Lemma countBins_gridSum run maxLength gridHeight binCounts :
  (length run ≤ maxLength)%nat →
  countBins run (Nat.min maxLength 1000) gridHeight maxLength = Some binCounts →
  nonneg binCounts ∧ gridSum binCounts = Z.of_nat (length run).
Proof.
  intros Hlen H. unfold countBins in H.
  apply (forEach_inv (λ k b, nonneg b ∧ gridSum b = Z.of_nat k)) in H; [done| |].
  - intros k value b b' Hk [Hnn Hs] Hbody.
    apply lookup_lt_Some in Hk.
    destruct (timeBin_is_Some k maxLength ltac:(lia)) as [x Hx]. rewrite Hx in Hbody.
    destruct (rowIndex value) as [y|]; simpl in Hbody; [|done].
    split.
    + intros y' x' c. apply addCell_Some in Hbody as (v & Hv & ->).
      case_decide; [|apply Hnn]. intros ?; simplify_eq. specialize (Hnn _ _ _ Hv). lia.
    + rewrite (gridSum_addCell _ _ _ _ _ Hbody). lia.
  - split; [|by rewrite gridSum_newGrid].
    intros y x c [-> _]%cell_newGrid. done.
Qed.

(** One row of the second loop adds the counts of the row to the sum of the
    horizontal density. *)
Lemma markRow_gridSum binCounts gridWidth y d d' :
  nonneg binCounts →
  forRange gridWidth (λ x '(verticalDensity, horizontalDensity),
      let count := default 0 (cell binCounts y x) in
      if 0 <? count then
        verticalDensity' ← addCell verticalDensity y x 1;
        horizontalDensity' ← addCell horizontalDensity y x count;
        Some (verticalDensity', horizontalDensity')
      else Some (verticalDensity, horizontalDensity)) d = Some d' →
  gridSum d'.2 = gridSum d.2 + listSum (take gridWidth (default [] (binCounts !! y))).
Proof.
  intros Hnn Hrun.
  set (P := λ (j : nat) (s : Grid * Grid),
         gridSum s.2 = gridSum d.2 + listSum (take j (default [] (binCounts !! y)))).
  assert (HP : P gridWidth d'); [eapply (forRange_inv P); [| |exact Hrun]|done]; unfold P.
  - intros j [vd hd] t' Hj Hinv Hbody. simpl in *.
    rewrite listSum_take_S.
    assert (Hc : default 0 (default [] (binCounts !! y) !! j) = default 0 (cell binCounts y j)).
    { unfold cell. by destruct (binCounts !! y). }
    rewrite Hc. pose proof (nonneg_default binCounts y j Hnn) as H0.
    destruct (0 <? default 0 (cell binCounts y j)) eqn:Hpos.
    + destruct (addCell vd y j 1) as [vd'|] eqn:Hv; simpl in Hbody; [|done].
      destruct (addCell hd y j _) as [hd'|] eqn:Hh; simpl in Hbody; [|done].
      simplify_eq. simpl. rewrite (gridSum_addCell _ _ _ _ _ Hh). lia.
    + simplify_eq. simpl. apply Z.ltb_ge in Hpos. lia.
  - simpl. lia.
Qed.

Lemma markBins_gridSum binCounts gridWidth gridHeight d d' :
  shaped gridHeight gridWidth binCounts → nonneg binCounts →
  markBins binCounts gridWidth gridHeight d = Some d' →
  gridSum d'.2 = gridSum d.2 + gridSum binCounts.
Proof.
  intros [Hlen Hrows] Hnn Hrun. unfold markBins in Hrun.
  set (P := λ (k : nat) (s : Grid * Grid),
         gridSum s.2 = gridSum d.2 + gridSum (take k binCounts)).
  assert (HP : P gridHeight d'); [eapply (forRange_inv P); [| |exact Hrun]|]; unfold P in *.
  3: { by rewrite take_ge in HP by lia. }
  - intros y s s' Hy Hinv Hbody.
    pose proof (markRow_gridSum binCounts gridWidth y s s' Hnn Hbody) as Hrow.
    rewrite gridSum_take_S. rewrite Hrow, Hinv.
    destruct (binCounts !! y) as [row|] eqn:Hr; simpl; [|rewrite take_nil; simpl; lia].
    pose proof (Forall_lookup_1 _ _ _ _ Hrows Hr) as Hw. simpl in Hw.
    rewrite (take_ge row) by lia. lia.
  - simpl. lia.
Qed.

Lemma totalValues_app runs1 runs2 :
  totalValues (runs1 ++ runs2) = totalValues runs1 + totalValues runs2.
Proof. induction runs1 as [|r runs1 IH]; simpl; [done|]. rewrite IH. lia. Qed.

(** A loop whose passes add a known amount to a measure. *)
Lemma foldM_sum {A St} (body : A → St → option St) (m : St → Z) (w : A → Z) items :
  (∀ a s s', a ∈ items → body a s = Some s' → m s' = m s + w a) →
  ∀ s s', foldM body items s = Some s' → m s' = m s + foldr (λ a acc, w a + acc) 0 items.
Proof.
  induction items as [|a items IH]; intros Hstep s s' Hrun; simpl in Hrun.
  - simplify_eq. simpl. lia.
  - destruct (body a s) as [s1|] eqn:E; simpl in Hrun; [|done].
    apply IH in Hrun; [|intros b t t' Hb; apply Hstep; by right].
    apply Hstep in E; [|by left]. simpl. lia.
Qed.

Lemma calculateFullDensity_gridSum runs vd hd maxLength gridHeight d' :
  Forall (λ run, (length run ≤ maxLength)%nat) runs →
  _calculateFullDensity runs vd hd maxLength (Nat.min maxLength 1000) gridHeight = Some d' →
  gridSum d'.2 = gridSum hd + totalValues runs.
Proof.
  intros Hlen H. unfold _calculateFullDensity in H.
  apply (foldM_sum _ (λ d, gridSum d.2) (λ run, Z.of_nat (length run))) in H; [done|].
  intros run d d1 Hin Hbody.
  destruct (countBins run _ gridHeight maxLength) as [b|] eqn:Hb; simpl in Hbody; [|done].
  pose proof (countBins_shaped _ _ _ _ _ Hb) as Hshape.
  apply countBins_gridSum in Hb as [Hnn Hsum].
  2: { by apply (proj1 (Forall_forall _ _) Hlen). }
  rewrite <- Hsum. by eapply markBins_gridSum.
Qed.


(** ** The peak mode *)

Lemma listSum_alter (f : Z → Z) l (x : nat) v :
  l !! x = Some v → listSum (alter f x l) = listSum l + (f v - v).
Proof.
  revert x. induction l as [|a l IH]; intros x Hx; [done|].
  destruct x as [|x]; simpl in Hx.
  - simplify_eq. unfold listSum. simpl. lia.
  - change (alter f (S x) (a :: l)) with (a :: alter f x l).
    unfold listSum in *. cbn [foldr]. rewrite (IH x Hx). lia.
Qed.

(** What the first loop of the peak mode keeps, for a run whose values are
    not negative: the counts add up to the number of positions seen, and a
    bin without a peak has the count 0. *)
Lemma peakBins_listSum run maxLength peaks :
  (length run ≤ maxLength)%nat → Forall (λ v, 0 ≤ v) run →
  peakBins run (Nat.min maxLength 1000) maxLength = Some peaks →
  length peaks.1 = length peaks.2 ∧
  listSum peaks.2 = Z.of_nat (length run) ∧
  ∀ x p c, peaks.1 !! x = Some p → peaks.2 !! x = Some c → p < 0 → c = 0.
Proof.
  intros Hlen Hval H. unfold peakBins in H.
  set (w := Nat.min maxLength 1000) in *.
  apply (forEach_inv (λ k (peaks : list Z * list Z),
           (length peaks.1 = w ∧ length peaks.2 = w) ∧ listSum peaks.2 = Z.of_nat k ∧
           ∀ x p c, peaks.1 !! x = Some p → peaks.2 !! x = Some c → p < 0 → c = 0))
    in H.
  - destruct H as ([H1 H2] & H3 & H4). split; [congruence|done].
  - intros k value [pv pc] t' Hk ([Hl1 Hl2] & Hs & Hz) Hbody. simpl in *.
    pose proof (Forall_lookup_1 _ _ _ _ Hval Hk) as Hv. simpl in Hv.
    apply lookup_lt_Some in Hk.
    destruct (timeBin_is_Some k maxLength ltac:(lia)) as [x Hx]. fold w in Hx.
    rewrite Hx in Hbody. apply timeBin_lt in Hx.
    simplify_eq. simpl. split; [by rewrite !length_alter|]. split.
    + destruct (lookup_lt_is_Some_2 pc x ltac:(lia)) as [c Hc].
      rewrite (listSum_alter _ _ _ c Hc). cbv beta. lia.
    + intros x' p c. rewrite !list_lookup_alter. case_decide as Hd.
      * subst x'. destruct (pv !! x) as [p0|]; [|done].
        destruct (pc !! x) as [c0|]; [|done]. simpl. intros ???. simplify_eq. lia.
      * apply Hz.
  - simpl. split; [by rewrite !length_replicate|]. split; [apply listSum_replicate|].
    intros x p c _ [-> _]%lookup_replicate _. done.
Qed.


(** The second loop of the peak mode adds the counts of the bins to the sum
    of the horizontal density. *)
Lemma markPeaks_gridSum peakValues peakCounts d d' :
  length peakValues = length peakCounts →
  (∀ x p c, peakValues !! x = Some p → peakCounts !! x = Some c → p < 0 → c = 0) →
  markPeaks peakValues peakCounts d = Some d' →
  gridSum d'.2 = gridSum d.2 + listSum peakCounts.
Proof.
  intros Hlen Hz Hrun. unfold markPeaks in Hrun.
  set (P := λ (k : nat) (s : Grid * Grid),
         gridSum s.2 = gridSum d.2 + listSum (take k peakCounts)).
  assert (HP : P (length peakValues) d'); [eapply (forEach_inv P); [| |exact Hrun]|];
    unfold P in *.
  3: { by rewrite take_ge in HP by lia. }
  - intros x peak [vd hd] t' Hx Hinv Hbody. simpl in *.
    rewrite listSum_take_S.
    destruct (0 <=? peak) eqn:Hp.
    + destruct (addCell vd _ x 1) as [vd'|] eqn:Hv; simpl in Hbody; [|done].
      destruct (addCell hd _ x _) as [hd'|] eqn:Hh; simpl in Hbody; [|done].
      simplify_eq. simpl. rewrite (gridSum_addCell _ _ _ _ _ Hh). lia.
    + simplify_eq. simpl. apply Z.leb_gt in Hp.
      destruct (peakCounts !! x) as [c|] eqn:Hc; simpl; [|lia].
      rewrite (Hz x peak c Hx Hc Hp). lia.
  - simpl. lia.
Qed.

Lemma calculatePeakDensity_gridSum runs vd hd maxLength gridHeight d' :
  Forall (λ run, (length run ≤ maxLength)%nat) runs →
  Forall (Forall (λ v, 0 ≤ v)) runs →
  _calculatePeakDensity runs vd hd maxLength (Nat.min maxLength 1000) gridHeight = Some d' →
  gridSum d'.2 = gridSum hd + totalValues runs.
Proof.
  intros Hlen Hval H. unfold _calculatePeakDensity in H.
  apply (foldM_sum _ (λ d, gridSum d.2) (λ run, Z.of_nat (length run))) in H; [done|].
  intros run d d1 Hin Hbody.
  destruct (peakBins run _ maxLength) as [[pv pc]|] eqn:Hb; simpl in Hbody; [|done].
  apply peakBins_listSum in Hb as (Hl & Hsum & Hz).
  2: { by apply (proj1 (Forall_forall _ _) Hlen). }
  2: { by apply (proj1 (Forall_forall _ _) Hval). }
  simpl in *. rewrite <- Hsum. by eapply markPeaks_gridSum.
Qed.

(** X16. For runs whose values are not negative, the cells of the raw
    horizontal density add up to the number of path values of all runs, in
    both aggregation modes and with or without time compression: every
    position of every path is counted exactly once. *)
Theorem X16_horizontal_density_total runs colorScaling visualizationType maxValue hm :
  Forall (Forall (λ v, 0 ≤ v)) runs →
  createHeatmap runs colorScaling visualizationType maxValue = Some hm →
  gridSum (rawHorizontalDensity hm) = totalValues runs.
Proof.
  intros Hval Hhm. apply createHeatmap_Some in Hhm as [(-> & _ & ->)|(Hraw & _)]; [done|].
  unfold rawDensities in Hraw. destruct (maxValue + 1 <? 0); [done|].
  assert (Hlen : Forall (λ run, (length run ≤ max_list (length <$> runs))%nat) runs).
  { apply Forall_forall. intros run Hrun. apply max_list_elem_of_le.
    apply list_elem_of_fmap. by exists run. }
  destruct (String.eqb visualizationType "peak").
  - apply calculatePeakDensity_gridSum in Hraw; [|done..].
    simpl in Hraw. by rewrite Hraw, gridSum_newGrid.
  - apply calculateFullDensity_gridSum in Hraw; [|done].
    simpl in Hraw. by rewrite Hraw, gridSum_newGrid.
Qed.

Lemma X16_horizontal_density_total_witness :
  ∃ hm, createHeatmap [[0; 1]; [0; 0; 1]] "linear" "peak" 1 = Some hm ∧
        gridSum (rawHorizontalDensity hm) = totalValues [[0; 1]; [0; 0; 1]].
Proof.
  eexists. split; [reflexivity|].
  apply (X16_horizontal_density_total [[0; 1]; [0; 0; 1]] "linear" "peak" 1);
    [repeat constructor; lia | reflexivity].
Defined.


(** ** A run marks a cell at most once *)

Lemma markRow_cell binCounts gridWidth y d d' y0 x0 :
  forRange gridWidth (λ x '(verticalDensity, horizontalDensity),
      let count := default 0 (cell binCounts y x) in
      if 0 <? count then
        verticalDensity' ← addCell verticalDensity y x 1;
        horizontalDensity' ← addCell horizontalDensity y x count;
        Some (verticalDensity', horizontalDensity')
      else Some (verticalDensity, horizontalDensity)) d = Some d' →
  default 0 (cell d'.1 y0 x0) ≤ default 0 (cell d.1 y0 x0) + 1 ∧
  (y ≠ y0 → default 0 (cell d'.1 y0 x0) = default 0 (cell d.1 y0 x0)).
Proof.
  intros Hrun.
  set (m := λ s : Grid * Grid, default 0 (cell s.1 y0 x0)).
  set (P := λ (j : nat) (s : Grid * Grid),
         m s ≤ m d + 1 ∧ (y ≠ y0 ∨ (j ≤ x0)%nat → m s = m d)).
  assert (HP : P gridWidth d'); [eapply (forRange_inv P); [| |exact Hrun]|]; unfold P in *.
  3: { destruct HP as [H1 H2]. split; [done|]. intros Hy. apply H2. by left. }
  - intros j [vd hd] t' Hj [Hle Heq] Hbody. simpl in *.
    destruct (0 <? default 0 (cell binCounts y j)).
    + destruct (addCell vd y j 1) as [vd'|] eqn:Hv; simpl in Hbody; [|done].
      destruct (addCell hd y j _) as [hd'|] eqn:Hh; simpl in Hbody; [|done].
      simplify_eq. apply addCell_Some in Hv as (v & Hv & Hcells).
      unfold m in *. simpl in *. rewrite Hcells. case_decide as Hd.
      * destruct Hd as [-> ->]. rewrite Hv in *. simpl in *.
        rewrite <- Heq by (right; lia). split; [lia|]. intros [?|?]; [done|lia].
      * split; [done|]. intros [?|?]; apply Heq; [by left|right; lia].
    + simplify_eq. split; [done|]. intros [?|?]; apply Heq; [by left|right; lia].
  - split; [lia|done].
Qed.

Lemma markBins_cell binCounts gridWidth gridHeight d d' y0 x0 :
  markBins binCounts gridWidth gridHeight d = Some d' →
  default 0 (cell d'.1 y0 x0) ≤ default 0 (cell d.1 y0 x0) + 1.
Proof.
  intros Hrun. unfold markBins in Hrun.
  set (m := λ s : Grid * Grid, default 0 (cell s.1 y0 x0)).
  set (P := λ (k : nat) (s : Grid * Grid), m s ≤ m d + 1 ∧ ((k ≤ y0)%nat → m s = m d)).
  assert (HP : P gridHeight d'); [eapply (forRange_inv P); [| |exact Hrun]|apply HP];
    unfold P in *.
  - intros y s s' Hy [Hle Heq] Hbody.
    apply (markRow_cell _ _ _ _ _ y0 x0) in Hbody as [H1 H2]. fold (m s) (m s') in *.
    destruct (decide (y = y0)) as [->|Hne].
    + rewrite Heq in H1 by lia. split; [done|]. lia.
    + rewrite (H2 Hne). split; [done|]. intros ?. apply Heq. lia.
  - split; [lia|done].
Qed.

Lemma markPeaks_cell peakValues peakCounts d d' y0 x0 :
  markPeaks peakValues peakCounts d = Some d' →
  default 0 (cell d'.1 y0 x0) ≤ default 0 (cell d.1 y0 x0) + 1.
Proof.
  intros Hrun. unfold markPeaks in Hrun.
  set (m := λ s : Grid * Grid, default 0 (cell s.1 y0 x0)).
  set (P := λ (k : nat) (s : Grid * Grid), m s ≤ m d + 1 ∧ ((k ≤ x0)%nat → m s = m d)).
  assert (HP : P (length peakValues) d'); [eapply (forEach_inv P); [| |exact Hrun]|apply HP];
    unfold P in *.
  - intros x peak [vd hd] t' Hx [Hle Heq] Hbody. simpl in *.
    destruct (0 <=? peak).
    + destruct (addCell vd _ x 1) as [vd'|] eqn:Hv; simpl in Hbody; [|done].
      destruct (addCell hd _ x _) as [hd'|] eqn:Hh; simpl in Hbody; [|done].
      simplify_eq. apply addCell_Some in Hv as (v & Hv & Hcells).
      unfold m in *. simpl in *. rewrite Hcells. case_decide as Hd.
      * destruct Hd as [-> ->]. rewrite Hv in *. simpl in *.
        rewrite <- Heq by lia. split; lia.
      * split; [done|]. intros ?. apply Heq. lia.
    + simplify_eq. split; [done|]. intros ?. apply Heq. lia.
  - split; [lia|done].
Qed.

Lemma heatmap_totalRuns runs colorScaling visualizationType maxValue hm :
  createHeatmap runs colorScaling visualizationType maxValue = Some hm →
  totalRuns hm = length runs.
Proof.
  unfold createHeatmap. intros Hhm. destruct (length runs =? 0)%nat eqn:E0.
  - apply Nat.eqb_eq in E0. simplify_eq. by rewrite E0.
  - destruct (rawDensities _ _ _) as [[vd hd]|]; simpl in Hhm; [|done].
    destruct (_applyColorScaling _ _ _ _); simpl in Hhm; [|done].
    destruct (_normalizeAlphaDensity _ _ _); simpl in Hhm; [|done]. by simplify_eq.
Qed.

(** The cells of the vertical density are not negative. *)
Lemma rawDensities_nonneg runs visualizationType maxValue d :
  rawDensities runs visualizationType maxValue = Some d → nonneg d.1.
Proof.
  intros Hraw y x v Hv.
  pose proof (rawDensities_shaped _ _ _ _ Hraw) as [Hs1 Hs2].
  destruct (cell_shaped _ _ _ _ _ _ Hs1 Hv) as [Hy Hx].
  destruct (shaped_cell _ _ _ y x Hs2 Hy Hx) as [h Hh].
  apply (rawDensities_cellwise (λ a _, 0 ≤ a)) in Hraw; [|intros; lia|done].
  by apply (Hraw y x v h).
Qed.

(** Every run adds at most one mark to a cell of the vertical density. *)
Lemma rawDensities_cell_bound runs visualizationType maxValue d y x :
  rawDensities runs visualizationType maxValue = Some d →
  default 0 (cell d.1 y x) ≤ Z.of_nat (length runs).
Proof.
  unfold rawDensities. destruct (maxValue + 1 <? 0); [done|].
  set (m := λ s : Grid * Grid, default 0 (cell s.1 y x)).
  assert (H0 : ∀ h w, m (newGrid h w 0, newGrid h w 0) = 0).
  { intros h w. unfold m. simpl. destruct (cell (newGrid h w 0) y x) as [c|] eqn:E; [|done].
    by apply cell_newGrid in E as [-> _]. }
  destruct (String.eqb visualizationType "peak"); intros H.
  - unfold _calculatePeakDensity in H. apply (foldM_count _ m) in H.
    + rewrite H0 in H. fold (m d). lia.
    + intros run s s' Hbody.
      destruct (peakBins run _ _) as [[pv pc]|]; simpl in Hbody; [|done].
      by eapply markPeaks_cell.
  - unfold _calculateFullDensity in H. apply (foldM_count _ m) in H.
    + rewrite H0 in H. fold (m d). lia.
    + intros run s s' Hbody.
      destruct (countBins run _ _ _) as [b|]; simpl in Hbody; [|done].
      by eapply markBins_cell.
Qed.

(** X17. Every cell of the raw vertical density of a heat map lies
    between 0 and [totalRuns], in both aggregation modes: a run marks a cell
    at most once. *)
Theorem X17_cell_at_most_runs runs colorScaling visualizationType maxValue hm y x v :
  createHeatmap runs colorScaling visualizationType maxValue = Some hm →
  cell (rawVerticalDensity hm) y x = Some v →
  0 ≤ v ≤ Z.of_nat (totalRuns hm).
Proof.
  intros Hhm Hv. rewrite (heatmap_totalRuns _ _ _ _ _ Hhm).
  apply createHeatmap_Some in Hhm as [(_ & E & _)|(Hraw & _)].
  { by rewrite E in Hv. }
  split.
  - apply rawDensities_nonneg in Hraw. by apply (Hraw y x).
  - apply (rawDensities_cell_bound _ _ _ _ y x) in Hraw. simpl in Hraw.
    by rewrite Hv in Hraw.
Qed.

Lemma X17_cell_at_most_runs_witness :
  ∃ hm, createHeatmap [[0; 1]; [0; 0; 1]] "linear" "heatmap" 1 = Some hm ∧
        0 ≤ 2 ≤ Z.of_nat (totalRuns hm).
Proof.
  eexists. split; [reflexivity|].
  apply (X17_cell_at_most_runs [[0; 1]; [0; 0; 1]] "linear" "heatmap" 1 _ 0 0 2);
    reflexivity.
Defined.

(** ** Column sums in the peak mode *)

Lemma markPeaks_columnSum peakValues peakCounts d d' x0 :
  markPeaks peakValues peakCounts d = Some d' →
  columnSum d'.1 x0 ≤ columnSum d.1 x0 + 1.
Proof.
  intros Hrun. unfold markPeaks in Hrun.
  set (m := λ s : Grid * Grid, columnSum s.1 x0).
  set (P := λ (k : nat) (s : Grid * Grid), m s ≤ m d + 1 ∧ ((k ≤ x0)%nat → m s = m d)).
  assert (HP : P (length peakValues) d'); [eapply (forEach_inv P); [| |exact Hrun]|apply HP];
    unfold P in *.
  - intros x peak [vd hd] t' Hx [Hle Heq] Hbody. simpl in *.
    destruct (0 <=? peak).
    + destruct (addCell vd _ x 1) as [vd'|] eqn:Hv; simpl in Hbody; [|done].
      destruct (addCell hd _ x _) as [hd'|] eqn:Hh; simpl in Hbody; [|done].
      simplify_eq. unfold m in *. simpl in *.
      rewrite (columnSum_addCell _ _ _ _ _ x0 Hv). case_decide as Hd.
      * subst x0. rewrite <- Heq by lia. split; lia.
      * split; [lia|]. intros ?. rewrite Heq by lia. lia.
    + simplify_eq. split; [done|]. intros ?. apply Heq. lia.
  - split; [lia|done].
Qed.

(** X18. In the peak mode the vertical densities of a column add up to at
    most the number of runs, with or without time compression: a run marks
    one cell per column at most. *)
Theorem X18_peak_column_sum runs colorScaling maxValue hm x :
  createHeatmap runs colorScaling "peak" maxValue = Some hm →
  columnSum (rawVerticalDensity hm) x ≤ Z.of_nat (length runs).
Proof.
  intros Hhm. apply createHeatmap_Some in Hhm as [(-> & -> & _)|(Hraw & _)]; [done|].
  unfold rawDensities in Hraw. destruct (maxValue + 1 <? 0); [done|].
  change (String.eqb "peak" "peak") with true in Hraw. cbv iota in Hraw.
  unfold _calculatePeakDensity in Hraw.
  apply (foldM_count _ (λ d, columnSum d.1 x)) in Hraw.
  - simpl in Hraw. rewrite columnSum_newGrid in Hraw. lia.
  - intros run s s' Hbody.
    destruct (peakBins run _ _) as [[pv pc]|]; simpl in Hbody; [|done].
    by eapply markPeaks_columnSum.
Qed.

Lemma X18_peak_column_sum_witness :
  ∃ hm, createHeatmap [longRun] "linear" "peak" 2 = Some hm ∧
        columnSum (rawVerticalDensity hm) 0 ≤ Z.of_nat (length [longRun]).
Proof.
  destruct (rawDensities [longRun] "peak" 2) as [[vd hd]|] eqn:Hraw;
    [|by vm_compute in Hraw].
  destruct (createHeatmap_total [longRun] "linear" "peak" 2 vd hd ltac:(done) Hraw)
    as (hm & Hhm & _).
  exists hm. split; [done|].
  apply (X18_peak_column_sum [longRun] "linear" 2 hm 0 Hhm).
Defined.

End DensityMore.

(* ===================================================================== *)
(** * More on the scalings: range, order, the largest value *)
(* ===================================================================== *)

Module ScalingMore.
Import VisualizationEngine VisualizationSpec VisualizationProps DensityMore.
Local Open Scope Z_scope.

#[local] Arguments js_div : simpl never.
#[local] Arguments js_sqrt : simpl never.
#[local] Arguments js_log : simpl never.
#[local] Arguments js_or0 : simpl never.

Lemma Rdiv_unit (a m : R) : (0 <= a <= m)%R → (0 < m)%R → (0 <= a / m <= 1)%R.
Proof.
  intros [H0 H1] Hm. split.
  - apply Rmult_le_pos; [done|]. left. by apply Rinv_0_lt_compat.
  - apply (Rmult_le_reg_r m); [done|]. unfold Rdiv.
    rewrite Rmult_assoc, Rinv_l by lra. lra.
Qed.

Lemma Rdiv_lt (a b m : R) : (a < b)%R → (0 < m)%R → (a / m < b / m)%R.
Proof. intros Hab Hm. apply Rmult_lt_compat_r; [by apply Rinv_0_lt_compat|done]. Qed.

Lemma Math_max_le l m a : Math_max l = Some m → a ∈ l → a ≤ m.
Proof.
  destruct l as [|v l]; [done|]. simpl. intros ? Ha. simplify_eq.
  apply elem_of_cons in Ha as [->|Ha]; [apply Math_max_ge|].
  induction l as [|c l IH]; [by apply elem_of_nil in Ha|]. simpl.
  apply elem_of_cons in Ha as [->|Ha]; [lia|]. specialize (IH Ha). lia.
Qed.

(** The three scalings that divide by the scaled maximum. *)
Lemma linear_Fin (a m : Z) :
  0 < m → js_div (js_of_cell (Some a)) (js_of_max (Some m)) = Fin (IZR a / IZR m).
Proof.
  intros Hm. simpl. unfold js_of_Z. apply js_div_Fin.
  apply IZR_lt in Hm. lra.
Qed.

Lemma sqrt_Fin (a m : Z) :
  0 ≤ a → 0 < m →
  js_div (js_sqrt (js_of_cell (Some a))) (js_sqrt (js_of_max (Some m))) =
  Fin (sqrt (IZR a) / sqrt (IZR m)).
Proof.
  intros Ha Hm. simpl. unfold js_of_Z, js_sqrt.
  apply IZR_le in Ha. apply IZR_lt in Hm.
  destruct (Rlt_dec (IZR a) 0); [lra|]. destruct (Rlt_dec (IZR m) 0); [lra|].
  apply js_div_Fin. pose proof (sqrt_lt_R0 (IZR m) Hm). lra.
Qed.

Lemma log_Fin (a m : Z) :
  0 ≤ a → 0 < m →
  js_div (js_log (js_add (js_of_cell (Some a)) (Fin 1)))
    (js_log (js_add (js_of_max (Some m)) (Fin 1))) =
  Fin (ln (IZR a + 1) / ln (IZR m + 1)).
Proof.
  intros Ha Hm. simpl. unfold js_of_Z, js_log.
  apply IZR_le in Ha. apply IZR_lt in Hm.
  destruct (Rlt_dec (IZR a + 1) 0); [lra|]. destruct (Req_dec_T (IZR a + 1) 0); [lra|].
  destruct (Rlt_dec (IZR m + 1) 0); [lra|]. destruct (Req_dec_T (IZR m + 1) 0); [lra|].
  apply js_div_Fin.
  assert (0 < ln (IZR m + 1))%R; [|lra]. rewrite <- ln_1. apply ln_increasing; lra.
Qed.

Lemma ln_le_mono (x y : R) : (0 < x)%R → (x <= y)%R → (ln x <= ln y)%R.
Proof.
  intros Hx [Hlt| ->]; [|lra]. left. by apply ln_increasing.
Qed.

Lemma ln_above_one (x : R) : (1 <= x)%R → (0 <= ln x)%R.
Proof. intros Hx. rewrite <- ln_1. apply ln_le_mono; lra. Qed.

Lemma ln_max_pos (m : Z) : 0 < m → (0 < ln (IZR m + 1))%R.
Proof.
  intros Hm. apply IZR_lt in Hm. rewrite <- ln_1. apply ln_increasing; lra.
Qed.


Lemma scaleOf_mono colorScaling (a b : Z) :
  0 ≤ a → a ≤ b → (0 <= scaleOf colorScaling a <= scaleOf colorScaling b)%R.
Proof.
  intros Ha Hab. apply IZR_le in Ha, Hab. unfold scaleOf.
  destruct (String.eqb colorScaling "sqrt"); [|destruct (String.eqb colorScaling "log")].
  - split; [apply sqrt_pos|by apply sqrt_le_1_alt].
  - split; [apply ln_above_one; lra|apply ln_le_mono; lra].
  - lra.
Qed.

Lemma scaleOf_strict colorScaling (a b : Z) :
  0 ≤ a → a < b → (scaleOf colorScaling a < scaleOf colorScaling b)%R.
Proof.
  intros Ha Hab. apply IZR_le in Ha. apply IZR_lt in Hab. unfold scaleOf.
  destruct (String.eqb colorScaling "sqrt"); [|destruct (String.eqb colorScaling "log")].
  - apply sqrt_lt_1_alt. lra.
  - apply ln_increasing; lra.
  - lra.
Qed.

Lemma scaleOf_pos colorScaling (m : Z) : 0 < m → (0 < scaleOf colorScaling m)%R.
Proof.
  intros Hm. unfold scaleOf.
  destruct (String.eqb colorScaling "sqrt"); [|destruct (String.eqb colorScaling "log")].
  - apply sqrt_lt_R0. by apply (IZR_lt 0).
  - by apply ln_max_pos.
  - by apply (IZR_lt 0).
Qed.

(** Under the sqrt, log and linear scalings a cell that is not negative is
    normalised to its scaled value divided by the scaled maximum. *)
Lemma applyColorScaling_ratio density colorScaling gridWidth gridHeight scaled m y x a :
  colorScaling ≠ "percentile"%string →
  _applyColorScaling density colorScaling gridWidth gridHeight = Some scaled →
  Math_max (flatDensity density) = Some m →
  (y < gridHeight)%nat → (x < gridWidth)%nat →
  cell density y x = Some a → 0 ≤ a →
  cell scaled y x = Some (Fin (scaleOf colorScaling a / scaleOf colorScaling m)).
Proof.
  unfold _applyColorScaling, scaleOf. fold (flatDensity density).
  intros Hcs Hrun Hmax Hy Hx Hcell Ha. apply String.eqb_neq in Hcs.
  destruct (length (flatDensity density) =? 0)%nat eqn:Hflat.
  { apply Nat.eqb_eq in Hflat. by destruct (flatDensity density). }
  destruct (flatDensity_max _ Hflat) as (m' & Hmax' & Hm).
  rewrite Hmax in Hmax'. injection Hmax' as <-.
  rewrite Hmax, Hcs in Hrun.
  pose proof (shaped_newGrid gridHeight gridWidth (Fin 0)) as Hinit.
  destruct (String.eqb colorScaling "sqrt"); [|destruct (String.eqb colorScaling "log")];
    apply (scaleCells_spec _ _ _ _ _ _ Hinit) in Hrun as [_ Hspec];
    rewrite (Hspec y x Hy Hx), Hcell; f_equal.
  - by apply sqrt_Fin.
  - by apply log_Fin.
  - by apply linear_Fin.
Qed.

(** The values of [flatDensity] are cells of the grid. *)
Lemma flatDensity_cell g a : a ∈ flatDensity g → ∃ y x, cell g y x = Some a.
Proof.
  unfold flatDensity. intros Ha. apply list_elem_of_filter in Ha as [_ Ha].
  apply list_elem_of_In, in_concat in Ha as (row & Hrow & Ha).
  apply list_elem_of_In, list_elem_of_lookup in Hrow as [y Hy].
  apply list_elem_of_In, list_elem_of_lookup in Ha as [x Hx].
  exists y, x. unfold cell. by rewrite Hy.
Qed.

(** The rank of a cell under percentile scaling lies between 0 and 1. *)
Lemma percentileOf_unit g a : 0 ≤ a → (∃ y x, cell g y x = Some a) → inUnit (percentileOf g a).
Proof.
  intros Ha (y & x & Hcell). unfold percentileOf.
  destruct (length (flatDensity g) =? 0)%nat; [simpl; lra|].
  destruct (decide (a = 0)) as [->|Hne].
  { unfold percentileMap. rewrite lookup_insert_eq. simpl. lra. }
  destruct (uniqueValues_spec (flatDensity g)) as (_ & _ & Hel).
  assert (Hin : a ∈ flatDensity g) by (eapply cell_flatDensity; [done|lia]).
  apply Hel, list_elem_of_lookup in Hin as [k Hk].
  rewrite (percentileMap_lookup _ k a Hk Hne).
  pose proof (lookup_lt_Some _ _ _ Hk) as Hlt.
  set (n := length (uniqueValues (flatDensity g))) in *.
  unfold rank, js_of_Z.
  destruct (decide (n = 1)%nat) as [Hn|Hn].
  - assert (k = 0)%nat as -> by lia. rewrite Hn. rewrite js_or0_div_zero. simpl. lra.
  - assert (Hpos : (0 < IZR (Z.of_nat n - 1))%R) by (apply (IZR_lt 0); lia).
    rewrite js_div_Fin by lra. unfold js_or0. simpl.
    apply Rdiv_unit; [|done]. split; [apply (IZR_le 0); lia|apply IZR_le; lia].
Qed.

(** Every normalised colour value lies between 0 and 1. *)
Lemma applyColorScaling_unit density colorScaling gridWidth gridHeight scaled :
  shaped gridHeight gridWidth density → nonneg density →
  _applyColorScaling density colorScaling gridWidth gridHeight = Some scaled →
  ∀ y x c, cell scaled y x = Some c → inUnit c.
Proof.
  intros Hshape Hnn Hrun y x c Hc.
  assert (Hscaled : shaped gridHeight gridWidth scaled).
  { unfold _applyColorScaling in Hrun.
    pose proof (shaped_newGrid gridHeight gridWidth (Fin 0)) as Hinit.
    destruct (_ =? 0)%nat; [by simplify_eq|].
    destruct (String.eqb colorScaling "sqrt");
      [|destruct (String.eqb colorScaling "log");
        [|destruct (String.eqb colorScaling "percentile")]];
      by apply (scaleCells_spec _ _ _ _ _ _ Hinit) in Hrun as [? _]. }
  destruct (cell_shaped _ _ _ _ _ _ Hscaled Hc) as [Hy Hx].
  destruct (shaped_cell _ _ _ y x Hshape Hy Hx) as [a Ha].
  pose proof (Hnn _ _ _ Ha) as Ha0.
  destruct (decide (colorScaling = "percentile"%string)) as [->|Hcs].
  { rewrite (applyColorScaling_percentile _ _ _ _ _ _ _ Hrun Hy Hx Ha) in Hc.
    simplify_eq. apply percentileOf_unit; [done|]. by exists y, x. }
  destruct (length (flatDensity density) =? 0)%nat eqn:Hflat.
  { unfold _applyColorScaling in Hrun. fold (flatDensity density) in Hrun.
    rewrite Hflat in Hrun. simplify_eq.
    apply cell_newGrid in Hc as [-> _]. simpl. lra. }
  destruct (flatDensity_max _ Hflat) as (m & Hmax & Hm).
  rewrite (applyColorScaling_ratio _ _ _ _ _ m y x a Hcs Hrun Hmax Hy Hx Ha Ha0) in Hc.
  simplify_eq. simpl. apply Rdiv_unit; [|by apply scaleOf_pos].
  apply scaleOf_mono; [done|].
  destruct (decide (a = 0)) as [->|Hne]; [lia|].
  apply (Math_max_le _ _ _ Hmax). eapply cell_flatDensity; [done|lia].
Qed.


Lemma cell_concat (g : Grid) y x a : cell g y x = Some a → a ∈ concat g.
Proof.
  unfold cell. intros H. destruct (g !! y) as [row|] eqn:Hy; simpl in H; [|done].
  apply list_elem_of_In, in_concat.
  exists row. split; apply list_elem_of_In; by eapply list_elem_of_lookup_2.
Qed.

(** Every normalised alpha value lies between 0 and 1. *)
Lemma normalizeAlphaDensity_unit density gridWidth gridHeight alpha :
  shaped gridHeight gridWidth density → nonneg density →
  _normalizeAlphaDensity density gridWidth gridHeight = Some alpha →
  ∀ y x c, cell alpha y x = Some c → inUnit c.
Proof.
  unfold _normalizeAlphaDensity. intros Hshape Hnn Hrun y x c Hc.
  destruct (Math_max (concat density)) as [m|] eqn:Hmax; simpl in Hrun.
  2: { simplify_eq. apply cell_newGrid in Hc as [-> _]. simpl. lra. }
  destruct (0 <? m) eqn:Hm.
  2: { simplify_eq. apply cell_newGrid in Hc as [-> _]. simpl. lra. }
  apply Z.ltb_lt in Hm.
  apply scaleCells_spec in Hrun as [Hal Hspec]; [|apply shaped_newGrid].
  destruct (cell_shaped _ _ _ _ _ _ Hal Hc) as [Hy Hx].
  destruct (shaped_cell _ _ _ y x Hshape Hy Hx) as [a Ha].
  rewrite (Hspec y x Hy Hx), Ha in Hc. simplify_eq.
  pose proof (Hnn _ _ _ Ha) as Ha0.
  pose proof (Math_max_le _ _ _ Hmax (cell_concat _ _ _ _ Ha)) as Ham.
  change (js_of_Z m) with (js_of_max (Some m)). rewrite linear_Fin by done.
  assert (Hq : (0 <= IZR a / IZR m <= 1)%R).
  { apply Rdiv_unit; [|by apply (IZR_lt 0)]. split; [by apply (IZR_le 0)|by apply IZR_le]. }
  unfold js_sqrt. destruct (Rlt_dec _ 0); [lra|]. simpl.
  split; [apply sqrt_pos|]. rewrite <- sqrt_1. apply sqrt_le_1_alt. lra.
Qed.

Lemma heatmap_grids runs colorScaling visualizationType maxValue hm :
  createHeatmap runs colorScaling visualizationType maxValue = Some hm → runs ≠ [] →
  rawDensities runs visualizationType maxValue =
    Some (rawVerticalDensity hm, rawHorizontalDensity hm) ∧
  bothShaped (gridHeight hm) (gridWidth hm) (rawVerticalDensity hm, rawHorizontalDensity hm) ∧
  _applyColorScaling (rawVerticalDensity hm) colorScaling (gridWidth hm) (gridHeight hm) =
    Some (colorDensity hm) ∧
  _normalizeAlphaDensity (rawHorizontalDensity hm) (gridWidth hm) (gridHeight hm) =
    Some (alphaDensity hm) ∧
  gridWidth hm = Nat.min (max_list (length <$> runs)) 1000 ∧
  gridHeight hm = Z.to_nat (maxValue + 1).
Proof.
  intros Hhm Hruns. pose proof Hhm as Hparts.
  apply createHeatmap_Some in Hparts as [(? & _)|(Hraw & Hc & Ha)]; [done|].
  destruct (createHeatmap_total runs colorScaling visualizationType maxValue _ _ Hruns Hraw)
    as (hm' & Hhm' & _ & _ & Hw & Hh).
  rewrite Hhm in Hhm'. injection Hhm' as <-.
  split; [done|]. split; [|done].
  rewrite Hw, Hh. by apply rawDensities_shaped in Hraw.
Qed.


Lemma rawDensities_nonneg_horizontal runs visualizationType maxValue d :
  rawDensities runs visualizationType maxValue = Some d → nonneg d.2.
Proof.
  intros Hraw y x h Hh.
  pose proof (rawDensities_shaped _ _ _ _ Hraw) as [Hs1 Hs2].
  destruct (cell_shaped _ _ _ _ _ _ Hs2 Hh) as [Hy Hx].
  destruct (shaped_cell _ _ _ y x Hs1 Hy Hx) as [v Hv].
  apply (rawDensities_cellwise (λ _ b, 0 ≤ b)) in Hraw; [|intros; lia|done].
  by apply (Hraw y x v h).
Qed.

(** X19. Every cell of [colorDensity] and of [alphaDensity] of a heat map
    is a number between 0 and 1 (never NaN or an infinity), under every colour
    scaling and in both aggregation modes. *)
Theorem X19_normalised_values_in_unit runs colorScaling visualizationType maxValue hm :
  createHeatmap runs colorScaling visualizationType maxValue = Some hm →
  (∀ y x c, cell (colorDensity hm) y x = Some c → inUnit c) ∧
  (∀ y x c, cell (alphaDensity hm) y x = Some c → inUnit c).
Proof.
  intros Hhm. destruct (decide (runs = [])) as [->|Hruns].
  { unfold createHeatmap in Hhm. simpl in Hhm. simplify_eq. simpl. by split. }
  destruct (heatmap_grids _ _ _ _ _ Hhm Hruns) as (Hraw & [Hs1 Hs2] & Hc & Ha & _).
  pose proof (rawDensities_nonneg _ _ _ _ Hraw) as Hn1.
  pose proof (rawDensities_nonneg_horizontal _ _ _ _ Hraw) as Hn2.
  split.
  - exact (applyColorScaling_unit _ _ _ _ _ Hs1 Hn1 Hc).
  - exact (normalizeAlphaDensity_unit _ _ _ _ Hs2 Hn2 Ha).
Qed.

Lemma X19_normalised_values_in_unit_witness :
  ∃ hm, createHeatmap [[0; 1]; [0; 0; 1]] "sqrt" "heatmap" 1 = Some hm ∧
        (∀ y x c, cell (colorDensity hm) y x = Some c → inUnit c) ∧
        (∀ y x c, cell (alphaDensity hm) y x = Some c → inUnit c).
Proof.
  eexists. split; [reflexivity|].
  apply (X19_normalised_values_in_unit [[0; 1]; [0; 0; 1]] "sqrt" "heatmap" 1).
  reflexivity.
Defined.

(** X20. The sqrt, log and linear scalings (every name but percentile)
    keep the strict order of any two cells whose raw values are not negative:
    the cell with the larger raw value gets the larger normalised value. *)
Theorem X20_scaling_keeps_order (density : Grid) colorScaling gridWidth gridHeight scaled
    y1 x1 y2 x2 a b :
  colorScaling ≠ "percentile"%string →
  _applyColorScaling density colorScaling gridWidth gridHeight = Some scaled →
  (y1 < gridHeight)%nat → (x1 < gridWidth)%nat →
  (y2 < gridHeight)%nat → (x2 < gridWidth)%nat →
  cell density y1 x1 = Some a → cell density y2 x2 = Some b →
  0 ≤ a → a < b →
  ∃ na nb, cell scaled y1 x1 = Some na ∧ cell scaled y2 x2 = Some nb ∧ js_lt na nb.
Proof.
  intros Hcs Hrun Hy1 Hx1 Hy2 Hx2 Ha Hb Ha0 Hab.
  assert (Hin : b ∈ flatDensity density) by (eapply cell_flatDensity; [done|lia]).
  destruct (length (flatDensity density) =? 0)%nat eqn:Hflat.
  { apply Nat.eqb_eq in Hflat. destruct (flatDensity density); [|done].
    by apply elem_of_nil in Hin. }
  destruct (flatDensity_max _ Hflat) as (m & Hmax & Hm).
  eexists _, _. split; [|split].
  - by eapply (applyColorScaling_ratio _ _ _ _ _ m y1 x1 a).
  - eapply (applyColorScaling_ratio _ _ _ _ _ m y2 x2 b); [done..|lia].
  - simpl. apply Rdiv_lt; [by apply scaleOf_strict|by apply scaleOf_pos].
Qed.

Lemma X20_scaling_keeps_order_witness :
  ∃ scaled, _applyColorScaling [[0; 1; 2]] "log" 3 1 = Some scaled ∧
    ∃ na nb, cell scaled 0 0 = Some na ∧ cell scaled 0 1 = Some nb ∧ js_lt na nb.
Proof.
  eexists. split; [reflexivity|].
  apply (X20_scaling_keeps_order [[0; 1; 2]] "log" 3 1 _ 0 0 0 1 0 1);
    [done | reflexivity | lia | lia | lia | lia | reflexivity | reflexivity | lia | lia].
Defined.

Lemma Math_max_elem l m : Math_max l = Some m → m ∈ l.
Proof.
  destruct l as [|v l]; [done|]. simpl. intros ?; simplify_eq.
  induction l as [|c l IH]; simpl; [by left|].
  destruct (Z.max_spec c (foldr Z.max v l)) as [[_ ->]|[_ ->]].
  - apply elem_of_cons in IH as [->|IH]; [by left|]. right. by right.
  - right. by left.
Qed.

(** The largest positive value is the last of the sorted distinct values. *)
Lemma uniqueValues_last g b (k : nat) :
  largest g b → uniqueValues (flatDensity g) !! k = Some b →
  S k = length (uniqueValues (flatDensity g)).
Proof.
  intros Hmax Hk. pose proof (lookup_lt_Some _ _ _ Hk) as Hlt.
  destruct (uniqueValues_spec (flatDensity g)) as (Hnd & Hsorted & Hel).
  destruct (decide (S k = length (uniqueValues (flatDensity g)))) as [|Hne]; [done|].
  destruct (lookup_lt_is_Some_2 (uniqueValues (flatDensity g)) (S k) ltac:(lia)) as [c Hc].
  pose proof (sorted_lookup_le _ k (S k) b c Hsorted ltac:(lia) Hk Hc) as Hle.
  assert (Hcell : ∃ y x, cell g y x = Some c).
  { apply flatDensity_cell, Hel. by eapply list_elem_of_lookup_2. }
  destruct Hcell as (y & x & Hcell). pose proof (Hmax _ _ _ Hcell) as Hcb.
  assert (c = b) as -> by lia.
  pose proof (NoDup_lookup _ _ _ _ Hnd Hk Hc). lia.
Qed.

(** X21. The cell that holds the largest raw value, if that is positive,
    is normalised to exactly 1 by the sqrt, log and linear scalings, and by
    the percentile scaling when the grid holds a smaller positive value
    too. *)
Theorem X21_largest_is_one (density : Grid) colorScaling gridWidth gridHeight scaled y x b :
  _applyColorScaling density colorScaling gridWidth gridHeight = Some scaled →
  (y < gridHeight)%nat → (x < gridWidth)%nat →
  cell density y x = Some b → 0 < b → largest density b →
  (colorScaling = "percentile"%string →
   ∃ y' x' a, cell density y' x' = Some a ∧ 0 < a < b) →
  cell scaled y x = Some (Fin 1).
Proof.
  intros Hrun Hy Hx Hb Hb0 Hmax Hsecond.
  assert (Hin : b ∈ flatDensity density) by by eapply cell_flatDensity.
  destruct (length (flatDensity density) =? 0)%nat eqn:Hflat.
  { apply Nat.eqb_eq in Hflat. destruct (flatDensity density); [|done].
    by apply elem_of_nil in Hin. }
  destruct (decide (colorScaling = "percentile"%string)) as [->|Hcs].
  - rewrite (applyColorScaling_percentile _ _ _ _ _ _ _ Hrun Hy Hx Hb). f_equal.
    destruct (Hsecond eq_refl) as (y' & x' & a & Ha & Ha0 & Hab).
    unfold percentileOf. rewrite Hflat.
    destruct (uniqueValues_spec (flatDensity density)) as (Hnd & Hsorted & Hel).
    pose proof Hin as Hinb. apply Hel, list_elem_of_lookup in Hinb as [k Hk].
    assert (Hina : a ∈ flatDensity density) by by eapply cell_flatDensity.
    apply Hel, list_elem_of_lookup in Hina as [i Hi].
    pose proof (sorted_lookup_lt _ i k a b Hsorted Hi Hk Hab) as Hik.
    pose proof (uniqueValues_last _ _ _ Hmax Hk) as Hlast.
    rewrite (percentileMap_lookup _ k b Hk) by lia. rewrite <- Hlast.
    unfold rank, js_of_Z.
    replace (Z.of_nat (S k) - 1) with (Z.of_nat k) by lia.
    assert (Hpos : (0 < IZR (Z.of_nat k))%R) by (apply (IZR_lt 0); lia).
    rewrite js_div_Fin by lra. unfold js_or0. f_equal. apply Rdiv_diag. lra.
  - destruct (flatDensity_max _ Hflat) as (m & Hm & Hm0).
    rewrite (applyColorScaling_ratio _ _ _ _ _ m y x b Hcs Hrun Hm Hy Hx Hb ltac:(lia)).
    assert (m = b) as ->.
    { pose proof (Math_max_le _ _ _ Hm Hin).
      destruct (flatDensity_cell _ _ (Math_max_elem _ _ Hm)) as (y' & x' & Hc).
      pose proof (Hmax _ _ _ Hc). lia. }
    do 2 f_equal. apply Rdiv_diag. pose proof (scaleOf_pos colorScaling b Hb0). lra.
Qed.

Lemma X21_largest_is_one_witness :
  ∃ scaled, _applyColorScaling [[0; 1; 2]] "percentile" 3 1 = Some scaled ∧
            cell scaled 0 2 = Some (Fin 1).
Proof.
  eexists. split; [reflexivity|].
  apply (X21_largest_is_one [[0; 1; 2]] "percentile" 3 1 _ 0 2 2);
    [reflexivity | lia | lia | reflexivity | lia | | ].
  - intros [|[|y]] [|[|[|[|x]]]] c Hc; unfold cell in Hc; simpl in Hc; simplify_eq; lia.
  - intros _. exists 0%nat, 1%nat, 1. split; [reflexivity|lia].
Defined.

End ScalingMore.

(* ===================================================================== *)
(** * The pipeline from the scheduler to the heat map *)
(* ===================================================================== *)

Module Pipeline.
Import SimulationEngine SimulationSpec SimulationProps BatchProps RunBounds BatchMore.
Import VisualizationEngine VisualizationSpec VisualizationProps DensityMore ScalingMore.
Local Open Scope Z_scope.

(** X22. The completed paths that [runMultipleSimulations] returns can
    always be aggregated: for a target between 0 and 100, the largest that
    [validateParameters] accepts (and, when continuing, former paths with
    values between 0 and the target), every counter value of [allPaths] has
    its row in the grids of [maxValue + 1] rows that [createHeatmap]
    allocates, so that [_calculateFullDensity] and [_calculatePeakDensity]
    raise no exception on them and leave grids of the same shape, for every
    width of the grid up to 1000, the largest that [createHeatmap] passes,
    and every length it is compressed from. *)
Theorem X22_results_can_be_aggregated p existing turns endElapsed res console
    maxLength gridWidth :
  0 ≤ SimulationEngine.maxValue p ≤ 100 →
  (gridWidth ≤ 1000)%nat →
  (∀ e, existing = Some e →
        Forall (Forall (λ v, 0 ≤ v ≤ SimulationEngine.maxValue p)) (completedRuns e)) →
  runMultipleSimulations p existing turns endElapsed = Some (res, console) →
  let gridHeight := Z.to_nat (SimulationEngine.maxValue p + 1) in
  let empty := newGrid gridHeight gridWidth 0 in
  (∃ d, _calculateFullDensity (allPaths res) empty empty maxLength gridWidth gridHeight =
          Some d ∧ bothShaped gridHeight gridWidth d) ∧
  (∃ d, _calculatePeakDensity (allPaths res) empty empty maxLength gridWidth gridHeight =
          Some d ∧ bothShaped gridHeight gridWidth d).
Proof.
  intros Hm _ He H gridHeight empty.
  assert (Hruns : Forall (inRows gridHeight) (allPaths res)).
  { apply runMultipleSimulations_Some in H as (st & Hloop & -> & _).
    apply batchLoop_completed in Hloop as (new & Hnew & Hall).
    unfold allPaths. simpl. rewrite Hnew. apply Forall_app. split.
    - destruct existing as [e|]; simpl; [|done].
      eapply Forall_impl; [by apply He|]. intros run Hrun.
      eapply Forall_impl; [exact Hrun|]. simpl. intros v Hv. unfold gridHeight. lia.
    - eapply Forall_impl; [exact Hall|]. intros run [_ _ _ Hrun _].
      eapply Forall_impl; [exact Hrun|]. simpl. intros v Hv. unfold gridHeight. lia. }
  assert (Hempty : bothShaped gridHeight gridWidth (empty, empty))
    by (split; apply shaped_newGrid).
  split.
  - by apply calculateFullDensity_total.
  - by apply calculatePeakDensity_total.
Qed.

Lemma X22_results_can_be_aggregated_witness :
  let p := mkBatchParams 2 (1 # 2) 1 1 (Some 2000) in
  let turns := [mkTurn 0 [3 # 4; 1 # 4]%Q 1 5 false; mkTurn 2500 [] 0 0 false] in
  ∃ res console,
    runMultipleSimulations p None turns 2501 = Some (res, console) ∧
    let gridHeight := Z.to_nat (SimulationEngine.maxValue p + 1) in
    let empty := newGrid gridHeight 3 0 in
    (∃ d, _calculateFullDensity (allPaths res) empty empty 3 3 gridHeight =
            Some d ∧ bothShaped gridHeight 3 d) ∧
    (∃ d, _calculatePeakDensity (allPaths res) empty empty 3 3 gridHeight =
            Some d ∧ bothShaped gridHeight 3 d).
Proof.
  intros p turns. eexists _, _. split; [reflexivity|].
  eapply (X22_results_can_be_aggregated p None turns 2501 _ _ 3 3);
    [simpl; lia | lia | intros e He; discriminate He | reflexivity].
Defined.

End Pipeline.

(* ===================================================================== *)
(** * The painted cells and their colours *)
(* ===================================================================== *)

Module PaintMore.
Import VisualizationEngine VisualizationSpec VisualizationProps.
Import DensityMore ScalingMore.
Local Open Scope Z_scope.

Lemma Math_round_bounds (lo hi : Z) (v : R) :
  (IZR lo <= v <= IZR hi)%R → lo ≤ Math_round v ≤ hi.
Proof.
  intros [Hlo Hhi]. unfold Math_round.
  destruct (base_Int_part (v + / 2)) as [H1 H2]. split.
  - assert (lo - 1 < Int_part (v + / 2)); [|lia].
    apply lt_IZR. rewrite minus_IZR. lra.
  - assert (Int_part (v + / 2) < hi + 1); [|lia].
    apply lt_IZR. rewrite plus_IZR. lra.
Qed.

Lemma colorRamp_bounds (c : R) :
  (0 <= c <= 1)%R →
  let '(r, g, b) := colorRamp c in
  (30 <= r <= 255 ∧ 30 <= g <= 200 ∧ 0 <= b <= 150)%R.
Proof.
  intros Hc. unfold colorRamp.
  destruct (Rlt_dec c 0.2); [lra|]. destruct (Rlt_dec c 0.4); [lra|].
  destruct (Rlt_dec c 0.6); [lra|]. destruct (Rlt_dec c 0.8); lra.
Qed.

(** X24. For a colour value and an alpha value between 0 and 1, as the
    cells of a heat map hold them, [getHeatmapColor] gives red, green and blue
    between 0 and 255 and an alpha between 0 and 1, which is 0 only when both
    values are 0. *)
Theorem X24_colour_is_valid (colorValue alphaValue : R) :
  (0 <= colorValue <= 1)%R → (0 <= alphaValue <= 1)%R →
  let c := getHeatmapColor colorValue alphaValue in
  0 ≤ red c ≤ 255 ∧ 0 ≤ green c ≤ 255 ∧ 0 ≤ blue c ≤ 255 ∧ (0 <= alpha c <= 1)%R ∧
  (alpha c = 0%R ↔ colorValue = 0%R ∧ alphaValue = 0%R).
Proof.
  intros Hc Ha.
  pose proof (colorRamp_bounds colorValue Hc) as Hramp.
  assert (Halpha : (0.1 <= Rmin (0.1 + alphaValue * 0.9) 1 <= 1)%R).
  { split; [apply Rmin_glb; lra|apply Rmin_r]. }
  unfold getHeatmapColor.
  destruct (colorRamp colorValue) as [[r g] b]. destruct Hramp as (Hr & Hg & Hb).
  pose proof (Math_round_bounds 30 255 r Hr).
  pose proof (Math_round_bounds 30 200 g Hg).
  pose proof (Math_round_bounds 0 150 b Hb).
  destruct (Req_dec_T colorValue 0) as [E1|E1];
    [destruct (Req_dec_T alphaValue 0) as [E2|E2]|]; simpl.
  - repeat split; try lia; try lra.
  - repeat split; try lia; try lra.
  - repeat split; try lia; try lra.
Qed.


Lemma X24_colour_is_valid_witness :
  let c := getHeatmapColor (1 / 2) (1 / 2) in
  0 ≤ red c ≤ 255 ∧ 0 ≤ green c ≤ 255 ∧ 0 ≤ blue c ≤ 255 ∧ (0 <= alpha c <= 1)%R ∧
  (alpha c = 0%R ↔ (1 / 2 = 0 ∧ 1 / 2 = 0)%R).
Proof. apply (X24_colour_is_valid (1 / 2) (1 / 2)); lra. Defined.

#[local] Arguments js_div : simpl never.
#[local] Arguments js_sqrt : simpl never.

Lemma applyColorScaling_shaped density colorScaling gridWidth gridHeight scaled :
  _applyColorScaling density colorScaling gridWidth gridHeight = Some scaled →
  shaped gridHeight gridWidth scaled.
Proof.
  unfold _applyColorScaling. intros Hrun.
  pose proof (shaped_newGrid gridHeight gridWidth (Fin 0)) as Hinit.
  destruct (_ =? 0)%nat; [by simplify_eq|].
  destruct (String.eqb colorScaling "sqrt");
    [|destruct (String.eqb colorScaling "log");
      [|destruct (String.eqb colorScaling "percentile")]];
    by apply (scaleCells_spec _ _ _ _ _ _ Hinit) in Hrun as [? _].
Qed.

Lemma normalizeAlphaDensity_shaped density gridWidth gridHeight normalized :
  _normalizeAlphaDensity density gridWidth gridHeight = Some normalized →
  shaped gridHeight gridWidth normalized.
Proof.
  unfold _normalizeAlphaDensity. intros Hrun.
  pose proof (shaped_newGrid gridHeight gridWidth (Fin 0)) as Hinit.
  destruct (from_option _ _ _); [|by simplify_eq].
  by apply (scaleCells_spec _ _ _ _ _ _ Hinit) in Hrun as [? _].
Qed.

(** A cell with a positive horizontal count gets a positive alpha value. *)
Lemma normalizeAlphaDensity_positive density gridWidth gridHeight normalized y x a :
  _normalizeAlphaDensity density gridWidth gridHeight = Some normalized →
  (y < gridHeight)%nat → (x < gridWidth)%nat →
  cell density y x = Some a → 0 < a →
  ∃ r, cell normalized y x = Some (Fin r) ∧ (0 < r)%R.
Proof.
  unfold _normalizeAlphaDensity. intros Hrun Hy Hx Ha Ha0.
  pose proof (cell_concat _ _ _ _ Ha) as Hin.
  destruct (Math_max (concat density)) as [m|] eqn:Hmax.
  2: { destruct (concat density); [by apply elem_of_nil in Hin|done]. }
  pose proof (Math_max_le _ _ _ Hmax Hin) as Ham. simpl in Hrun.
  assert (Hm : (0 <? m) = true) by lia. rewrite Hm in Hrun.
  apply scaleCells_spec in Hrun as [_ Hspec]; [|apply shaped_newGrid].
  rewrite (Hspec y x Hy Hx), Ha.
  change (js_of_Z m) with (js_of_max (Some m)). rewrite linear_Fin by lia.
  assert (Hq : (0 < IZR a / IZR m)%R).
  { apply Rdiv_lt_0_compat; apply (IZR_lt 0); lia. }
  unfold js_sqrt. destruct (Rlt_dec _ 0); [lra|].
  eexists. split; [done|]. by apply sqrt_lt_R0.
Qed.

(** X23. [_drawHeatmap] paints exactly the cells that some run marked: for
    every cell of a heat map the test [colorValue > 0 || alphaValue > 0] holds
    exactly when the raw vertical density of the cell is positive, under every
    scaling (also for the smallest positive value under percentile scaling,
    whose colour value is 0). *)
Theorem X23_painted_cells runs colorScaling visualizationType maxValue hm y x v :
  createHeatmap runs colorScaling visualizationType maxValue = Some hm →
  cell (rawVerticalDensity hm) y x = Some v →
  ∃ c a, cell (colorDensity hm) y x = Some c ∧ cell (alphaDensity hm) y x = Some a ∧
         (paints c a = true ↔ 0 < v).
Proof.
  intros Hhm Hv. destruct (decide (runs = [])) as [->|Hruns].
  { unfold createHeatmap in Hhm. simpl in Hhm. by simplify_eq. }
  destruct (heatmap_grids _ _ _ _ _ Hhm Hruns) as (Hraw & [Hs1 Hs2] & Hc & Ha & _).
  simpl in Hs1, Hs2.
  destruct (cell_shaped _ _ _ _ _ _ Hs1 Hv) as [Hy Hx].
  destruct (shaped_cell _ _ _ y x Hs2 Hy Hx) as [h Hh].
  pose proof (rawDensities_cellwise sameSupport) as Hsupp.
  specialize (Hsupp ltac:(unfold sameSupport; intros; lia) _ _ _ _
                ltac:(unfold sameSupport; lia) Hraw y x v h Hv Hh).
  destruct Hsupp as (Hv0 & Hh0 & Hvh).
  destruct (decide (v = 0)) as [->|Hne].
  - assert (h = 0) as -> by tauto.
    exists (Fin 0), (Fin 0).
    split; [by eapply applyColorScaling_zero|].
    split; [by eapply normalizeAlphaDensity_zero|].
    unfold paints, js_positive. destruct (Rlt_dec 0 0); [lra|]. simpl. split; [done|lia].
  - destruct (shaped_cell _ _ _ y x (applyColorScaling_shaped _ _ _ _ _ Hc) Hy Hx)
      as [c Hcell].
    destruct (normalizeAlphaDensity_positive _ _ _ _ y x h Ha Hy Hx Hh) as (r & Hr & Hr0);
      [lia|].
    exists c, (Fin r). split; [done|]. split; [done|].
    unfold paints. simpl. destruct (Rlt_dec 0 r); [|lra].
    rewrite orb_true_r. split; [lia|done].
Qed.

Lemma X23_painted_cells_witness :
  ∃ hm, createHeatmap [[0; 1]; [0; 0; 1]] "percentile" "heatmap" 1 = Some hm ∧
    ∃ c a, cell (colorDensity hm) 0 1 = Some c ∧ cell (alphaDensity hm) 0 1 = Some a ∧
           (paints c a = true ↔ 0 < 1).
Proof.
  eexists. split; [reflexivity|].
  apply (X23_painted_cells [[0; 1]; [0; 0; 1]] "percentile" "heatmap" 1 _ 0 1 1);
    reflexivity.
Defined.

End PaintMore.

(* ===================================================================== *)
(** * Properties of the validation of the parameters *)
(* ===================================================================== *)

Module UIProps.
Import UIController UISpec.
Local Open Scope Z_scope.

Lemma int_test lo hi a : int_lt a lo || int_gt a hi = false ↔ intAccepted lo hi a.
Proof.
  destruct a as [z|]; simpl; [|done].
  rewrite orb_false_iff, Z.ltb_ge. split; [intros [? ?]|intros [? ?]; split]; lia.
Qed.

Lemma float_test hi a : float_le a 0 || float_gt a hi = false ↔ floatAccepted hi a.
Proof.
  destruct a as [q| | |]; simpl; try done; try (split; [done|tauto]).
  rewrite orb_false_iff, negb_false_iff, Qle_bool_iff.
  split.
  - intros [H0 H1]. split; [|done]. apply Qnot_le_lt. intros Hle.
    apply Qle_bool_iff in Hle. congruence.
  - intros [H0 H1]. split; [|done]. destruct (Qle_bool q 0) eqn:E; [|done].
    apply Qle_bool_iff in E. exfalso. by apply (Qlt_not_le 0 q).
Qed.

Lemma pushIf_length test message errs :
  length (pushIf test message errs) = (length errs + (if test then 1 else 0))%nat.
Proof. unfold pushIf. destruct test; rewrite ?length_app; simpl; lia. Qed.

(** X25. [validateParameters] reports no error exactly when every field
    is within its range or did not parse: the number of runs in 1..5000, the
    target in 1..100, the initial probability in (0,1], the decay factor in
    (0,2]; a field that is NaN raises no error, an infinity does.  The
    parameters are returned as read, with at most four errors. *)
Theorem X25_validation p :
  (isValid (validateParameters p) = true ↔
   intAccepted 1 5000 (numRuns p) ∧ intAccepted 1 100 (maxValue p) ∧
   floatAccepted 1 (initialProb p) ∧ floatAccepted 2 (decayFactor p)) ∧
  params (validateParameters p) = p ∧
  (length (errors (validateParameters p)) ≤ 4)%nat.
Proof.
  unfold validateParameters. cbn [isValid errors params].
  rewrite !pushIf_length. simpl length.
  rewrite <- (int_test 1 5000), <- (int_test 1 100), <- (float_test 1), <- (float_test 2).
  split; [|split; [done|]].
  - rewrite Nat.eqb_eq.
    destruct (int_lt (numRuns p) 1 || int_gt (numRuns p) 5000),
      (int_lt (maxValue p) 1 || int_gt (maxValue p) 100),
      (float_le (initialProb p) 0 || float_gt (initialProb p) 1),
      (float_le (decayFactor p) 0 || float_gt (decayFactor p) 2);
      simpl; split; try lia; try tauto; intros (? & ? & ? & ?); congruence.
  - repeat match goal with |- context [if ?b then _ else _] => destruct b end; simpl; lia.
Qed.

End UIProps.

(* ===================================================================== *)
(** * Properties of the statistics *)
(* ===================================================================== *)

Module StatisticsProps.
Import StatisticsCalculator.
Local Open Scope Z_scope.

Lemma foldl_add_sum (l : list Z) (a : Z) : foldl Z.add a l = a + foldr Z.add 0 l.
Proof. revert a. induction l as [|x l IH]; intros a; simpl; [lia|]. rewrite IH. lia. Qed.

Lemma foldr_min_le v l : foldr Z.min v l ≤ v.
Proof. induction l as [|a l IH]; simpl; lia. Qed.

Lemma Math_min_le l m a : Math_min l = Some m → a ∈ l → m ≤ a.
Proof.
  destruct l as [|v l]; [done|]. simpl. intros ? Ha. simplify_eq.
  apply elem_of_cons in Ha as [->|Ha]; [apply foldr_min_le|].
  induction l as [|c l IH]; [by apply elem_of_nil in Ha|]. simpl.
  apply elem_of_cons in Ha as [->|Ha]; [lia|]. specialize (IH Ha). lia.
Qed.

(** The sum of a list lies between its length times a lower and an upper
    bound of its elements. *)
Lemma sum_bounds (l : list Z) (lo hi : Z) :
  (∀ a, a ∈ l → lo ≤ a ≤ hi) →
  Z.of_nat (length l) * lo ≤ foldr Z.add 0 l ≤ Z.of_nat (length l) * hi.
Proof.
  induction l as [|x l IH]; intros H; simpl; [lia|].
  destruct (H x ltac:(by left)). destruct IH; [intros a Ha; apply H; by right|]. lia.
Qed.

(** Rounding keeps a quotient between integer bounds. *)
Lemma Math_round_between (s n lo hi : Z) :
  0 < n → n * lo ≤ s → s ≤ n * hi →
  lo ≤ Math_round (inject_Z s / inject_Z n) ≤ hi.
Proof.
  intros Hn Hlo Hhi. unfold Math_round.
  assert (HnQ : (0 < inject_Z n)%Q) by (rewrite <- (Zlt_Qlt 0); lia).
  assert (H1 : (inject_Z lo <= inject_Z s / inject_Z n)%Q).
  { apply Qle_shift_div_l; [done|]. rewrite <- inject_Z_mult, <- Zle_Qle. lia. }
  assert (H2 : (inject_Z s / inject_Z n <= inject_Z hi)%Q).
  { apply Qle_shift_div_r; [done|]. rewrite <- inject_Z_mult, <- Zle_Qle. lia. }
  split.
  - rewrite <- (Qfloor_Z lo). apply Qfloor_resp_le.
    apply (Qle_trans _ (inject_Z s / inject_Z n)); [done|].
    rewrite <- (Qplus_0_r (inject_Z s / inject_Z n)) at 1.
    apply Qplus_le_r. done.
  - assert (Qfloor (inject_Z s / inject_Z n + (1 # 2)) < hi + 1); [|lia].
    rewrite Zlt_Qlt. eapply Qle_lt_trans; [apply Qfloor_le|].
    rewrite inject_Z_plus.
    rewrite (Qplus_comm (inject_Z s / inject_Z n)), (Qplus_comm (inject_Z hi)).
    apply Qplus_lt_le_compat; done.
Qed.


(** The four numbers of the path length analysis of a list of runs that is
    not empty. *)
Lemma lengthAnalysis_spec (runs : list (list Z)) avg median longest shortest :
  runs ≠ [] →
  lengthAnalysis runs = (avg, median, longest, shortest) →
  (∀ run, run ∈ runs → shortest ≤ Z.of_nat (length run) ≤ longest) ∧
  (∃ run, run ∈ runs ∧ median = Z.of_nat (length run)) ∧
  shortest ≤ Math_round avg ≤ longest.
Proof.
  intros Hne. unfold lengthAnalysis.
  destruct (0 <? length runs)%nat eqn:Hn.
  2: { apply Nat.ltb_ge in Hn. destruct runs; [done|simpl in Hn; lia]. }
  apply Nat.ltb_lt in Hn.
  set (lengths := (λ run : list Z, Z.of_nat (length run)) <$> runs).
  assert (Hlen : length lengths = length runs) by apply length_fmap.
  destruct (VisualizationEngine.Math_max lengths) as [hi|] eqn:Hmax.
  2: { destruct lengths; [simpl in Hlen; lia|done]. }
  destruct (Math_min lengths) as [lo|] eqn:Hmin.
  2: { destruct lengths; [simpl in Hlen; lia|done]. }
  cbn [from_option id]. intros [= <- <- <- <-].
  change (Nat.divmod (length (merge_sort Z.le lengths)) 1 0 1).1
    with (length (merge_sort Z.le lengths) / 2)%nat.
  assert (Hbounds : ∀ a, a ∈ lengths → lo ≤ a ≤ hi).
  { intros a Ha. split; [by eapply Math_min_le|by eapply ScalingMore.Math_max_le]. }
  split; [|split].
  - intros run Hrun. apply Hbounds. apply list_elem_of_fmap. by exists run.
  - destruct (lookup_lt_is_Some_2 (merge_sort Z.le lengths)
                (length (merge_sort Z.le lengths) / 2)) as [m Hm].
    { apply Nat.div_lt; [|lia]. rewrite merge_sort_Permutation. lia. }
    rewrite Hm. cbn [from_option id].
    apply list_elem_of_lookup_2 in Hm. rewrite merge_sort_Permutation in Hm.
    apply list_elem_of_fmap in Hm as (run & -> & Hrun). by exists run.
  - rewrite foldl_add_sum, Z.add_0_l.
    pose proof (sum_bounds lengths lo hi Hbounds) as [H1 H2].
    apply Math_round_between; lia.
Qed.

(** X26. For results with data and a completed run, [calculateStats]
    gives [minLength <= medianLength <= maxLength] and
    [minLength <= avgLength <= maxLength]; the median is the length of one of
    the completed runs, and every completed run has a length between
    [minLength] and [maxLength]. *)
Theorem X26_length_statistics (r : SimulationEngine.BatchResult) maxValue :
  SimulationEngine.hasAnyData r = true → SimulationEngine.completedRuns r ≠ [] →
  let s := calculateStats (Some r) maxValue in
  hasData s = true ∧
  minLength s ≤ medianLength s ≤ maxLength s ∧
  minLength s ≤ avgLength s ≤ maxLength s ∧
  (∃ run, run ∈ SimulationEngine.completedRuns r ∧ medianLength s = Z.of_nat (length run)) ∧
  (∀ run, run ∈ SimulationEngine.completedRuns r →
          minLength s ≤ Z.of_nat (length run) ≤ maxLength s).
Proof.
  intros Hdata Hne. unfold calculateStats. rewrite Hdata.
  destruct (lengthAnalysis (SimulationEngine.completedRuns r)) as [[[avg median] hi] lo] eqn:E.
  apply lengthAnalysis_spec in E as (Hall & (run & Hrun & ->) & Havg); [|done].
  simpl. split; [done|]. split; [by apply Hall|]. split; [done|].
  split; [by exists run|done].
Qed.

Lemma X26_length_statistics_witness :
  let r := SimulationEngine.mkBatchResult [[0; 1]; [0; 0; 0; 1]; [0; 0; 1]] [] [] 3 3 3 100
             5 5 true false false true SimulationEngine.initial 0 2 3 1 in
  let s := calculateStats (Some r) 1 in
  hasData s = true ∧
  minLength s ≤ medianLength s ≤ maxLength s ∧
  minLength s ≤ avgLength s ≤ maxLength s ∧
  (∃ run, run ∈ SimulationEngine.completedRuns r ∧ medianLength s = Z.of_nat (length run)) ∧
  (∀ run, run ∈ SimulationEngine.completedRuns r →
          minLength s ≤ Z.of_nat (length run) ≤ maxLength s).
Proof.
  intros r. apply (X26_length_statistics r 1); [reflexivity|done].
Defined.

(** The median of three runs of 2, 4 and 3 values is 3. *)
Example calculateStats_median :
  let r := SimulationEngine.mkBatchResult [[0; 1]; [0; 0; 0; 1]; [0; 0; 1]] [] [] 3 3 3 100
             5 5 true false false true SimulationEngine.initial 0 2 3 1 in
  let s := calculateStats (Some r) 1 in
  (avgLength s, medianLength s, maxLength s, minLength s) = (3, 3, 4, 2).
Proof. vm_compute. reflexivity. Qed.


Lemma orElse_same (a : Q) : orElse a a = a.
Proof. unfold orElse. by destruct (Qeq_bool a 0). Qed.

(** X27. On the results of [runMultipleSimulations] (started afresh, or
    continued from results whose counts agree) [calculateStats] has [hasData]
    equal to [hasAnyData], [actualSuccesses] equal to the number of completed
    runs, [avgSuccessfulIterations] equal to [avgLength] when there is data,
    and the four length statistics 0 when there is none. *)
Theorem X27_statistics_of_a_batch p existing turns endElapsed res console :
  (∀ e, existing = Some e → SimulationSpec.countsAgree e) →
  SimulationEngine.runMultipleSimulations p existing turns endElapsed = Some (res, console) →
  let s := calculateStats (Some res) (SimulationEngine.maxValue p) in
  hasData s = SimulationEngine.hasAnyData res ∧
  actualSuccesses s = Z.of_nat (length (SimulationEngine.completedRuns res)) ∧
  (hasData s = true → avgSuccessfulIterations s = Some (avgLength s)) ∧
  (hasData s = false →
   (avgLength s, medianLength s, maxLength s, minLength s) = (0, 0, 0, 0)).
Proof.
  intros He H.
  apply BatchMore.runMultipleSimulations_Some in H as (st & Hloop & -> & _).
  apply BatchMore.batchLoop_counted in Hloop as [H1 H2 H3].
  2: { destruct existing as [e|]; simpl; [by apply He|]. by split. }
  unfold calculateStats. simpl.
  destruct (SimulationEngine.b_successfulRuns st >? 0) eqn:Hpos.
  - destruct (lengthAnalysis (SimulationEngine.b_completedRuns st))
      as [[[avg median] hi] lo] eqn:E.
    simpl. split; [done|]. split; [done|]. split; [|done]. intros _. do 2 f_equal.
    unfold lengthAnalysis in E.
    assert (Hn : (0 <? length (SimulationEngine.b_completedRuns st))%nat = true).
    { apply Nat.ltb_lt. lia. }
    rewrite Hn in E. injection E as <- _ _ _.
    unfold SimulationEngine.average. rewrite !length_fmap.
    assert (Hz : (0 <? Z.of_nat (length (SimulationEngine.b_completedRuns st))) = true)
      by lia.
    rewrite Hz. unfold SimulationEngine.Zsum. rewrite foldl_add_sum, Z.add_0_l.
    apply orElse_same.
  - simpl. split; [done|]. split; [lia|]. split; [done|]. done.
Qed.

Lemma X27_statistics_of_a_batch_witness :
  let p := SimulationEngine.mkBatchParams 2 (1 # 2) 1 1 (Some 2000) in
  let turns := [SimulationEngine.mkTurn 0 [3 # 4; 1 # 4]%Q 1 5 false;
                SimulationEngine.mkTurn 2500 [] 0 0 false] in
  ∃ res console,
    SimulationEngine.runMultipleSimulations p None turns 2501 = Some (res, console) ∧
    let s := calculateStats (Some res) (SimulationEngine.maxValue p) in
    hasData s = SimulationEngine.hasAnyData res ∧
    actualSuccesses s = Z.of_nat (length (SimulationEngine.completedRuns res)) ∧
    (hasData s = true → avgSuccessfulIterations s = Some (avgLength s)) ∧
    (hasData s = false →
     (avgLength s, medianLength s, maxLength s, minLength s) = (0, 0, 0, 0)).
Proof.
  intros p turns. eexists _, _. split; [reflexivity|].
  eapply (X27_statistics_of_a_batch p None turns 2501);
    [intros e He; discriminate He|reflexivity].
Defined.

End StatisticsProps.

(* ===================================================================== *)
(** * Properties of the phases of the application *)
(* ===================================================================== *)

Module AppProps.
Import SimulationEngine SimulationSpec ProbabilityVisualizer.
Local Open Scope Z_scope.

Lemma runSimulation_Some currentPhase previous numRuns initialProb decayFactor maxValue
    turns endElapsed phaseAtEnd res console prog :
  runSimulation currentPhase previous numRuns initialProb decayFactor maxValue turns
    endElapsed phaseAtEnd = Some (res, console, prog) →
  runMultipleSimulations
    (mkBatchParams numRuns initialProb decayFactor maxValue (totalTimeLimitOf currentPhase))
    (match currentPhase with initial => None | _ => previous end) turns endElapsed =
    Some (res, console) ∧
  prog = _handleTimeoutProgression phaseAtEnd res.
Proof.
  unfold runSimulation. intros H.
  destruct (runMultipleSimulations _ _ _ _) as [[r c]|]; simpl in H; [|done].
  by simplify_eq.
Qed.



(** X29. When the loop of a run is left by the [break] of the time limit
    (and the clock does not run backwards), the run was started in the
    initial or the extended phase, and the progression steps on from the
    phase it reads after the [await], which need not be the phase the run was
    started in: from initial to extended with the warning of the 2-second
    limit, from extended to unlimited with the warning of the 10-second
    limit, both without showing the completion state or calling
    [_provideFeedback]; reading unlimited, it shows the completion state and
    calls [_provideFeedback].  So an extended run during which a handler has
    reset the phase to initial ends with the warning of the 2-second limit
    and the extended phase once more. *)
Theorem X29_time_limit_escalates currentPhase previous numRuns initialProb decayFactor
    maxValue turns endElapsed phaseAtEnd res console prog :
  (∀ t, t ∈ turns → t_elapsed t ≤ endElapsed) →
  0 ≤ previousTimeMs previous →
  runSimulation currentPhase previous numRuns initialProb decayFactor maxValue turns
    endElapsed phaseAtEnd = Some (res, console, prog) →
  log_hit_time_limit ∈ console →
  currentPhase ≠ unlimited ∧
  (phaseAtEnd = initial →
   nextPhase prog = extended ∧ warning prog = Some hit_2_second_limit ∧
   completionState prog = false ∧ feedback prog = false) ∧
  (phaseAtEnd = extended →
   nextPhase prog = unlimited ∧ warning prog = Some hit_10_second_limit ∧
   completionState prog = false ∧ feedback prog = false) ∧
  (phaseAtEnd = unlimited →
   nextPhase prog = unlimited ∧ warning prog = None ∧
   completionState prog = true ∧ feedback prog = true).
Proof.
  intros Hclock Hprev H Hin. apply runSimulation_Some in H as [H ->].
  pose proof H as H'.
  apply BatchMore.runMultipleSimulations_time_break in H as (Hhit & Hreached & _);
    [|done| |done].
  2: { by destruct currentPhase. }
  split.
  - intros ->. (* without a time limit the flag is false *)
    apply BatchMore.runMultipleSimulations_Some in H' as (st & _ & -> & _). done.
  - unfold _handleTimeoutProgression. rewrite Hreached, Hhit.
    split; [|split]; by intros ->.
Qed.

(** A run of the extended phase that hits its limit of 10 seconds after a
    handler has reset the phase to initial. *)
Lemma X29_time_limit_escalates_witness :
  let turns := [mkTurn 0 [3 # 4; 1 # 4]%Q 1 5 false; mkTurn 10500 [] 0 0 false] in
  ∃ res console prog,
    runSimulation extended None 2 (1 # 2) 1 1 turns 10501 initial =
      Some (res, console, prog) ∧
    extended ≠ unlimited ∧
    (initial = initial →
     nextPhase prog = extended ∧ warning prog = Some hit_2_second_limit ∧
     completionState prog = false ∧ feedback prog = false) ∧
    (initial = extended →
     nextPhase prog = unlimited ∧ warning prog = Some hit_10_second_limit ∧
     completionState prog = false ∧ feedback prog = false) ∧
    (initial = unlimited →
     nextPhase prog = unlimited ∧ warning prog = None ∧
     completionState prog = true ∧ feedback prog = true).
Proof.
  intros turns. eexists _, _, _. split; [reflexivity|].
  eapply (X29_time_limit_escalates extended None 2 (1 # 2) 1 1 turns 10501 initial).
  - intros t Ht. repeat (apply elem_of_cons in Ht as [->|Ht]; [simpl; lia|]).
    by apply elem_of_nil in Ht.
  - simpl. lia.
  - reflexivity.
  - simpl. apply list_elem_of_singleton. reflexivity.
Defined.

End AppProps.
